(** * Portfolio returns (beancount/projects/returns.py)

    A shallow embedding of the returns engine: the account classifier
    [find_matching], the period segmenter [segment_periods], the period
    return calculator [compute_period_returns], the annualizer
    [annualize_returns] and the aggregator [compute_returns], with the
    properties the specification states about them; and the display context
    of beancount/core/display_context.py with its builder. *)

From Stdlib Require Import ZArith QArith Qcanon Lia.
From stdpp Require Import gmap strings list fin_maps pretty.

Local Open Scope Z_scope.

(** * Data model *)

(** A [datetime.date], as its proleptic ordinal.  Dates are always truthy in
    Python, so [if date_end and ...] tests that the date is not [None]. *)
Abbreviation date := Z (only parsing).

(** A [Decimal] quantity, as an exact rational (context rounding is not
    modelled). *)
Abbreviation Decimal := Qc (only parsing).

Definition ZERO : Decimal := 0%Qc.

(** Modelled from the spec: the lot of a position (beancount.core.position is
    not part of the sources): a currency and an optional cost basis
    (cost currency, unit cost, acquisition date).  [pos.lot.cost] is truthy
    exactly when the cost basis is present. *)
Record Lot := mkLot {
  lot_currency : string;
  lot_cost : option (string * Decimal * date)
}.

Global Instance Lot_eq_dec : EqDecision Lot.
Proof. solve_decision. Defined.

Global Instance Lot_countable : Countable Lot.
Proof.
  refine (inj_countable' (λ l, (lot_currency l, lot_cost l))
                         (λ p, mkLot p.1 p.2) _).
  by intros [].
Defined.

Record Position := mkPosition {
  lot : Lot;
  number : Decimal
}.

Record Posting := mkPosting {
  account : string;
  position : Position
}.

(** A directive.  Only transactions carry postings; every other directive
    is kept with its date and the accounts it refers to. *)
Inductive Directive :=
  | Transaction (d : date) (postings : list Posting)
  | Other (d : date) (accounts : list string).

Definition entry_date (entry : Directive) : date :=
  match entry with
  | Transaction d _ => d
  | Other d _ => d
  end.

(** Modelled from the spec: [getters.get_entry_accounts] (beancount.core.getters
    is not part of the sources): the set of accounts an entry refers to; for a
    transaction, the accounts of its postings. *)
Definition get_entry_accounts (entry : Directive) : gset string :=
  match entry with
  | Transaction _ postings => list_to_set (account <$> postings)
  | Other _ accounts => list_to_set accounts
  end.

(** Modelled from the spec: an [Inventory] (beancount.core.inventory is not
    part of the sources) is a mapping from lots to accumulated quantities;
    quantities of one lot are summed and a lot whose quantity reaches zero is
    dropped. *)
Abbreviation Inventory := (gmap Lot Decimal) (only parsing).

(** Modelled from the spec: [Inventory.add_position], on the content of the
    inventory: the quantity is added to the one of its lot. *)
Definition inv_add_position (inv : Inventory) (pos : Position) : Inventory :=
  let n := (default ZERO (inv !! lot pos) + number pos)%Qc in
  if decide (n = ZERO) then delete (lot pos) inv else <[lot pos := n]> inv.

(** Modelled from the spec: [Inventory.get_positions()], one position for
    each lot of the inventory. *)
Definition get_positions (inv : Inventory) : list Position :=
  (λ kv, mkPosition kv.1 kv.2) <$> map_to_list inv.

(** * Exceptions and results *)

Inductive exn :=
  | ValueError
  | StopIteration
  | AssertionError
  | IndexError
  | ArithmeticError. (* ZeroDivisionError and OverflowError of float [**] *)

Global Instance exn_eq_dec : EqDecision exn.
Proof. solve_decision. Defined.

Inductive outcome (A : Type) :=
  | Returns (a : A)
  | Raises (e : exn).
Arguments Returns {A} a.
Arguments Raises {A} e.

Definition obind {A B} (m : outcome A) (k : A → outcome B) : outcome B :=
  match m with
  | Returns a => k a
  | Raises e => Raises e
  end.

Global Instance outcome_ret : MRet outcome := @Returns.
Global Instance outcome_bind : MBind outcome := λ A B k m, obind m k.

(** * 4.1 The account classifier: [find_matching] *)

Section classifier.
(** [re.compile(related_regexp).match], as the truth value of its result. *)
Variable re_match : string → bool.
(** [account_types.is_income_statement_account(_, acc_types)]. *)
Variable is_income_statement_account : string → bool.

(** The triplet of account sets the classifier returns (in the source:
    [accounts_assets], [accounts_intflows], [accounts_extflows]). *)
Record AccountSets := mkAccountSets {
  assets : gset string;
  internal_flows : gset string;
  external_flows : gset string
}.

(** The body of [for posting in entry.postings]. *)
Definition classify_posting (sets : AccountSets) (posting : Posting)
  : AccountSets :=
  let a := account posting in
  if re_match a then
    if is_income_statement_account a then
      mkAccountSets (assets sets)
                    ({[a]} ∪ internal_flows sets)
                    (external_flows sets)
    else
      mkAccountSets ({[a]} ∪ assets sets)
                    (internal_flows sets)
                    (external_flows sets)
  else
    mkAccountSets (assets sets)
                  (internal_flows sets)
                  ({[a]} ∪ external_flows sets).

(** [any(match(posting.account) for posting in entry.postings)]. *)
Definition any_match (postings : list Posting) : bool :=
  existsb (λ posting, re_match (account posting)) postings.

(** The body of [for entry in entries]. *)
Definition find_matching_step (acc : list Directive * AccountSets)
    (entry : Directive) : list Directive * AccountSets :=
  match entry with
  | Other _ _ => acc
  | Transaction _ postings =>
      if any_match postings then
        (acc.1 ++ [entry], foldl classify_posting acc.2 postings)
      else acc
  end.

Definition find_matching (entries : list Directive)
  : list Directive * AccountSets :=
  foldl find_matching_step ([], mkAccountSets ∅ ∅ ∅) entries.

End classifier.

(** * Inventories as Python objects

    [segment_periods] holds its running balance in one [Inventory] object
    that [sum_balances_for_accounts] updates in place, and stores objects in
    the period tuples.  The code below is written once against this
    interface: [M] is the state of the memory and [B] what a variable bound
    to an inventory holds. *)

Class Memory (M B : Type) := {
  mem_empty : M;
  (** [inventory.Inventory()] *)
  new_inventory : M → B * M;
  (** [copy.copy(balance)] *)
  copy_inventory : M → B → B * M;
  (** [balance.add_position(position)]; the result is what [balance] is bound
      to afterwards. *)
  add_position : M → B → Position → B * M;
  (** The content of an inventory object. *)
  read_inventory : M → B → gmap Lot Qc
}.

(** The heap of inventory objects; an address is an index. *)
Abbreviation Heap := (list (gmap Lot Qc)) (only parsing).

Definition heap_read (h : Heap) (l : nat) : Inventory := default ∅ (h !! l).

Definition heap_alloc (h : Heap) (inv : Inventory) : nat * Heap :=
  (length h, h ++ [inv]).

(** Modelled from the spec: the methods of [Inventory] (its class is not
    part of the sources) under Python's reference semantics.  A variable
    holds the address of an object; [add_position] updates the object in
    place, and [copy.copy] allocates a new object with the same content,
    sharing nothing with the original. *)
Global Instance PyHeap : Memory (list (gmap Lot Qc)) nat := {|
  mem_empty := [];
  new_inventory h := heap_alloc h ∅;
  copy_inventory h l := heap_alloc h (heap_read h l);
  add_position h l pos := (l, <[l := inv_add_position (heap_read h l) pos]> h);
  read_inventory := heap_read
|}.

(** The same methods under value semantics: a variable holds the content
    itself, so every stored balance is a snapshot taken when it was
    stored. *)
Global Instance Snapshots : Memory unit (gmap Lot Qc) := {|
  mem_empty := tt;
  new_inventory _ := (∅, tt);
  copy_inventory _ inv := (inv, tt);
  add_position _ inv pos := (inv_add_position inv pos, tt);
  read_inventory _ inv := inv
|}.

(** * 4.2 The period segmenter: [segment_periods] *)

(** A period tuple [(period_begin, period_end, balance_begin, balance_end)]. *)
Record Period (B : Type) := mkPeriod {
  period_begin : date;
  period_end : date;
  balance_begin : B;
  balance_end : B
}.
Arguments mkPeriod {B}.
Arguments period_begin {B}.
Arguments period_end {B}.
Arguments balance_begin {B}.
Arguments balance_end {B}.

(** The state of the inner loop when it is left. *)
Record InnerExit (M B : Type) := mkInnerExit {
  ie_period_end : date;
  ie_done : bool;
  ie_entry : Directive;
  ie_iter : list Directive;
  ie_balance : B;
  ie_mem : M
}.
Arguments mkInnerExit {M B}.
Arguments ie_period_end {M B}.
Arguments ie_done {M B}.
Arguments ie_entry {M B}.
Arguments ie_iter {M B}.
Arguments ie_balance {M B}.
Arguments ie_mem {M B}.

Section segmenter.
Context {M B : Type} {mem : Memory M B}.
Variables accounts_assets accounts_intflows : gset string.
Variables date_begin date_end : option date.

Definition accounts_related : gset string :=
  accounts_assets ∪ accounts_intflows.

Definition is_external_flow_entry (entry : Directive) : bool :=
  match entry with
  | Transaction _ postings =>
      existsb (λ posting, bool_decide (account posting ∉ accounts_related))
              postings
  | Other _ _ => false
  end.

(** [getters.get_entry_accounts(entry) & accounts_assets], as a truth value. *)
Definition is_asset_entry (entry : Directive) : bool :=
  bool_decide (get_entry_accounts entry ∩ accounts_assets ≠ ∅).

Definition sum_balances_for_accounts (m : M) (balance : B) (entry : Directive)
    (accounts : gset string) : B * M :=
  match entry with
  | Transaction _ postings =>
      foldl (λ '(balance, m) posting,
               if bool_decide (account posting ∈ accounts)
               then add_position m balance (position posting)
               else (balance, m))
            (balance, m) postings
  | Other _ _ => (balance, m)
  end.

(** [date_end and d >= date_end]. *)
Definition at_or_after_end (d : date) : bool :=
  match date_end with
  | Some de => bool_decide (de ≤ d)
  | None => false
  end.

(** The loop that skips the entries before [date_begin] (lines 164-170).
    [inl] is the [StopIteration] of [next(iter_entries)], caught at line 171;
    [inr] is the state at the [break]. *)
Fixpoint skip_entries (db : date) (iter_entries : list Directive)
    (entry : Directive) (balance : B) (m : M)
    : (B * M) + (Directive * list Directive * B * M) :=
  if bool_decide (db ≤ entry_date entry) then
    inr (entry, iter_entries, balance, m)
  else if at_or_after_end (entry_date entry) then
    inr (entry, iter_entries, balance, m)
  else
    let '(balance, m) :=
      sum_balances_for_accounts m balance entry accounts_assets in
    match iter_entries with
    | [] => inl (balance, m)
    | entry :: iter_entries => skip_entries db iter_entries entry balance m
    end.

(** The inner loop (lines 190-207), which consumes internal flow entries.
    The [else] clause of this [while True] cannot run and is left out, as is
    the logging. *)
Fixpoint inner_loop (iter_entries : list Directive) (entry : Directive)
    (balance : B) (m : M) : InnerExit M B :=
  let period_end := entry_date entry in
  if is_external_flow_entry entry then
    mkInnerExit period_end false entry iter_entries balance m
  else if at_or_after_end (entry_date entry) then
    mkInnerExit (default period_end date_end) true entry iter_entries balance m
  else
    let '(balance, m) :=
      sum_balances_for_accounts m balance entry accounts_assets in
    match iter_entries with
    | [] =>
        mkInnerExit (default period_end date_end) true entry [] balance m
    | entry :: iter_entries => inner_loop iter_entries entry balance m
    end.

(** The main loop (lines 181-236).  Every pass takes an entry from the
    iterator before it loops, so at most [length iter_entries + 1] passes
    run; [None] stands for more passes than [fuel]. *)
Fixpoint main_loop (fuel : nat) (iter_entries : list Directive)
    (entry : Directive) (balance : B) (m : M) (period_begin : date)
    (periods : list (Period B)) : option (outcome (list (Period B) * M)) :=
  match fuel with
  | O => None
  | S fuel =>
      let '(balance_begin, m) := copy_inventory m balance in
      let x := inner_loop iter_entries entry balance m in
      let '(balance_end, m) := copy_inventory (ie_mem x) (ie_balance x) in
      let periods :=
        periods ++ [mkPeriod period_begin (ie_period_end x)
                             balance_begin balance_end] in
      if ie_done x then Some (Returns (periods, m))
      else if negb (is_external_flow_entry (ie_entry x)) then
        Some (Raises AssertionError)
      else
        let '(balance, m) :=
          sum_balances_for_accounts m (ie_balance x) (ie_entry x)
                                    accounts_assets in
        match ie_iter x with
        | [] =>
            match date_end with
            | Some de =>
                Some (Returns (periods ++ [mkPeriod (ie_period_end x) de
                                                    balance balance], m))
            | None => Some (Returns (periods, m))
            end
        | entry :: iter_entries =>
            main_loop fuel iter_entries entry balance m (ie_period_end x)
                      periods
        end
  end.

(** [date_begin and date_end and date_begin >= date_end]. *)
Definition dates_misordered : bool :=
  match date_begin, date_end with
  | Some db, Some de => bool_decide (de ≤ db)
  | _, _ => false
  end.

Definition segment_periods (entries : list Directive)
    : option (outcome (list (Period B) * M)) :=
  if dates_misordered then Some (Raises ValueError)
  else
    match filter (λ entry, is_asset_entry entry = true) entries with
    | [] => Some (Raises StopIteration)
    | entry :: iter_entries =>
        let '(balance, m) := new_inventory mem_empty in
        match date_begin with
        | Some db =>
            match skip_entries db iter_entries entry balance m with
            | inl (balance, m) =>
                Some (Returns ([mkPeriod db (default db date_end)
                                         balance balance], m))
            | inr (entry, iter_entries, balance, m) =>
                main_loop (S (length iter_entries)) iter_entries entry
                          balance m db []
            end
        | None =>
            main_loop (S (length iter_entries)) iter_entries entry
                      balance m (entry_date entry) []
        end
    end.

End segmenter.

(** * Floating-point numbers

    The engine only combines floats through the operations below, which are
    kept abstract. *)
Class FloatOps (F : Type) := {
  (** [1.0] *)
  f_one : F;
  (** [x == y] *)
  f_eqb : F → F → bool;
  (** [x * y] *)
  f_mul : F → F → F;
  (** [x ** y]; [None] when Python raises (ZeroDivisionError for zero to a
      negative power, OverflowError when the result is out of range). *)
  f_pow : F → F → option F;
  (** [365. / num_days], for [num_days] other than 0 *)
  f_365_div : Z → F;
  (** [float(end / begin)], for [begin] other than 0 *)
  float_of_ratio : Qc → Qc → F
}.

(** * 4.4 The period return calculator: [compute_period_returns] *)

Section returns.
Context {F : Type} `{!FloatOps F}.
(** The price database and [prices.get_inventory_market_value] (neither
    beancount.ops.prices nor its data are part of the sources). *)
Variable PriceMap : Type.
Variable get_inventory_market_value :
  gmap Lot Qc → date → PriceMap → gmap Lot Qc.
Variable build_price_map : list Directive → PriceMap.

(** The body of [for pos in mktvalue.get_positions()] (lines 273-278), on
    the set [currencies] and the dict [single]. *)
Definition collect_position
    (acc : outcome (gset string * gmap string Qc)) (pos : Position)
  : outcome (gset string * gmap string Qc) :=
  '(currencies, single) ← acc;
  match lot_cost (lot pos) with
  | Some _ => Returns (currencies, single)
  | None =>
      let currency := lot_currency (lot pos) in
      if decide (is_Some (single !! currency)) then Raises AssertionError
      else Returns ({[currency]} ∪ currencies, <[currency := number pos]> single)
  end.

Definition collect_positions (currencies : gset string)
    (positions : list Position) : outcome (gset string * gmap string Qc) :=
  foldl collect_position (Returns (currencies, ∅)) positions.

(** The body of [for currency in currencies] (lines 288-293). *)
Definition period_return (single_begin single_end : gmap string Qc)
    (currency : string) : F :=
  let begin := default ZERO (single_begin !! currency) in
  let end_ := default ZERO (single_end !! currency) in
  if decide (begin = ZERO) then f_one else float_of_ratio end_ begin.

Definition compute_period_returns (date_begin date_end : date)
    (balance_begin balance_end : gmap Lot Qc) (price_map : PriceMap)
  : outcome (gmap string F * (gmap Lot Qc * gmap Lot Qc)) :=
  let mktvalue_begin :=
    get_inventory_market_value balance_begin date_begin price_map in
  let mktvalue_end :=
    get_inventory_market_value balance_end date_end price_map in
  '(currencies, single_begin) ←
    collect_positions ∅ (get_positions mktvalue_begin);
  '(currencies, single_end) ←
    collect_positions currencies (get_positions mktvalue_end);
  let returns :=
    foldl (λ returns currency,
             <[currency := period_return single_begin single_end currency]>
               returns)
          (∅ : gmap string F) (elements currencies) in
  Returns (returns, (mktvalue_begin, mktvalue_end)).

(** * 4.5 The annualizer: [annualize_returns] *)

(** [return_ != 1] for some item of the dict (lines 313-314). *)
Definition some_return_not_one (returns : gmap string F) : bool :=
  existsb (λ item, negb (f_eqb item.2 f_one)) (map_to_list returns).

(** The dict comprehension [{currency: return_ ** exponent for ...}]. *)
Fixpoint pow_items (items : list (string * F)) (exponent : F)
  : outcome (list (string * F)) :=
  match items with
  | [] => Returns []
  | (currency, return_) :: items =>
      match f_pow return_ exponent with
      | None => Raises ArithmeticError
      | Some v =>
          rest ← pow_items items exponent;
          Returns ((currency, v) :: rest)
      end
  end.

Definition annualize_returns (returns : gmap string F)
    (date_first date_last : date) : outcome (gmap string F) :=
  let num_days := date_last - date_first in
  exponent ←
    (if decide (num_days = 0) then
       if some_return_not_one returns then Raises ValueError
       else Returns f_one
     else Returns (f_365_div num_days));
  items ← pow_items (map_to_list returns) exponent;
  Returns (list_to_map items).

(** * 4.6 The return aggregator: [compute_returns] *)

Section aggregator.
Context {M B : Type} {mem : Memory M B}.

(** The loop over the periods (lines 381-390); the annualized returns of a
    period are computed for the log only. *)
Fixpoint period_loop (m : M) (periods : list (Period B))
    (price_map : PriceMap) : outcome (list (gmap string F)) :=
  match periods with
  | [] => Returns []
  | p :: periods =>
      '(period_returns, mktvalues) ←
        compute_period_returns (period_begin p) (period_end p)
          (read_inventory m (balance_begin p))
          (read_inventory m (balance_end p)) price_map;
      annual_returns ←
        (if decide (period_end p ≠ period_begin p)
         then annualize_returns period_returns (period_begin p) (period_end p)
         else Returns ∅);
      all_returns ← period_loop m periods price_map;
      Returns (period_returns :: all_returns)
  end.

(** The inner loop of lines 406-408. *)
Definition total_return (all_returns : list (gmap string F))
    (currency : string) : F :=
  foldl (λ total returns, f_mul total (default f_one (returns !! currency)))
        f_one all_returns.

(** Lines 401-409. *)
Definition compound_returns (all_returns : list (gmap string F))
  : gmap string F :=
  let currencies : gset string := ⋃ (dom <$> all_returns) in
  foldl (λ total_returns currency,
           <[currency := total_return all_returns currency]> total_returns)
        ∅ (elements currencies).

(** [compute_returns]; [options_map] is not used by the function and the
    validation pass of lines 363-369 only logs.  [None] is a main loop of
    [segment_periods] out of passes. *)
Definition compute_returns (entries : list Directive)
    (accounts_assets accounts_intflows : gset string)
    (price_map : option PriceMap) (date_begin date_end : option date)
  : option (outcome (gmap string F * (date * date))) :=
  let price_map := default (build_price_map entries) price_map in
  r ← segment_periods (M := M) accounts_assets accounts_intflows
         date_begin date_end entries;
  Some ('(periods, m) ← r;
        all_returns ← period_loop m periods price_map;
        let total_returns := compound_returns all_returns in
        match head periods, last periods with
        | Some p0, Some pn =>
            Returns (total_returns, (period_begin p0, period_end pn))
        | _, _ => Raises IndexError
        end).

End aggregator.
End returns.

(** * [compute_returns_with_regexp] *)

Section returns_with_regexp.
Context {F : Type} `{!FloatOps F} {M B : Type} {mem : Memory M B}.
Variable PriceMap : Type.
Variable get_inventory_market_value :
  gmap Lot Qc → date → PriceMap → gmap Lot Qc.
Variable build_price_map : list Directive → PriceMap.

(** Lines 430-455.  [is_income_statement_account] is the predicate with the
    account types of [options.get_account_types(options_map)] and [re_match]
    the compiled [related_regexp]; the log of the three sets is left out.
    The function passes all the entries on, not the matching ones. *)
Definition compute_returns_with_regexp (entries : list Directive)
    (is_income_statement_account : string → bool) (re_match : string → bool)
    (date_begin date_end : option date)
  : option (outcome (gmap string F * (date * date))) :=
  let price_map := build_price_map entries in
  let '(matching_entries, sets) :=
    find_matching re_match is_income_statement_account entries in
  compute_returns (M := M) PriceMap get_inventory_market_value
    build_price_map entries (assets sets) (internal_flows sets)
    (Some price_map) date_begin date_end.

End returns_with_regexp.

(** * An exact instance of the float operations

    Rationals with exact arithmetic, on which the definitions above can be
    run: powers are taken for integral exponents only (other powers are
    reported as out of range); as in Python, zero to a negative power
    raises, and [x ** 1.0] is [x]. *)
Definition exact_pow (x exponent : Qc) : option Qc :=
  let n := Qnum (this exponent) in
  if decide (Qden (this exponent) = 1%positive) then
    if decide (n < 0) then
      if decide (x = 0%Qc) then None
      else Some (Qcpower (/ x)%Qc (Z.to_nat (- n)))
    else Some (Qcpower x (Z.to_nat n))
  else None.

Global Instance ExactFloat : FloatOps Qc := {|
  f_one := 1%Qc;
  f_eqb x y := bool_decide (x = y);
  f_mul := Qcmult;
  f_pow := exact_pow;
  f_365_div num_days := (Q2Qc (inject_Z 365) / Q2Qc (inject_Z num_days))%Qc;
  float_of_ratio end_ begin := (end_ / begin)%Qc
|}.

(** * A ledger to run the engine on

    A deposit into a brokerage account on 2020-01-01 and another on
    2020-06-01, a dividend on 2020-12-01 and a withdrawal on 2021-01-01;
    the dates are ordinals ([date.toordinal()]). *)
Definition usd (n : Z) : Position :=
  mkPosition (mkLot "USD" None) (Q2Qc (inject_Z n)).

Definition brokerage : string := "Assets:Brokerage".
Definition checking : string := "Assets:Checking".
Definition dividends : string := "Income:Dividends".
Definition food : string := "Expenses:Food".

Definition deposit1 : Directive :=
  Transaction 737425 [mkPosting brokerage (usd 1000);
                      mkPosting checking (usd (-1000))].
Definition deposit2 : Directive :=
  Transaction 737577 [mkPosting brokerage (usd 1000);
                      mkPosting checking (usd (-1000))].
Definition dividend : Directive :=
  Transaction 737760 [mkPosting brokerage (usd 100);
                      mkPosting dividends (usd (-100))].
Definition withdrawal : Directive :=
  Transaction 737791 [mkPosting brokerage (usd (-500));
                      mkPosting checking (usd 500)].
Definition groceries : Directive :=
  Transaction 737500 [mkPosting food (usd 40);
                      mkPosting checking (usd (-40))].

Definition ledger : list Directive :=
  [deposit1; deposit2; dividend; withdrawal].

(** One year of the brokerage account: the deposit, the dividend and a
    withdrawal on 2020-12-31. *)
Definition year_ledger : list Directive :=
  [deposit1; dividend;
   Transaction 737790 [mkPosting brokerage (usd (-500));
                       mkPosting checking (usd 500)]].

Definition ledger_assets : gset string := {[brokerage]}.
Definition ledger_intflows : gset string := {[dividends]}.

(** * The vocabulary of the properties *)

(** ** Classification *)

(** [entry] is a transaction with a posting on a related account. *)
Definition is_matching (re_match : string → bool) (entry : Directive)
  : bool :=
  match entry with
  | Transaction _ postings => any_match re_match postings
  | Other _ _ => false
  end.

Definition postings_of (entry : Directive) : list Posting :=
  match entry with
  | Transaction _ postings => postings
  | Other _ _ => []
  end.

(** Account [a] is posted to in a matching transaction of [entries]. *)
Definition posted_in_matching (re_match : string → bool)
    (entries : list Directive) (a : string) : Prop :=
  ∃ entry posting, entry ∈ entries ∧ is_matching re_match entry = true ∧
    posting ∈ postings_of entry ∧ account posting = a.

(** The specification's words: a transaction with at least one posting
    whose account matches the pattern. *)
Definition has_matching_posting (re_match : string → bool)
    (entry : Directive) : Prop :=
  match entry with
  | Transaction _ postings =>
      Exists (λ posting, re_match (account posting) = true) postings
  | Other _ _ => False
  end.

Global Instance has_matching_posting_dec re_match entry :
  Decision (has_matching_posting re_match entry).
Proof. destruct entry; apply _. Defined.

(** Account [a] is posted to in a transaction of [entries] that has a
    posting whose account matches the pattern. *)
Definition posted_with_match (re_match : string → bool)
    (entries : list Directive) (a : string) : Prop :=
  ∃ entry posting, entry ∈ entries ∧ has_matching_posting re_match entry ∧
    posting ∈ postings_of entry ∧ account posting = a.

(** ** Dates of the periods *)

(** The periods follow one another from date [d]: the first begins at [d]
    and each one begins where the one before ends. *)
Fixpoint contiguous_from {B} (d : date) (periods : list (Period B)) : Prop :=
  match periods with
  | [] => True
  | p :: periods => period_begin p = d ∧ contiguous_from (period_end p) periods
  end.

(** The end date of the last period ([d] when there is none). *)
Definition last_end {B} (d : date) (periods : list (Period B)) : date :=
  foldl (λ _ p, period_end p) d periods.

(** The last entry the iterator yields, [entry] being the current one. *)
Fixpoint last_entry (entry : Directive) (iter_entries : list Directive)
  : Directive :=
  match iter_entries with
  | [] => entry
  | entry :: iter_entries => last_entry entry iter_entries
  end.

(** The date at which the last period ends when the whole stream is
    consumed. *)
Definition closing_date (date_end : option date) (entry : Directive)
    (iter_entries : list Directive) : date :=
  match date_end with
  | Some de => de
  | None => entry_date (last_entry entry iter_entries)
  end.

(** The asset-relevant entries all come before [b]. *)
Definition all_before (b : date) (entries : list Directive) : Prop :=
  Forall (λ e, entry_date e < b) entries.

(** The date at which the last period ends: [date_end] when given; else
    [date_begin] when every asset-relevant entry comes before it, and the
    date of the last asset-relevant entry otherwise. *)
Definition final_date (date_begin date_end : option date)
    (entry : Directive) (iter_entries : list Directive) : date :=
  match date_end, date_begin with
  | Some de, _ => de
  | None, Some db =>
      if decide (all_before db (entry :: iter_entries)) then db
      else entry_date (last_entry entry iter_entries)
  | None, None => entry_date (last_entry entry iter_entries)
  end.

(** The asset-relevant entries, which [iter_entries] yields. *)
Definition asset_entries (accounts_assets : gset string)
    (entries : list Directive) : list Directive :=
  filter (λ e, is_asset_entry accounts_assets e = true) entries.

(** The partition property as the specification states it, for all
    inputs: every period ends where the next one begins, the first begins at
    the first date, the last ends at [date_end] when given, else at the date
    of the last entry consumed, and no period ends before it begins. *)
Definition partition_as_stated (accounts_assets accounts_intflows : gset string)
    (date_begin date_end : option date) (entries : list Directive) : Prop :=
  ∀ periods h,
    segment_periods (mem := PyHeap) accounts_assets accounts_intflows
      date_begin date_end entries = Some (Returns (periods, h)) →
    (∀ i p q, periods !! i = Some p → periods !! S i = Some q →
              period_end p = period_begin q) ∧
    period_begin <$> head periods =
      match date_begin with
      | Some db => Some db
      | None => entry_date <$> head (asset_entries accounts_assets entries)
      end ∧
    period_end <$> last periods =
      match date_end with
      | Some de => Some de
      | None => entry_date <$> last (asset_entries accounts_assets entries)
      end ∧
    Forall (λ p, period_begin p ≤ period_end p) periods.

(** The loop of [segment_periods] meets no external flow entry dated after
    [date_end]: every such entry of the stream comes after an entry that is
    not an external flow entry and is dated on or after [date_end], at which
    the loop ends. *)
Definition no_flow_past_end (accounts_assets accounts_intflows : gset string)
    (date_end : option date) (stream : list Directive) : Prop :=
  ∀ de l1 e l2,
    date_end = Some de → stream = l1 ++ e :: l2 →
    is_external_flow_entry accounts_assets accounts_intflows e = true →
    de < entry_date e →
    Exists (λ e', is_external_flow_entry accounts_assets accounts_intflows e'
                    = false ∧ de ≤ entry_date e') l1.

(** ** The balances stored in the periods *)

(** A period as its reader sees it: the dates and the content of the two
    balances. *)
Definition read_period {M B} {mem : Memory M B} (m : M) (p : Period B)
  : Period (gmap Lot Qc) :=
  mkPeriod (period_begin p) (period_end p)
           (read_inventory m (balance_begin p))
           (read_inventory m (balance_end p)).

(** The result of [segment_periods] as its caller reads it. *)
Definition read_result {M B} {mem : Memory M B}
    (r : option (outcome (list (Period B) * M)))
  : option (outcome (list (Period (gmap Lot Qc)))) :=
  match r with
  | Some (Returns (periods, m)) => Some (Returns (read_period m <$> periods))
  | Some (Raises e) => Some (Raises e)
  | None => None
  end.

(** Addresses [l] of periods that are allocated in [h] and are not the
    running balance. *)
Definition detached (h : Heap) (balance : nat) (p : Period nat) : Prop :=
  (balance_begin p < length h)%nat ∧ balance_begin p ≠ balance ∧
  (balance_end p < length h)%nat ∧ balance_end p ≠ balance.

(** What a run of heap code on the running balance [l] leaves behind: the
    same address, no allocation, the content [inv] at [l] and every other
    object as it was. *)
Definition updates_only (h : Heap) (l : nat) (r : nat * Heap)
    (inv : gmap Lot Qc) : Prop :=
  r.1 = l ∧ length r.2 = length h ∧ heap_read r.2 l = inv ∧
  ∀ l', l' ≠ l → heap_read r.2 l' = heap_read h l'.

(** ** Returns *)

(** The plain (held without cost) amount of a currency in an inventory. *)
Definition plain_amount (inv : gmap Lot Qc) (currency : string) : option Qc :=
  inv !! mkLot currency None.

(** The exponent [annualize_returns] uses for a date range. *)
Definition annual_exponent {F : Type} `{!FloatOps F}
    (date_first date_last : date) : F :=
  if decide (date_last - date_first = 0) then f_one
  else f_365_div (date_last - date_first).

(** [returns] is what [compute_period_returns] gives for period [p]. *)
Definition returns_of_period {F : Type} `{!FloatOps F} {M B : Type}
    {mem : Memory M B} (PriceMap : Type)
    (get_inventory_market_value : gmap Lot Qc → date → PriceMap → gmap Lot Qc)
    (m : M) (price_map : PriceMap) (p : Period B)
    (returns : gmap string F) : Prop :=
  ∃ mktvalues,
    compute_period_returns PriceMap get_inventory_market_value
      (period_begin p) (period_end p)
      (read_inventory m (balance_begin p))
      (read_inventory m (balance_end p)) price_map =
    Returns (returns, mktvalues).

(** That [annualize_returns] raises no error at all on a reversed range. *)
Definition reversed_range_never_raises (F : Type) `{!FloatOps F} : Prop :=
  ∀ (returns : gmap string F) (date_first date_last : date),
    date_last < date_first →
    ∃ res, annualize_returns returns date_first date_last = Returns res.

(** The annualization of the returns of period [p], which
    [compute_returns] makes for its log, fails: the period has days and some
    return of the period cannot be raised to [365.0 / days]. *)
Definition annualization_fails {F : Type} `{!FloatOps F} {M B : Type}
    {mem : Memory M B} (PriceMap : Type)
    (get_inventory_market_value : gmap Lot Qc → date → PriceMap → gmap Lot Qc)
    (m : M) (price_map : PriceMap) (p : Period B) : Prop :=
  period_end p ≠ period_begin p ∧
  ∃ (returns : gmap string F) c r,
    returns_of_period PriceMap get_inventory_market_value m price_map p
      returns ∧
    returns !! c = Some r ∧
    f_pow r (f_365_div (period_end p - period_begin p)) = None.

(** Currency [c] is held without cost in the market value of the begin
    balance or of the end balance of period [p]. *)
Definition held_in_period {M B : Type} {mem : Memory M B} (PriceMap : Type)
    (get_inventory_market_value : gmap Lot Qc → date → PriceMap → gmap Lot Qc)
    (m : M) (price_map : PriceMap) (c : string) (p : Period B) : Prop :=
  is_Some (plain_amount
             (get_inventory_market_value
                (read_inventory m (balance_begin p)) (period_begin p)
                price_map) c) ∨
  is_Some (plain_amount
             (get_inventory_market_value
                (read_inventory m (balance_end p)) (period_end p)
                price_map) c).

(** ** Balances of the periods *)

(** The positions an entry posts to [accounts], in the order of its
    postings. *)
Definition posted_positions (accounts : gset string) (entry : Directive)
  : list Position :=
  position <$> filter (λ posting, account posting ∈ accounts)
                      (postings_of entry).

(** The content of a balance after the entry is accumulated into it. *)
Definition add_entry (accounts : gset string) (inv : gmap Lot Qc)
    (entry : Directive) : gmap Lot Qc :=
  foldl inv_add_position inv (posted_positions accounts entry).

Definition add_entries (accounts : gset string) (inv : gmap Lot Qc)
    (entries : list Directive) : gmap Lot Qc :=
  foldl (add_entry accounts) inv entries.

(** The entries at the head of the stream that are dated before [b]. *)
Fixpoint entries_before (b : date) (entries : list Directive)
  : list Directive :=
  match entries with
  | [] => []
  | e :: entries =>
      if decide (entry_date e < b) then e :: entries_before b entries else []
  end.

(** The number of external flow entries of a stream. *)
Definition n_external (accounts_assets accounts_intflows : gset string)
    (entries : list Directive) : nat :=
  length (filter (λ e, is_external_flow_entry accounts_assets
                         accounts_intflows e = true) entries).

(** Between its two balances, period [p] accumulates a run of consecutive
    entries of the stream none of which is an external flow entry. *)
Definition accumulates (accounts_assets accounts_intflows : gset string)
    (stream : list Directive) (p : Period (gmap Lot Qc)) : Prop :=
  ∃ l1 consumed l2,
    stream = l1 ++ consumed ++ l2 ∧
    Forall (λ e, is_external_flow_entry accounts_assets accounts_intflows e
                 = false) consumed ∧
    balance_end p = add_entries accounts_assets (balance_begin p) consumed.

(** Periods [p] and [q] meet at an external flow entry of the stream, dated
    at the end of [p], which takes the end balance of [p] to the begin
    balance of [q]. *)
Definition seam (accounts_assets accounts_intflows : gset string)
    (stream : list Directive) (p q : Period (gmap Lot Qc)) : Prop :=
  ∃ e, e ∈ stream ∧
    is_external_flow_entry accounts_assets accounts_intflows e = true ∧
    entry_date e = period_end p ∧
    balance_begin q = add_entry accounts_assets (balance_end p) e.

(** The entries of the stream come in the order of their dates. *)
Fixpoint chronological (from : date) (stream : list Directive) : Prop :=
  match stream with
  | [] => True
  | e :: stream => from ≤ entry_date e ∧ chronological (entry_date e) stream
  end.

(** * The display context: [beancount/core/display_context.py]

    A currency key is a string, or [None] for the default. *)

(** A precision: an [int], or the constant [FULL_PRECISION]. *)
Inductive Precision :=
  | FULL_PRECISION
  | Digits (n : Z).

(** The attributes of a [DisplayContext] object. *)
Record DisplayContext := mkDisplayContext {
  commas : bool;
  signs : bool;
  precision : gmap (option string) Precision;
  precision_max : gmap (option string) Precision;
  formats : gmap (option string) string;
  formats_max : gmap (option string) string;
  formats_default : string;
  formats_max_default : string
}.

(** The format string of one precision (lines 98-105); [str] of an integer
    is its decimal notation. *)
Definition format_string (commas signs : bool) (precision : Precision)
  : string :=
  let comma_str := if commas then "," else EmptyString in
  let signs_str := if signs then " " else EmptyString in
  match precision with
  | FULL_PRECISION => "{:" +:+ signs_str +:+ comma_str +:+ "}"
  | Digits n => "{:" +:+ signs_str +:+ comma_str +:+ "." +:+ pretty n +:+ "f}"
  end.

(** [DisplayContext._formats_dict]; [None] is the [KeyError] of
    [formats[None]] (line 107). *)
Definition _formats_dict (precision_dict : gmap (option string) Precision)
    (commas signs : bool) : option (gmap (option string) string * string) :=
  let formats :=
    foldl (λ formats '(currency, precision),
             <[currency := format_string commas signs precision]> formats)
          ∅ (map_to_list precision_dict) in
  default_format ← formats !! None;
  Some (formats, default_format).

Module DisplayContext.

(** [DisplayContext.update]. *)
Definition update (self : DisplayContext) : option DisplayContext :=
  '(formats, formats_default) ←
    _formats_dict (precision self) (commas self) (signs self);
  '(formats_max, formats_max_default) ←
    _formats_dict (precision_max self) (commas self) (signs self);
  Some (mkDisplayContext (commas self) (signs self) (precision self)
          (precision_max self) formats formats_max formats_default
          formats_max_default).

(** [DisplayContext()]; the two default formats are first set by the
    [update] of line 94. *)
Definition __init__ : option DisplayContext :=
  update (mkDisplayContext false true {[None := FULL_PRECISION]}
            {[None := FULL_PRECISION]} ∅ ∅ EmptyString EmptyString).

Definition set_commas (self : DisplayContext) (commas : bool)
    (update_ : bool) : option DisplayContext :=
  let self := mkDisplayContext commas (signs self) (precision self)
                (precision_max self) (formats self) (formats_max self)
                (formats_default self) (formats_max_default self) in
  if update_ then update self else Some self.

(** [set_precision]; the precision is an [int] by its type, so the
    assertion of line 122 holds. *)
Definition set_precision (self : DisplayContext) (precision_ : Z)
    (currency : option string) (update_ : bool) : option DisplayContext :=
  let self := mkDisplayContext (commas self) (signs self)
                (<[currency := Digits precision_]> (precision self))
                (precision_max self) (formats self) (formats_max self)
                (formats_default self) (formats_max_default self) in
  if update_ then update self else Some self.

Definition set_precision_max (self : DisplayContext) (precision_ : Z)
    (currency : option string) (update_ : bool) : option DisplayContext :=
  let self := mkDisplayContext (commas self) (signs self) (precision self)
                (<[currency := Digits precision_]> (precision_max self))
                (formats self) (formats_max self)
                (formats_default self) (formats_max_default self) in
  if update_ then update self else Some self.

Section format.
(** [fmt.format(number)] of Python's strings, which raises [ValueError] on
    a format specification it cannot read. *)
Context {Number : Type}.
Variable str_format : string → Number → outcome string.

(** [DisplayContext.format], also [__call__]. *)
Definition format (self : DisplayContext) (number : Number)
    (currency : option string) : outcome string :=
  let fmt := default (formats_default self) (formats self !! currency) in
  str_format fmt number.

Definition format_max (self : DisplayContext) (number : Number)
    (currency : option string) : outcome string :=
  let fmt :=
    default (formats_max_default self) (formats_max self !! currency) in
  str_format fmt number.

End format.
End DisplayContext.

(** ** The builder *)

(** A finite [Decimal] as [number.as_tuple()] gives it: a sign, the digits
    of the coefficient and the exponent. *)
Record DecimalTuple := mkDecimalTuple {
  sign : bool;
  digits : list nat;
  exponent : Z
}.

(** [len(num_tuple.digits) + num_tuple.exponent] (line 48). *)
Definition num_int_digits (num_tuple : DecimalTuple) : Z :=
  Z.of_nat (length (digits num_tuple)) + exponent num_tuple.

Module DisplayContextBuilder.
Section builder.
(** [misc_utils.Distribution] (beancount.utils is not part of the sources),
    with its constructor and its methods [update], [mode] and [min]. *)
Context {Distribution : Type}.
Variable Distribution_new : Distribution.
Variable Distribution_update : Distribution → Z → Distribution.
Variable Distribution_mode : Distribution → Z.
Variable Distribution_min : Distribution → Z.

Record BuilderCurrencyInfo := mkBuilderCurrencyInfo {
  precision_dist : Distribution;
  max_int_digits : Z
}.

(** [self.builder_infos[currency]]: the attribute is a [defaultdict], which
    makes the info of a currency when it is first looked up. *)
Definition builder_infos_get
    (builder_infos : gmap (option string) BuilderCurrencyInfo)
    (currency : option string) : BuilderCurrencyInfo :=
  default (mkBuilderCurrencyInfo Distribution_new 1)
          (builder_infos !! currency).

(** [DisplayContextBuilder.update], on the attribute [builder_infos]; the
    number is given as its [as_tuple()]. *)
Definition update
    (builder_infos : gmap (option string) BuilderCurrencyInfo)
    (num_tuple : DecimalTuple) (currency : option string)
  : gmap (option string) BuilderCurrencyInfo :=
  let cinfo := builder_infos_get builder_infos currency in
  let precision_dist :=
    Distribution_update (precision_dist cinfo) (exponent num_tuple) in
  <[currency := mkBuilderCurrencyInfo precision_dist
                  (Z.max (max_int_digits cinfo) (num_int_digits num_tuple))]>
    builder_infos.

(** The body of the loop of [build] (lines 58-61). *)
Definition build_step (dcontext : option DisplayContext)
    (item : option string * BuilderCurrencyInfo) : option DisplayContext :=
  let '(currency, cinfo) := item in
  let dist := precision_dist cinfo in
  dcontext ← dcontext;
  dcontext ← DisplayContext.set_precision dcontext
                (- Distribution_mode dist) currency false;
  DisplayContext.set_precision_max dcontext (- Distribution_min dist)
    currency false.

(** [DisplayContextBuilder.build]. *)
Definition build (builder_infos : gmap (option string) BuilderCurrencyInfo)
  : option DisplayContext :=
  dcontext ← foldl build_step DisplayContext.__init__
                (map_to_list builder_infos);
  DisplayContext.update dcontext.

End builder.
End DisplayContextBuilder.

(** ** Vocabulary for the display context *)

(** The contexts a program can hold: made by the constructor and changed by
    the methods. *)
Inductive constructed : DisplayContext → Prop :=
  | constructed_init dc :
      DisplayContext.__init__ = Some dc → constructed dc
  | constructed_update dc dc' :
      constructed dc → DisplayContext.update dc = Some dc' → constructed dc'
  | constructed_set_commas dc dc' commas update_ :
      constructed dc →
      DisplayContext.set_commas dc commas update_ = Some dc' →
      constructed dc'
  | constructed_set_precision dc dc' precision currency update_ :
      constructed dc →
      DisplayContext.set_precision dc precision currency update_ = Some dc' →
      constructed dc'
  | constructed_set_precision_max dc dc' precision currency update_ :
      constructed dc →
      DisplayContext.set_precision_max dc precision currency update_
        = Some dc' →
      constructed dc'.

(** The precision that applies to a currency: its own when it has one, the
    default one otherwise. *)
Definition precision_for (precision_dict : gmap (option string) Precision)
    (currency : option string) : Precision :=
  default (default FULL_PRECISION (precision_dict !! None))
          (precision_dict !! currency).

(** The numbers given to a builder for one currency, in order. *)
Definition numbers_of (currency : option string)
    (numbers : list (DecimalTuple * option string)) : list DecimalTuple :=
  (filter (λ item, item.2 = currency) numbers).*1.

(** The default precisions are set and the default formats are those of the
    key [None]. *)
Definition has_defaults (dc : DisplayContext) : Prop :=
  is_Some (precision dc !! None) ∧ is_Some (precision_max dc !! None) ∧
  formats dc !! None = Some (formats_default dc) ∧
  formats_max dc !! None = Some (formats_max_default dc).

(** A builder given the numbers of a list, one after the other. *)
Definition builder_updates {Distribution : Type}
    (Distribution_new : Distribution)
    (Distribution_update : Distribution → Z → Distribution)
    (builder_infos :
       gmap (option string)
            (DisplayContextBuilder.BuilderCurrencyInfo
               (Distribution := Distribution)))
    (numbers : list (DecimalTuple * option string))
  : gmap (option string) DisplayContextBuilder.BuilderCurrencyInfo :=
  foldl (λ builder_infos '(num_tuple, currency),
           DisplayContextBuilder.update Distribution_new Distribution_update
             builder_infos num_tuple currency)
        builder_infos numbers.

(** * Facts about the classifier *)

Section classifier_facts.
Variable re_match : string → bool.
Variable is_income_statement_account : string → bool.

Local Notation classify_posting :=
  (classify_posting re_match is_income_statement_account).
Local Notation find_matching_step :=
  (find_matching_step re_match is_income_statement_account).
Local Notation find_matching :=
  (find_matching re_match is_income_statement_account).
Local Notation any_match := (any_match re_match).
Local Notation is_matching := (is_matching re_match).
Local Notation posted_in_matching := (posted_in_matching re_match).

Lemma posted_cons (p : Posting) postings a :
  (∃ q, q ∈ p :: postings ∧ account q = a) ↔
  account p = a ∨ ∃ q, q ∈ postings ∧ account q = a.
Proof. setoid_rewrite elem_of_cons. naive_solver. Qed.

Lemma classify_postings_spec postings : ∀ sets a,
  let sets' := foldl classify_posting sets postings in
  (a ∈ assets sets' ↔
     a ∈ assets sets ∨
     ((∃ p, p ∈ postings ∧ account p = a) ∧
      re_match a = true ∧ is_income_statement_account a = false)) ∧
  (a ∈ internal_flows sets' ↔
     a ∈ internal_flows sets ∨
     ((∃ p, p ∈ postings ∧ account p = a) ∧
      re_match a = true ∧ is_income_statement_account a = true)) ∧
  (a ∈ external_flows sets' ↔
     a ∈ external_flows sets ∨
     ((∃ p, p ∈ postings ∧ account p = a) ∧ re_match a = false)).
Proof.
  induction postings as [|p postings IH]; intros sets a; simpl.
  - setoid_rewrite elem_of_nil. naive_solver.
  - destruct (IH (classify_posting sets p) a) as (IHa & IHi & IHe).
    rewrite IHa, IHi, IHe. clear IH IHa IHi IHe.
    rewrite !posted_cons. unfold classify_posting.
    destruct (re_match (account p)) eqn:Hm;
      [destruct (is_income_statement_account (account p)) eqn:Hi|]; simpl;
      rewrite ?elem_of_union, ?elem_of_singleton;
      intuition (subst; congruence).
Qed.

Lemma posted_in_matching_cons e entries a :
  posted_in_matching (e :: entries) a ↔
    (is_matching e = true ∧ ∃ p, p ∈ postings_of e ∧ account p = a) ∨
    posted_in_matching entries a.
Proof.
  unfold posted_in_matching. setoid_rewrite elem_of_cons. naive_solver.
Qed.

Lemma find_matching_fold_spec entries : ∀ acc a,
  let res := foldl find_matching_step acc entries in
  res.1 = acc.1 ++ filter (λ e, is_matching e = true) entries ∧
  (a ∈ assets res.2 ↔
     a ∈ assets acc.2 ∨
     (posted_in_matching entries a ∧
      re_match a = true ∧ is_income_statement_account a = false)) ∧
  (a ∈ internal_flows res.2 ↔
     a ∈ internal_flows acc.2 ∨
     (posted_in_matching entries a ∧
      re_match a = true ∧ is_income_statement_account a = true)) ∧
  (a ∈ external_flows res.2 ↔
     a ∈ external_flows acc.2 ∨
     (posted_in_matching entries a ∧ re_match a = false)).
Proof.
  induction entries as [|e entries IH]; intros acc a; simpl.
  - rewrite app_nil_r. unfold posted_in_matching.
    setoid_rewrite elem_of_nil. naive_solver.
  - destruct (IH (find_matching_step acc e) a) as (IHm & IHa & IHi & IHe).
    rewrite IHm, IHa, IHi, IHe. clear IH IHm IHa IHi IHe.
    rewrite filter_cons, !posted_in_matching_cons.
    destruct e as [d ps|d accs]; simpl.
    + destruct (any_match ps) eqn:Hany; simpl.
      * destruct (classify_postings_spec ps (acc.2) a) as (Ha & Hi & He).
        simpl in Ha, Hi, He. rewrite Ha, Hi, He.
        rewrite <- app_assoc. simpl.
        split; [done|]. tauto.
      * split; [done|]. intuition congruence.
    + split; [done|]. intuition congruence.
Qed.

Lemma find_matching_spec entries a :
  let '(matching_entries, sets) := find_matching entries in
  matching_entries = filter (λ e, is_matching e = true) entries ∧
  (a ∈ assets sets ↔
     posted_in_matching entries a ∧
     re_match a = true ∧ is_income_statement_account a = false) ∧
  (a ∈ internal_flows sets ↔
     posted_in_matching entries a ∧
     re_match a = true ∧ is_income_statement_account a = true) ∧
  (a ∈ external_flows sets ↔
     posted_in_matching entries a ∧ re_match a = false).
Proof.
  unfold find_matching.
  pose proof (find_matching_fold_spec entries
                ([], mkAccountSets ∅ ∅ ∅) a) as H.
  destruct (foldl find_matching_step _ entries) as [m sets].
  simpl in H. destruct H as (Hm & Ha & Hi & He).
  rewrite Hm, Ha, Hi, He. set_solver.
Qed.

End classifier_facts.

(** * Facts about the segmenter *)

Lemma contiguous_from_app {B} (ps qs : list (Period B)) : ∀ d,
  contiguous_from d (ps ++ qs) ↔
  contiguous_from d ps ∧ contiguous_from (last_end d ps) qs.
Proof.
  induction ps as [|p ps IH]; intros d; simpl.
  - unfold last_end; simpl. tauto.
  - rewrite IH. unfold last_end; simpl. tauto.
Qed.

Lemma last_end_app {B} (ps qs : list (Period B)) d :
  last_end d (ps ++ qs) = last_end (last_end d ps) qs.
Proof. unfold last_end. by rewrite foldl_app. Qed.

Lemma last_end_last {B} (ps : list (Period B)) d :
  last_end d ps = default d (period_end <$> last ps).
Proof.
  destruct ps as [|p ps _] using rev_ind; [done|].
  unfold last_end. by rewrite foldl_app, last_snoc.
Qed.

(** Contiguity, index by index. *)
Lemma contiguous_from_lookup {B} (ps : list (Period B)) : ∀ d,
  contiguous_from d ps →
  ∀ i p q, ps !! i = Some p → ps !! S i = Some q →
           period_end p = period_begin q.
Proof.
  induction ps as [|p0 ps IH]; intros d Hc i p q Hp Hq; [done|].
  destruct Hc as [_ Hc]. destruct i as [|i]; simpl in *.
  - destruct ps as [|p1 ps]; simplify_eq/=. by destruct Hc.
  - eauto.
Qed.

Lemma last_entry_cons entry e iter_entries :
  last_entry entry (e :: iter_entries) = last_entry e iter_entries.
Proof. done. Qed.

Lemma last_entry_last entry iter_entries :
  last (entry :: iter_entries) = Some (last_entry entry iter_entries).
Proof.
  revert entry. induction iter_entries as [|e it IH]; intros entry; [done|].
  rewrite last_entry_cons, <- IH. done.
Qed.

Section segmenter_facts.
Context {M B : Type} {mem : Memory M B}.
Variables accounts_assets accounts_intflows : gset string.
Variables date_begin date_end : option date.

Local Notation inner_loop := (inner_loop accounts_assets accounts_intflows date_end).
Local Notation main_loop := (main_loop accounts_assets accounts_intflows date_end).
Local Notation skip_entries := (skip_entries accounts_assets date_end).
Local Notation is_external_flow_entry :=
  (is_external_flow_entry accounts_assets accounts_intflows).
Local Notation closing_date := (closing_date date_end).
Local Notation final_date := (final_date date_begin date_end).

Lemma inner_loop_exit iter_entries : ∀ entry (balance : B) (m : M),
  let x := inner_loop iter_entries entry balance m in
  if ie_done x then ie_period_end x = closing_date entry iter_entries
  else is_external_flow_entry (ie_entry x) = true ∧
       ie_period_end x = entry_date (ie_entry x) ∧
       last_entry (ie_entry x) (ie_iter x) = last_entry entry iter_entries ∧
       (length (ie_iter x) ≤ length iter_entries)%nat.
Proof.
  unfold closing_date.
  induction iter_entries as [|e it IH]; intros entry balance m; simpl.
  - destruct (is_external_flow_entry entry) eqn:Hext; simpl; [done|].
    unfold at_or_after_end.
    destruct date_end as [de|]; simpl.
    + case_bool_decide; simpl; [done|].
      by destruct (sum_balances_for_accounts _ _ _ _).
    + by destruct (sum_balances_for_accounts _ _ _ _).
  - destruct (is_external_flow_entry entry) eqn:Hext; simpl.
    { split_and!; try done. }
    destruct (at_or_after_end date_end (entry_date entry)) eqn:Hend; simpl.
    { unfold at_or_after_end in Hend. by destruct date_end. }
    destruct (sum_balances_for_accounts _ _ _ _) as [balance' m'].
    specialize (IH e balance' m'). simpl in IH.
    destruct (ie_done _); [done|].
    destruct IH as (? & ? & ? & ?). split_and!; try done. lia.
Qed.

Lemma main_loop_periods fuel : ∀ iter_entries entry (balance : B) (m : M)
    period_begin periods r,
  main_loop fuel iter_entries entry balance m period_begin periods = Some r →
  ∃ new m', r = Returns (periods ++ new, m') ∧ new ≠ [] ∧
    contiguous_from period_begin new ∧
    last_end period_begin new = closing_date entry iter_entries.
Proof.
  induction fuel as [|fuel IH]; intros it entry balance m pb periods r; [done|].
  simpl. destruct (copy_inventory m balance) as [bb m1].
  pose proof (inner_loop_exit it entry balance m1) as Hx. simpl in Hx.
  destruct (inner_loop it entry balance m1) as [pe dn e1 it1 bal1 m2].
  simpl in *. destruct (copy_inventory m2 bal1) as [be m3].
  destruct dn; simpl.
  - intros [= <-]. eexists [_], _. split_and!; done.
  - destruct Hx as (Hext & Hpe & Hlast & Hlen). rewrite Hext. simpl.
    destruct (sum_balances_for_accounts _ _ _ _) as [bal2 m4].
    destruct it1 as [|e2 it2].
    + unfold closing_date in *. rewrite <- Hlast.
      destruct date_end as [de|]; intros [= <-].
      * eexists [_; _], _. rewrite <- app_assoc. split_and!; done.
      * eexists [_], _. split_and!; done.
    + intros Hrec. apply IH in Hrec as (new & m' & -> & Hne & Hc & Hl).
      eexists (_ :: new), m'. rewrite <- app_assoc. simpl.
      split_and!; try done.
      unfold last_end in *. simpl. rewrite Hl. unfold closing_date.
      by rewrite <- Hlast, last_entry_cons.
Qed.

Lemma main_loop_fuel fuel : ∀ iter_entries entry (balance : B) (m : M)
    period_begin periods,
  (length iter_entries < fuel)%nat →
  is_Some (main_loop fuel iter_entries entry balance m period_begin periods).
Proof.
  induction fuel as [|fuel IH]; intros it entry balance m pb periods Hf; [lia|].
  simpl. destruct (copy_inventory m balance) as [bb m1].
  pose proof (inner_loop_exit it entry balance m1) as Hx. simpl in Hx.
  destruct (inner_loop it entry balance m1) as [pe dn e1 it1 bal1 m2].
  simpl in *. destruct (copy_inventory m2 bal1) as [be m3].
  destruct dn; simpl; [done|].
  destruct Hx as (Hext & Hpe & Hlast & Hlen). rewrite Hext. simpl.
  destruct (sum_balances_for_accounts _ _ _ _) as [bal2 m4].
  destruct it1 as [|e2 it2]; [by destruct date_end|].
  apply IH. simpl in Hlen. lia.
Qed.

Lemma skip_entries_inr db iter_entries : ∀ entry (balance : B) (m : M)
    e1 it1 b1 m1,
  skip_entries db iter_entries entry balance m = inr (e1, it1, b1, m1) →
  last_entry e1 it1 = last_entry entry iter_entries ∧
  (length it1 ≤ length iter_entries)%nat ∧
  e1 ∈ entry :: iter_entries ∧
  (db ≤ entry_date e1 ∨ at_or_after_end date_end (entry_date e1) = true).
Proof.
  induction iter_entries as [|e it IH]; intros entry balance m e1 it1 b1 m1;
    simpl.
  - case_bool_decide.
    { intros [= <- <- <- <-]. split_and!; [done|done|by left|by left]. }
    destruct (at_or_after_end date_end _) eqn:Hend.
    { intros [= <- <- <- <-]. split_and!; [done|done|by left|by right]. }
    by destruct (sum_balances_for_accounts _ _ _ _).
  - case_bool_decide.
    { intros [= <- <- <- <-]. split_and!; [done|done|by left|by left]. }
    destruct (at_or_after_end date_end _) eqn:Hend.
    { intros [= <- <- <- <-]. split_and!; [done|done|by left|by right]. }
    destruct (sum_balances_for_accounts _ _ _ _) as [balance' m'].
    intros Hs. apply IH in Hs as (? & ? & ? & ?).
    split_and!; [done|lia|by right|done].
Qed.

Lemma skip_entries_inl db iter_entries : ∀ entry (balance : B) (m : M) r,
  skip_entries db iter_entries entry balance m = inl r →
  Forall (λ e, entry_date e < db) (entry :: iter_entries).
Proof.
  induction iter_entries as [|e it IH]; intros entry balance m r; simpl.
  - case_bool_decide; [done|].
    destruct (at_or_after_end date_end _); [done|].
    destruct (sum_balances_for_accounts _ _ _ _).
    intros _. apply Forall_singleton. lia.
  - case_bool_decide; [done|].
    destruct (at_or_after_end date_end _); [done|].
    destruct (sum_balances_for_accounts _ _ _ _) as [balance' m'].
    intros Hs. apply IH in Hs. apply Forall_cons. split; [lia|done].
Qed.

Lemma skip_entries_all_before db iter_entries : ∀ entry (balance : B) (m : M),
  (∀ de, date_end = Some de → db < de) →
  Forall (λ e, entry_date e < db) (entry :: iter_entries) →
  ∃ r, skip_entries db iter_entries entry balance m = inl r.
Proof.
  intros entry balance m Hord.
  assert (Hend : ∀ d, d < db → at_or_after_end date_end d = false).
  { intros d Hd. unfold at_or_after_end. destruct date_end as [de|]; [|done].
    specialize (Hord de eq_refl). case_bool_decide; [lia|done]. }
  revert entry balance m.
  induction iter_entries as [|e it IH]; intros entry balance m Hall; simpl;
    apply Forall_cons in Hall as [Hd Hall];
    rewrite bool_decide_eq_false_2 by lia; rewrite Hend by done;
    destruct (sum_balances_for_accounts _ _ _ _) as [balance' m']; eauto.
Qed.

Lemma dates_ordered db :
  dates_misordered date_begin date_end = false → date_begin = Some db →
  ∀ de, date_end = Some de → db < de.
Proof.
  unfold dates_misordered. intros Hm -> de ->.
  apply bool_decide_eq_false in Hm. lia.
Qed.

Lemma segment_periods_dates entries entry iter_entries :
  dates_misordered date_begin date_end = false →
  filter (λ e, is_asset_entry accounts_assets e = true) entries =
    entry :: iter_entries →
  ∃ (periods : list (Period B)) (m : M),
    segment_periods accounts_assets accounts_intflows date_begin date_end
      entries = Some (Returns (periods, m)) ∧
    periods ≠ [] ∧
    contiguous_from (default (entry_date entry) date_begin) periods ∧
    last_end (default (entry_date entry) date_begin) periods =
      final_date entry iter_entries.
Proof.
  intros Hmis Hfilter. unfold segment_periods, final_date.
  rewrite Hmis, Hfilter.
  destruct (new_inventory mem_empty) as [balance m0].
  destruct date_begin as [db|] eqn:Hdb; cbn [default id].
  - destruct (skip_entries db iter_entries entry balance m0)
      as [[b1 m1]|[[[e1 it1] b1] m1]] eqn:Hskip.
    + apply skip_entries_inl in Hskip.
      eexists [_], m1. split_and!; try done.
      unfold last_end; simpl. destruct date_end; [done|].
      by rewrite decide_True.
    + apply skip_entries_inr in Hskip as (Hlast & Hlen & Hin & Hdate).
      destruct (main_loop_fuel (S (length it1)) it1 e1 b1 m1 db [])
        as [r Hr]; [lia|].
      rewrite Hr.
      apply main_loop_periods in Hr as (new & m' & -> & Hne & Hc & Hl).
      exists new, m'. split_and!; try done. rewrite Hl.
      unfold closing_date. destruct date_end as [de|] eqn:Hde; [done|].
      rewrite decide_False; [by rewrite Hlast|].
      intros Hall. unfold all_before in Hall.
      rewrite Forall_forall in Hall. apply Hall in Hin.
      destruct Hdate as [?|[=]]; lia.
  - destruct (main_loop_fuel (S (length iter_entries)) iter_entries entry
                balance m0 (entry_date entry) []) as [r Hr]; [lia|].
    rewrite Hr.
    apply main_loop_periods in Hr as (new & m' & -> & Hne & Hc & Hl).
    exists new, m'. split_and!; done.
Qed.

Lemma segment_periods_all_before entries entry iter_entries db :
  dates_misordered date_begin date_end = false →
  date_begin = Some db →
  filter (λ e, is_asset_entry accounts_assets e = true) entries =
    entry :: iter_entries →
  all_before db (entry :: iter_entries) →
  ∃ (balance : B) (m : M),
    segment_periods accounts_assets accounts_intflows date_begin date_end
      entries =
    Some (Returns ([mkPeriod db (default db date_end) balance balance], m)).
Proof.
  intros Hmis Hdb Hfilter Hall. unfold segment_periods.
  rewrite Hmis, Hfilter.
  destruct (new_inventory mem_empty) as [balance m0]. rewrite Hdb.
  destruct (skip_entries_all_before db iter_entries entry balance m0)
    as [[b1 m1] Hs]; [by eapply dates_ordered|done|].
  rewrite Hs. eauto.
Qed.

Lemma segment_periods_no_asset_entry entries :
  dates_misordered date_begin date_end = false →
  filter (λ e, is_asset_entry accounts_assets e = true) entries = [] →
  segment_periods (M := M) accounts_assets accounts_intflows date_begin
    date_end entries = Some (Raises StopIteration).
Proof. intros Hmis Hfilter. unfold segment_periods. by rewrite Hmis, Hfilter. Qed.

(** [segment_periods] always ends: the passes given to the main loop are
    enough. *)
Lemma segment_periods_total entries :
  is_Some (segment_periods (M := M) accounts_assets accounts_intflows
             date_begin date_end entries).
Proof.
  destruct (dates_misordered date_begin date_end) eqn:Hmis.
  { unfold segment_periods. by rewrite Hmis. }
  destruct (filter (λ e, is_asset_entry accounts_assets e = true) entries)
    as [|entry it] eqn:Hfilter.
  - by rewrite segment_periods_no_asset_entry.
  - destruct (segment_periods_dates entries entry it Hmis Hfilter)
      as (periods & m & -> & _). done.
Qed.

End segmenter_facts.

(** * Facts about the return calculator, the annualizer and the
    aggregator *)

(** A dict filled by [for k in keys: d[k] = f(k)]. *)
Lemma lookup_fold_insert {A} (f : string → A) (keys : list string) :
  ∀ (d : gmap string A) k,
  foldl (λ d k, <[k := f k]> d) d keys !! k =
  if decide (k ∈ keys) then Some (f k) else d !! k.
Proof.
  induction keys as [|k0 keys IH]; intros d k; simpl; [done|].
  rewrite IH.
  destruct (decide (k ∈ keys)) as [Hin|Hnin],
           (decide (k ∈ k0 :: keys)) as [Hin'|Hnin']; try done.
  - exfalso. apply Hnin'. by right.
  - apply elem_of_cons in Hin' as [->|?]; [|done]. by rewrite lookup_insert_eq.
  - rewrite lookup_insert_ne; [done|]. intros ->. apply Hnin'. by left.
Qed.

Lemma get_positions_lots (inv : gmap Lot Qc) :
  lot <$> get_positions inv = (map_to_list inv).*1.
Proof.
  unfold get_positions. rewrite <- list_fmap_compose.
  by apply list_fmap_ext.
Qed.

Lemma elem_of_get_positions (inv : gmap Lot Qc) pos :
  pos ∈ get_positions inv ↔ inv !! lot pos = Some (number pos).
Proof.
  unfold get_positions. rewrite list_elem_of_fmap. split.
  - intros ([k v] & -> & Hin). by apply elem_of_map_to_list in Hin.
  - intros Hl. exists (lot pos, number pos). split; [by destruct pos|].
    by apply elem_of_map_to_list.
Qed.

Lemma collect_positions_fold positions : ∀ currencies single,
  NoDup (lot <$> positions) →
  (∀ pos, pos ∈ positions → lot_cost (lot pos) = None →
          single !! lot_currency (lot pos) = None) →
  ∃ currencies' single',
    foldl collect_position (Returns (currencies, single)) positions =
      Returns (currencies', single') ∧
    (∀ c, c ∈ currencies' ↔
          c ∈ currencies ∨ ∃ n, mkPosition (mkLot c None) n ∈ positions) ∧
    (∀ c n, single' !! c = Some n ↔
            single !! c = Some n ∨ mkPosition (mkLot c None) n ∈ positions).
Proof.
  induction positions as [|pos ps IH]; intros currencies single Hnd Hfree.
  { exists currencies, single. simpl. split_and!; [done|..].
    - intros c. split; [by left|]. intros [?|[n Hn]]; [done|].
      by apply elem_of_nil in Hn.
    - intros c n. split; [by left|]. intros [?|Hn]; [done|].
      by apply elem_of_nil in Hn. }
  rewrite fmap_cons in Hnd. apply NoDup_cons in Hnd as [Hnin Hnd].
  simpl. destruct pos as [[c0 cost] n0]. simpl in *.
  destruct cost as [cost|].
  - destruct (IH currencies single Hnd) as (cs' & sg' & Hfold & Hcs & Hsg).
    { intros pos Hin. apply Hfree. by right. }
    exists cs', sg'. split; [done|]. split.
    + intros c. rewrite Hcs. setoid_rewrite elem_of_cons.
      split; [naive_solver|]. intros [?|[n [[=]|?]]]; eauto.
    + intros c n. rewrite Hsg. rewrite elem_of_cons.
      split; [naive_solver|]. intros [?|[[=]|?]]; eauto.
  - assert (Hnone : single !! c0 = None).
    { apply (Hfree (mkPosition (mkLot c0 None) n0)); [by left|done]. }
    rewrite decide_False by (rewrite Hnone; by intros [? [=]]).
    destruct (IH ({[c0]} ∪ currencies) (<[c0 := n0]> single) Hnd)
      as (cs' & sg' & Hfold & Hcs & Hsg).
    { intros pos Hin Hcost.
      destruct (decide (lot_currency (lot pos) = c0)) as [Heq|Hne].
      - exfalso. apply Hnin. apply list_elem_of_fmap. exists pos.
        split; [|done]. destruct pos as [[c1 cost1] n1]. simpl in *.
        by subst.
      - rewrite lookup_insert_ne by done. apply Hfree; [by right|done]. }
    exists cs', sg'. split; [done|]. split.
    + intros c. rewrite Hcs, elem_of_union, elem_of_singleton.
      setoid_rewrite elem_of_cons. split.
      * intros [[->|?]|[n ?]]; eauto.
      * intros [?|[n [[= -> ->]|?]]]; eauto.
    + intros c n. rewrite Hsg, elem_of_cons.
      destruct (decide (c = c0)) as [->|Hne].
      * rewrite lookup_insert_eq, Hnone. split.
        -- intros [[= ->]|?]; eauto.
        -- intros [[=]|[[= ->]|?]]; eauto.
      * rewrite lookup_insert_ne by done. split; [naive_solver|].
        intros [?|[[=]|?]]; eauto. congruence.
Qed.

Lemma collect_positions_inventory (currencies : gset string)
    (inv : gmap Lot Qc) :
  ∃ currencies' single,
    collect_positions currencies (get_positions inv) =
      Returns (currencies', single) ∧
    (∀ c, c ∈ currencies' ↔ c ∈ currencies ∨ is_Some (plain_amount inv c)) ∧
    (∀ c, single !! c = plain_amount inv c).
Proof.
  unfold collect_positions, plain_amount.
  destruct (collect_positions_fold (get_positions inv) currencies ∅)
    as (cs' & sg' & Hfold & Hcs & Hsg).
  { rewrite get_positions_lots. apply NoDup_fst_map_to_list. }
  { intros. apply lookup_empty. }
  exists cs', sg'. split; [done|]. split.
  - intros c. rewrite Hcs. setoid_rewrite elem_of_get_positions. done.
  - intros c. apply option_eq. intros n. rewrite Hsg, lookup_empty.
    rewrite elem_of_get_positions. simpl. naive_solver.
Qed.

Section annualizer_facts.
Context {F : Type} `{!FloatOps F}.

Lemma some_return_not_one_spec (returns : gmap string F) :
  some_return_not_one returns = true ↔
  ∃ c r, returns !! c = Some r ∧ f_eqb r f_one = false.
Proof.
  unfold some_return_not_one. rewrite existsb_exists. split.
  - intros ([c r] & Hin & Hne). exists c, r.
    apply list_elem_of_In, elem_of_map_to_list in Hin.
    split; [done|]. simpl in Hne. by destruct (f_eqb r f_one).
  - intros (c & r & Hl & Hne). exists (c, r). split.
    + by apply list_elem_of_In, elem_of_map_to_list.
    + simpl. by rewrite Hne.
Qed.

Lemma pow_items_returns items exponent : ∀ rest,
  pow_items items exponent = Returns rest →
  rest.*1 = items.*1 ∧
  ∀ c v, (c, v) ∈ rest ↔ ∃ r, (c, r) ∈ items ∧ f_pow r exponent = Some v.
Proof.
  induction items as [|[c0 r0] items IH]; intros rest; simpl.
  - intros [= <-]. split; [done|]. intros c v.
    setoid_rewrite elem_of_nil. naive_solver.
  - destruct (f_pow r0 exponent) as [v0|] eqn:Hpow; [|done].
    destruct (pow_items items exponent) as [rest0|]; [|done].
    intros [= <-]. destruct (IH rest0 eq_refl) as [IH1 IH2].
    split; [rewrite !fmap_cons; simpl; by f_equal|].
    intros c v. rewrite elem_of_cons, IH2.
    setoid_rewrite elem_of_cons. split.
    + intros [[= -> ->]|(r & ? & ?)]; eauto.
    + intros (r & [[= -> ->]|?] & ?); [left; congruence|eauto].
Qed.

Lemma pow_items_raises items exponent e :
  pow_items items exponent = Raises e →
  e = ArithmeticError ∧ ∃ c r, (c, r) ∈ items ∧ f_pow r exponent = None.
Proof.
  induction items as [|[c0 r0] items IH]; simpl; [done|].
  destruct (f_pow r0 exponent) as [v0|] eqn:Hpow.
  - destruct (pow_items items exponent) as [rest0|e0]; [done|].
    intros [= <-]. destruct (IH eq_refl) as (-> & c & r & Hin & Hp).
    split; [done|]. exists c, r. split; [by right|done].
  - intros [= <-]. split; [done|]. exists c0, r0. split; [by left|done].
Qed.

Lemma pow_dict_lookup (returns : gmap string F) exponent rest c :
  pow_items (map_to_list returns) exponent = Returns rest →
  (list_to_map rest : gmap string F) !! c =
  returns !! c ≫= λ r, f_pow r exponent.
Proof.
  intros Hp. apply pow_items_returns in Hp as [Hfst Hin].
  apply option_eq. intros v.
  rewrite <- elem_of_list_to_map
    by (rewrite Hfst; apply NoDup_fst_map_to_list).
  rewrite Hin, bind_Some. by setoid_rewrite elem_of_map_to_list.
Qed.

Lemma annualize_returns_exponent (returns : gmap string F) d1 d2 :
  annualize_returns returns d1 d2 =
  if decide (d2 - d1 = 0) then
    if some_return_not_one returns then Raises ValueError
    else items ← pow_items (map_to_list returns) f_one;
         Returns (list_to_map items)
  else items ← pow_items (map_to_list returns) (f_365_div (d2 - d1));
       Returns (list_to_map items).
Proof.
  unfold annualize_returns. simpl.
  destruct (decide (d2 - d1 = 0)); [|done].
  by destruct (some_return_not_one returns).
Qed.

Lemma annualize_returns_value (returns : gmap string F) d1 d2 res c :
  annualize_returns returns d1 d2 = Returns res →
  res !! c = returns !! c ≫= λ r, f_pow r (annual_exponent d1 d2).
Proof.
  rewrite annualize_returns_exponent. unfold annual_exponent.
  destruct (decide (d2 - d1 = 0)).
  - destruct (some_return_not_one returns); [done|].
    destruct (pow_items _ f_one) as [rest|] eqn:Hp; [|done].
    intros [= <-]. by apply pow_dict_lookup.
  - destruct (pow_items _ (f_365_div _)) as [rest|] eqn:Hp; [|done].
    intros [= <-]. by apply pow_dict_lookup.
Qed.

Lemma annualize_returns_raises (returns : gmap string F) d1 d2 e :
  annualize_returns returns d1 d2 = Raises e →
  (e = ValueError ∧ d2 - d1 = 0 ∧ some_return_not_one returns = true) ∨
  (e = ArithmeticError ∧
   ∃ c r, returns !! c = Some r ∧ f_pow r (annual_exponent d1 d2) = None).
Proof.
  rewrite annualize_returns_exponent. unfold annual_exponent.
  destruct (decide (d2 - d1 = 0)).
  - destruct (some_return_not_one returns) eqn:Hs.
    { intros [= <-]. by left. }
    destruct (pow_items _ f_one) as [rest|e1] eqn:Hp; [done|].
    intros [= <-]. right.
    apply pow_items_raises in Hp as (-> & c & r & Hin & Hpow).
    split; [done|]. exists c, r. by rewrite <- elem_of_map_to_list.
  - destruct (pow_items _ (f_365_div _)) as [rest|e1] eqn:Hp; [done|].
    intros [= <-]. right.
    apply pow_items_raises in Hp as (-> & c & r & Hin & Hpow).
    split; [done|]. exists c, r. by rewrite <- elem_of_map_to_list.
Qed.

Lemma annualize_returns_keys (returns : gmap string F) d1 d2 res c :
  annualize_returns returns d1 d2 = Returns res →
  is_Some (res !! c) ↔ is_Some (returns !! c).
Proof.
  rewrite annualize_returns_exponent. intros Hr.
  assert (∃ exponent rest,
            pow_items (map_to_list returns) exponent = Returns rest ∧
            res = list_to_map rest) as (exponent & rest & Hp & ->).
  { destruct (decide (d2 - d1 = 0)).
    - destruct (some_return_not_one returns); [done|].
      destruct (pow_items _ f_one) as [rest|] eqn:Hp; [|done].
      injection Hr as <-. eauto.
    - destruct (pow_items _ (f_365_div _)) as [rest|] eqn:Hp; [|done].
      injection Hr as <-. eauto. }
  apply pow_items_returns in Hp as [Hfst _].
  rewrite <- !elem_of_dom, dom_list_to_map_L, Hfst.
  by rewrite (dom_alt returns).
Qed.

(** The dict comprehension leaves a dict unchanged when every power does. *)
Lemma pow_items_id items exponent :
  (∀ r, f_pow r exponent = Some r) →
  pow_items items exponent = Returns items.
Proof.
  intros Hid. induction items as [|[c r] items IH]; simpl; [done|].
  by rewrite Hid, IH.
Qed.

Lemma compound_returns_lookup (all_returns : list (gmap string F)) c :
  compound_returns all_returns !! c =
  if decide (c ∈ (⋃ (dom <$> all_returns) : gset string))
  then Some (total_return all_returns c) else None.
Proof.
  unfold compound_returns. rewrite lookup_fold_insert, lookup_empty.
  destruct (decide (c ∈ elements _)) as [Hin|Hnin];
    rewrite elem_of_elements in *;
    [by rewrite decide_True|by rewrite decide_False].
Qed.

Lemma elem_of_currencies (all_returns : list (gmap string F)) c :
  c ∈ (⋃ (dom <$> all_returns) : gset string) ↔
  ∃ returns, returns ∈ all_returns ∧ is_Some (returns !! c).
Proof.
  rewrite elem_of_union_list. setoid_rewrite list_elem_of_fmap. split.
  - intros (X & (r & -> & Hin) & Hc). exists r. by rewrite <- elem_of_dom.
  - intros (r & Hin & Hc). exists (dom r). rewrite elem_of_dom. eauto.
Qed.

End annualizer_facts.

Section aggregator_facts.
Context {F : Type} `{!FloatOps F} {M B : Type} {mem : Memory M B}.
Variable PriceMap : Type.
Variable get_inventory_market_value :
  gmap Lot Qc → date → PriceMap → gmap Lot Qc.

Local Notation returns_of_period :=
  (returns_of_period PriceMap get_inventory_market_value).

Lemma period_loop_returns (m : M) price_map periods : ∀ all_returns,
  period_loop PriceMap get_inventory_market_value m periods price_map =
    Returns all_returns →
  Forall2 (returns_of_period m price_map) periods all_returns.
Proof.
  induction periods as [|p periods IH]; intros all_returns; simpl.
  - intros [= <-]. constructor.
  - destruct (compute_period_returns _ _ _ _ _ _ _) as [[returns mv]|]
      eqn:Hc; [|done]. simpl.
    destruct (if decide (period_end p ≠ period_begin p) then _ else _);
      [|done]. simpl.
    destruct (period_loop _ _ m periods price_map) as [rest|]; [|done].
    intros [= <-]. constructor; [by exists mv|by apply IH].
Qed.

End aggregator_facts.

Lemma exact_pow_one (r : Qc) : exact_pow r 1%Qc = Some r.
Proof.
  unfold exact_pow. simpl. by rewrite Qcmult_1_r.
Qed.

(** * The ledger, segmented

    The two deposits and the withdrawal are external flows and cut the
    timeline; the dividend stays inside the last period, which begins with
    2000 USD and ends with 2100 USD. *)
Example ledger_periods :
  read_result (segment_periods (mem := PyHeap) ledger_assets ledger_intflows
                 None None ledger) =
  Some (Returns
    [mkPeriod 737425 737425 ∅ ∅;
     mkPeriod 737425 737577
       {[mkLot "USD" None := Q2Qc (inject_Z 1000)]}
       {[mkLot "USD" None := Q2Qc (inject_Z 1000)]};
     mkPeriod 737577 737791
       {[mkLot "USD" None := Q2Qc (inject_Z 2000)]}
       {[mkLot "USD" None := Q2Qc (inject_Z 2100)]}]).
Proof.
  lazymatch goal with |- _ = ?r => vm_cast_no_check (eq_refl r) end.
Qed.

(** * The classifier: C5, C6 *)

Lemma is_matching_has_matching_posting (re_match : string → bool) entry :
  is_matching re_match entry = true ↔ has_matching_posting re_match entry.
Proof.
  destruct entry as [d postings|d accounts]; simpl; [|done].
  unfold any_match. rewrite existsb_exists, Exists_exists.
  by setoid_rewrite list_elem_of_In.
Qed.

Lemma posted_in_matching_with_match (re_match : string → bool) entries a :
  posted_in_matching re_match entries a ↔
  posted_with_match re_match entries a.
Proof.
  unfold posted_in_matching, posted_with_match.
  by setoid_rewrite is_matching_has_matching_posting.
Qed.

(** C5: [find_matching] records exactly the transactions with at least one
    posting whose account matches the pattern, in their order; an account is
    in [assets] exactly when it matches, is no income-statement account and
    is posted to in such a transaction, in [internal_flows] exactly when it
    matches, is an income-statement account and is posted to in such a
    transaction, and in [external_flows] exactly when it does not match and
    is posted to in such a transaction. *)
Theorem find_matching_classifies (re_match is_income : string → bool)
    (entries : list Directive) :
  let r := find_matching re_match is_income entries in
  r.1 = filter (has_matching_posting re_match) entries ∧
  ∀ a,
    (a ∈ assets r.2 ↔
       posted_with_match re_match entries a ∧
       re_match a = true ∧ is_income a = false) ∧
    (a ∈ internal_flows r.2 ↔
       posted_with_match re_match entries a ∧
       re_match a = true ∧ is_income a = true) ∧
    (a ∈ external_flows r.2 ↔
       posted_with_match re_match entries a ∧ re_match a = false).
Proof.
  intros r. split.
  - pose proof (find_matching_spec re_match is_income entries "") as Hs.
    subst r. destruct (find_matching _ _ entries) as [m sets].
    destruct Hs as [-> _]. simpl. apply list_filter_iff. intros e.
    apply is_matching_has_matching_posting.
  - intros a.
    pose proof (find_matching_spec re_match is_income entries a) as Hs.
    subst r. destruct (find_matching _ _ entries) as [m sets].
    rewrite <- posted_in_matching_with_match. apply Hs.
Qed.

(** C6: the three account sets [find_matching] returns are pairwise
    disjoint. *)
Theorem find_matching_disjoint (re_match is_income : string → bool)
    (entries : list Directive) :
  let sets := (find_matching re_match is_income entries).2 in
  assets sets ## internal_flows sets ∧
  assets sets ## external_flows sets ∧
  internal_flows sets ## external_flows sets.
Proof.
  intros sets.
  assert (Hs : ∀ a,
    (a ∈ assets sets → re_match a = true ∧ is_income a = false) ∧
    (a ∈ internal_flows sets → re_match a = true ∧ is_income a = true) ∧
    (a ∈ external_flows sets → re_match a = false)).
  { intros a.
    pose proof (find_matching_spec re_match is_income entries a) as Hs.
    subst sets. destruct (find_matching _ _ entries) as [m sets].
    simpl. destruct Hs as (_ & Ha & Hi & He).
    rewrite Ha, Hi, He. tauto. }
  split_and!; intros a H1 H2;
    destruct (Hs a) as (Ha & Hi & He);
    try specialize (Ha H1); try specialize (Hi H1);
    try specialize (Hi H2); try specialize (He H2);
    destruct_and?; congruence.
Qed.

(** * Periods in the order of time *)

Lemma chronological_weaken (d d' : date) stream :
  d ≤ d' → chronological d' stream → chronological d stream.
Proof.
  destruct stream as [|e l]; simpl; [done|]. intros ? [? ?]. split; [lia|done].
Qed.

Lemma chronological_suffix (d : date) (l1 : list Directive) e l2 :
  chronological d (l1 ++ e :: l2) →
  d ≤ entry_date e ∧ chronological (entry_date e) (e :: l2).
Proof.
  revert d. induction l1 as [|e0 l1 IH]; intros d; simpl.
  - intros [? ?]. split_and!; [done|lia|done].
  - intros [? Hc]. apply IH in Hc as [? ?]. split; [lia|done].
Qed.

Section ordered_facts.
Context {M B : Type} {mem : Memory M B}.
Variables accounts_assets accounts_intflows : gset string.
Variable date_end : option date.

Local Abbreviation is_ext :=
  (is_external_flow_entry accounts_assets accounts_intflows).
Local Abbreviation no_flow :=
  (no_flow_past_end accounts_assets accounts_intflows date_end).
Local Abbreviation ordered :=
  (Forall (λ p : Period B, period_begin p ≤ period_end p)).

Lemma no_flow_head e stream de :
  no_flow (e :: stream) → is_ext e = true → date_end = Some de →
  entry_date e ≤ de.
Proof.
  intros Hn He Hde. destruct (decide (entry_date e ≤ de)) as [|Hgt]; [done|].
  assert (Hlt : de < entry_date e) by lia.
  pose proof (Hn de [] e stream Hde eq_refl He Hlt) as Hex.
  by apply Exists_nil in Hex.
Qed.

(** An entry the loop goes past: an external flow entry, or an entry dated
    before [date_end]. *)
Lemma no_flow_tail e stream :
  no_flow (e :: stream) →
  is_ext e = true ∨ at_or_after_end date_end (entry_date e) = false →
  no_flow stream.
Proof.
  intros Hn Hpast de l1 e1 l2 Hde Hs He1 Hlt.
  pose proof (Hn de (e :: l1) e1 l2 Hde) as Hex. rewrite Hs in Hex.
  specialize (Hex eq_refl He1 Hlt).
  apply Exists_cons in Hex as [[Hne Hle]|Hex]; [|done]. exfalso.
  destruct Hpast as [Hx|Hbefore]; [congruence|].
  unfold at_or_after_end in Hbefore. rewrite Hde in Hbefore.
  apply bool_decide_eq_false in Hbefore. lia.
Qed.

Lemma no_flow_suffix skipped stream :
  Forall (λ e, at_or_after_end date_end (entry_date e) = false) skipped →
  no_flow (skipped ++ stream) → no_flow stream.
Proof.
  induction 1 as [|e skipped He _ IH]; simpl; [done|].
  intros Hn. apply IH. apply (no_flow_tail e); [done|by right].
Qed.

Lemma skip_entries_split db iter_entries : ∀ entry (balance : B) (m : M)
    e1 it1 b1 m1,
  skip_entries accounts_assets date_end db iter_entries entry balance m =
    inr (e1, it1, b1, m1) →
  ∃ skipped,
    entry :: iter_entries = skipped ++ e1 :: it1 ∧
    Forall (λ e, at_or_after_end date_end (entry_date e) = false) skipped ∧
    (db ≤ entry_date e1 ∨ at_or_after_end date_end (entry_date e1) = true).
Proof.
  induction iter_entries as [|e it IH]; intros entry balance m e1 it1 b1 m1;
    simpl.
  - case_bool_decide.
    { intros [= <- <- <- <-]. exists []. split_and!; [done|done|by left]. }
    destruct (at_or_after_end date_end (entry_date entry)) eqn:Hend.
    { intros [= <- <- <- <-]. exists []. split_and!; [done|done|by right]. }
    by destruct (sum_balances_for_accounts _ _ _ _).
  - case_bool_decide.
    { intros [= <- <- <- <-]. exists []. split_and!; [done|done|by left]. }
    destruct (at_or_after_end date_end (entry_date entry)) eqn:Hend.
    { intros [= <- <- <- <-]. exists []. split_and!; [done|done|by right]. }
    destruct (sum_balances_for_accounts _ _ _ _) as [b' m'].
    intros Hs. apply IH in Hs as (skipped & Heq & Hall & Hstop).
    exists (entry :: skipped). rewrite Heq. split_and!; [done| |done].
    by constructor.
Qed.

Lemma inner_loop_ordered iter_entries : ∀ entry (balance : B) (m : M) pb,
  chronological pb (entry :: iter_entries) →
  (∀ de, date_end = Some de → pb ≤ de) →
  no_flow (entry :: iter_entries) →
  let x := inner_loop accounts_assets accounts_intflows date_end
             iter_entries entry balance m in
  pb ≤ ie_period_end x ∧
  (∀ de, date_end = Some de → ie_period_end x ≤ de) ∧
  (ie_done x = false →
   is_ext (ie_entry x) = true ∧
   chronological (ie_period_end x) (ie_entry x :: ie_iter x) ∧
   no_flow (ie_entry x :: ie_iter x)).
Proof.
  induction iter_entries as [|e it IH]; intros entry balance m pb
    [Hpb Hc] Hde Hn; simpl.
  - destruct (is_ext entry) eqn:Hx; simpl.
    { split; [done|]. split; [intros de ?; by eapply no_flow_head|].
      intros _. split; [done|]. split; [|done]. split; [lia|done]. }
    destruct (at_or_after_end date_end (entry_date entry)) eqn:Hend; simpl.
    { unfold at_or_after_end in Hend.
      destruct date_end as [de|]; [|done]. simpl.
      split_and!; [by apply Hde|by intros ? [= <-]|done]. }
    destruct (sum_balances_for_accounts _ _ _ _) as [b' m']. simpl.
    destruct date_end as [de|]; simpl.
    + split_and!; [by apply Hde|by intros ? [= <-]|done].
    + split_and!; [done|done|done].
  - destruct (is_ext entry) eqn:Hx; simpl.
    { split; [done|]. split; [intros de ?; by eapply no_flow_head|].
      intros _. split; [done|]. split; [|done]. split; [lia|done]. }
    destruct (at_or_after_end date_end (entry_date entry)) eqn:Hend; simpl.
    { unfold at_or_after_end in Hend.
      destruct date_end as [de|]; [|done]. simpl.
      split_and!; [by apply Hde|by intros ? [= <-]|done]. }
    destruct (sum_balances_for_accounts _ _ _ _) as [b' m'].
    apply IH; [|done|].
    + exact (chronological_weaken pb (entry_date entry) (e :: it) Hpb Hc).
    + apply (no_flow_tail entry); [done|by right].
Qed.

Lemma main_loop_ordered fuel : ∀ iter_entries entry (balance : B) (m : M)
    pb periods ps m',
  chronological pb (entry :: iter_entries) →
  (∀ de, date_end = Some de → pb ≤ de) →
  no_flow (entry :: iter_entries) →
  ordered periods →
  main_loop accounts_assets accounts_intflows date_end fuel iter_entries
    entry balance m pb periods = Some (Returns (ps, m')) →
  ordered ps.
Proof.
  induction fuel as [|fuel IH];
    intros it entry balance m pb periods ps m' Hc Hde Hn Hps; [done|].
  simpl. destruct (copy_inventory m balance) as [bb m0].
  pose proof (inner_loop_ordered it entry balance m0 pb Hc Hde Hn) as Hx.
  simpl in Hx.
  destruct (inner_loop _ _ _ it entry balance m0) as [pe dn e1 it1 b1 m1].
  simpl in *. destruct Hx as (Hle & Hpe & Hrest).
  destruct (copy_inventory m1 b1) as [be m2].
  assert (Hps' : ordered (periods ++ [mkPeriod pb pe bb be])).
  { apply Forall_app. split; [done|]. by apply Forall_singleton. }
  destruct dn; simpl.
  { by intros [= <- <-]. }
  destruct (Hrest eq_refl) as (Hx1 & [Hle1 Hc1] & Hn1).
  rewrite Hx1. simpl.
  destruct (sum_balances_for_accounts _ _ _ _) as [b2 m3].
  destruct it1 as [|e2 it2].
  - destruct date_end as [de|]; intros [= <- <-]; [|done].
    apply Forall_app. split; [done|]. apply Forall_singleton. simpl.
    by apply Hpe.
  - apply IH; [|done| |done].
    + exact (chronological_weaken pe (entry_date e1) (e2 :: it2) Hle1 Hc1).
    + apply (no_flow_tail e1); [done|by left].
Qed.

(** The periods of a stream in the order of its dates, none of whose
    external flow entries is met after [date_end]. *)
Lemma segment_periods_ordered (date_begin : option date)
    (entries : list Directive) entry iter_entries periods m :
  dates_misordered date_begin date_end = false →
  asset_entries accounts_assets entries = entry :: iter_entries →
  chronological (entry_date entry) iter_entries →
  (∀ de, date_end = Some de →
         default (entry_date entry) date_begin ≤ de) →
  no_flow (entry :: iter_entries) →
  segment_periods (M := M) accounts_assets accounts_intflows date_begin
    date_end entries = Some (Returns (periods, m)) →
  ordered periods.
Proof.
  intros Hmis Hf Hc Hfirst Hn. unfold segment_periods.
  unfold asset_entries in Hf. rewrite Hmis, Hf.
  destruct (new_inventory mem_empty) as [balance m0].
  assert (Hc0 : chronological (entry_date entry) (entry :: iter_entries))
    by (split; [lia|done]).
  destruct date_begin as [db|]; simpl in Hfirst.
  - destruct (skip_entries _ _ db iter_entries entry balance m0)
      as [[b1 m1]|[[[e1 it1] b1] m1]] eqn:Hs.
    + intros [= <- <-]. apply Forall_singleton. simpl.
      destruct date_end as [de|]; simpl; [by apply Hfirst|lia].
    + apply skip_entries_split in Hs as (skipped & Heq & Hall & Hstop).
      apply main_loop_ordered; [| | |constructor].
      * rewrite Heq in Hc0.
        apply chronological_suffix in Hc0 as [_ [_ Hc1]].
        split; [|done]. destruct Hstop as [?|Hend]; [done|].
        unfold at_or_after_end in Hend.
        destruct date_end as [de|]; [|done].
        apply bool_decide_eq_true in Hend.
        pose proof (dates_ordered (Some db) (Some de) db Hmis eq_refl de
                      eq_refl). lia.
      * done.
      * rewrite Heq in Hn. by apply (no_flow_suffix skipped).
  - by apply main_loop_ordered; [| | |constructor].
Qed.

End ordered_facts.

Lemma no_flow_past_end_bounded (accounts_assets accounts_intflows : gset string)
    (de : date) (stream : list Directive) :
  Forall (λ e, is_external_flow_entry accounts_assets accounts_intflows e
               = true → entry_date e ≤ de) stream →
  no_flow_past_end accounts_assets accounts_intflows (Some de) stream.
Proof.
  intros Hall d l1 e l2 [= <-] -> He Hlt.
  apply Forall_app in Hall as [_ Hall].
  apply Forall_cons in Hall as [Hle _]. specialize (Hle He). lia.
Qed.

(** The ledger from 2019-12-07 to 2020-03-16: the second deposit, an
    external flow entry dated after [date_end], ends the second period at
    its own date, and the third period then runs back to [date_end]. *)
Example ledger_periods_past_date_end :
  read_result (segment_periods (mem := PyHeap) ledger_assets ledger_intflows
                 (Some 737400) (Some 737500) ledger) =
  Some (Returns
    [mkPeriod 737400 737425 ∅ ∅;
     mkPeriod 737425 737577
       {[mkLot "USD" None := Q2Qc (inject_Z 1000)]}
       {[mkLot "USD" None := Q2Qc (inject_Z 1000)]};
     mkPeriod 737577 737500
       {[mkLot "USD" None := Q2Qc (inject_Z 2000)]}
       {[mkLot "USD" None := Q2Qc (inject_Z 2000)]}]).
Proof.
  lazymatch goal with |- _ = ?r => vm_cast_no_check (eq_refl r) end.
Qed.

(** * The segmenter: C1, C7, C8 *)

(** With a [date_begin] after every entry and no [date_end], the single
    period ends at [date_begin], not at the date of the last entry. *)
Lemma partition_as_stated_fails :
  ¬ partition_as_stated ledger_assets ledger_intflows (Some 737800) None
      ledger.
Proof.
  intros Hp.
  assert (Hrun : segment_periods (mem := PyHeap) ledger_assets
                   ledger_intflows (Some 737800) None ledger =
                 Some (Returns ([mkPeriod 737800 737800 0%nat 0%nat],
                                [{[mkLot "USD" None := Q2Qc (inject_Z 1600)]}])))
    by (lazymatch goal with |- _ = ?r => vm_cast_no_check (eq_refl r) end).
  destruct (Hp _ _ Hrun) as (_ & _ & Hlast & _).
  vm_compute in Hlast. discriminate Hlast.
Qed.

(** C1, with the last end date as the code has it and the order of time
    where the loop keeps it: when the dates are ordered and some entry is
    asset-relevant, [segment_periods] returns periods that follow one
    another without gap: every period ends where the next one begins; the
    first begins at [date_begin] when given, else at the date of the first
    asset-relevant entry; the last ends at [date_end] when given; without
    [date_end] it ends at the date of the last asset-relevant entry, except
    that it ends at [date_begin] when every asset-relevant entry comes
    before [date_begin].  When moreover the asset-relevant entries come in
    the order of their dates, the first period does not begin after
    [date_end] and the loop meets no external flow entry dated after
    [date_end], no period ends before it begins: the periods do not
    overlap, and partition the span from the begin of the first to the end
    of the last. *)
Theorem segment_periods_partition (accounts_assets accounts_intflows : gset string)
    (date_begin date_end : option date) (entries : list Directive)
    (entry : Directive) (iter_entries : list Directive) :
  dates_misordered date_begin date_end = false →
  asset_entries accounts_assets entries = entry :: iter_entries →
  ∃ periods h,
    segment_periods (mem := PyHeap) accounts_assets accounts_intflows
      date_begin date_end entries = Some (Returns (periods, h)) ∧
    (∀ i p q, periods !! i = Some p → periods !! S i = Some q →
              period_end p = period_begin q) ∧
    period_begin <$> head periods =
      Some (default (entry_date entry) date_begin) ∧
    period_end <$> last periods =
      Some (final_date date_begin date_end entry iter_entries) ∧
    (chronological (entry_date entry) iter_entries →
     (∀ de, date_end = Some de →
            default (entry_date entry) date_begin ≤ de) →
     no_flow_past_end accounts_assets accounts_intflows date_end
       (entry :: iter_entries) →
     Forall (λ p, period_begin p ≤ period_end p) periods).
Proof.
  intros Hmis Hfilter.
  destruct (segment_periods_dates (mem := PyHeap) accounts_assets
              accounts_intflows date_begin date_end entries entry
              iter_entries Hmis Hfilter)
    as (periods & h & Hrun & Hne & Hc & Hl).
  exists periods, h. split_and!; [done|..].
  - by eapply contiguous_from_lookup.
  - destruct periods as [|p periods]; [done|]. simpl. by destruct Hc as [-> _].
  - rewrite last_end_last in Hl.
    destruct (last periods) as [p|] eqn:Hlast; simpl in *; [by rewrite Hl|].
    by apply last_None in Hlast.
  - intros Hchron Hfirst Hflow.
    exact (segment_periods_ordered (mem := PyHeap) accounts_assets
             accounts_intflows date_end date_begin entries entry iter_entries
             periods h Hmis Hfilter Hchron Hfirst Hflow Hrun).
Qed.

Lemma segment_periods_partition_witness :
  ∃ periods h,
    segment_periods (mem := PyHeap) ledger_assets ledger_intflows
      (Some 737400) (Some 737800) ledger = Some (Returns (periods, h)) ∧
    (∀ i p q, periods !! i = Some p → periods !! S i = Some q →
              period_end p = period_begin q) ∧
    period_begin <$> head periods = Some 737400 ∧
    period_end <$> last periods = Some 737800 ∧
    Forall (λ p, period_begin p ≤ period_end p) periods.
Proof.
  destruct (segment_periods_partition ledger_assets ledger_intflows
              (Some 737400) (Some 737800) ledger deposit1
              [deposit2; dividend; withdrawal])
    as (periods & h & Hrun & Hcont & Hfirst & Hlast & Hord).
  - reflexivity.
  - vm_compute; reflexivity.
  - exists periods, h. split_and!; [done|done|done|done|].
    apply Hord.
    + vm_compute. repeat split; discriminate.
    + intros de [= <-]. simpl. lia.
    + apply no_flow_past_end_bounded.
      unfold deposit1, deposit2, dividend, withdrawal.
      repeat constructor; intros _; simpl; lia.
Defined.

(** C7: [segment_periods] raises [ValueError] exactly when both dates are
    given and [date_begin >= date_end], whatever the entries are (none is
    looked at, and no period is produced). *)
Theorem segment_periods_value_error (accounts_assets accounts_intflows : gset string)
    (date_begin date_end : option date) (entries : list Directive) :
  segment_periods (mem := PyHeap) accounts_assets accounts_intflows
    date_begin date_end entries = Some (Raises ValueError) ↔
  ∃ db de, date_begin = Some db ∧ date_end = Some de ∧ de ≤ db.
Proof.
  split.
  - destruct (dates_misordered date_begin date_end) eqn:Hmis.
    + intros _. unfold dates_misordered in Hmis.
      destruct date_begin as [db|], date_end as [de|]; try done.
      apply bool_decide_eq_true in Hmis. by exists db, de.
    + destruct (asset_entries accounts_assets entries) as [|entry it]
        eqn:Hfilter.
      * by rewrite (segment_periods_no_asset_entry _ _ _ _ _ Hmis Hfilter).
      * destruct (segment_periods_dates (mem := PyHeap) accounts_assets
                    accounts_intflows date_begin date_end entries entry it
                    Hmis Hfilter) as (periods & h & Hrun & _).
        by rewrite Hrun.
  - intros (db & de & -> & -> & Hge). unfold segment_periods. simpl.
    by rewrite bool_decide_eq_true_2.
Qed.

(** C8, on a ledger without asset-relevant entry: the first
    [next(iter_entries)] (line 156) is outside the [try] and raises
    [StopIteration]; no period is returned. *)
Theorem segment_periods_without_asset_entry :
  segment_periods (mem := PyHeap) ledger_assets ledger_intflows
    (Some 737425) None [groceries] = Some (Raises StopIteration).
Proof. vm_compute. reflexivity. Qed.

(** * The stored balances: C9 *)

Lemma heap_read_alloc_old (h : Heap) inv l :
  (l < length h)%nat → heap_read (h ++ [inv]) l = heap_read h l.
Proof. intros Hl. unfold heap_read. by rewrite lookup_app_l. Qed.

Lemma heap_read_alloc_new (h : Heap) inv :
  heap_read (h ++ [inv]) (length h) = inv.
Proof. unfold heap_read. by rewrite list_lookup_middle. Qed.

Lemma heap_read_insert_eq (h : Heap) inv l :
  (l < length h)%nat → heap_read (<[l := inv]> h) l = inv.
Proof. intros Hl. unfold heap_read. by rewrite list_lookup_insert_eq. Qed.

Lemma heap_read_insert_ne (h : Heap) inv l l' :
  l ≠ l' → heap_read (<[l := inv]> h) l' = heap_read h l'.
Proof. intros Hl. unfold heap_read. by rewrite list_lookup_insert_ne. Qed.

Lemma sum_balances_heap (h : Heap) l entry accounts :
  (l < length h)%nat →
  updates_only h l
    (sum_balances_for_accounts (mem := PyHeap) h l entry accounts)
    (sum_balances_for_accounts (mem := Snapshots) tt (heap_read h l)
                               entry accounts).1.
Proof.
  intros Hl. destruct entry as [d postings|d accs]; simpl; [|by repeat split].
  revert h Hl. induction postings as [|p ps IH]; intros h Hl; simpl.
  { by repeat split. }
  case_bool_decide; simpl; [|by apply IH].
  set (h' := <[l := inv_add_position (heap_read h l) (position p)]> h).
  assert (Hlen : length h' = length h) by apply length_insert.
  destruct (IH h') as (H1 & H2 & H3 & H4); [lia|].
  unfold h' in H3 at 2. rewrite heap_read_insert_eq in H3 by done.
  split_and!; try done; [congruence|].
  intros l' Hne. rewrite H4 by done. by apply heap_read_insert_ne.
Qed.

Lemma read_period_snapshot (periods : list (Period (gmap Lot Qc))) :
  read_period (mem := Snapshots) tt <$> periods = periods.
Proof.
  induction periods as [|[] ps IH]; [done|]. rewrite fmap_cons, IH. done.
Qed.

Section snapshots.
Variables accounts_assets accounts_intflows : gset string.
Variables date_begin date_end : option date.

Local Notation inner_heap :=
  (inner_loop (mem := PyHeap) accounts_assets accounts_intflows date_end).
Local Notation inner_snap :=
  (inner_loop (mem := Snapshots) accounts_assets accounts_intflows date_end).
Local Notation main_heap :=
  (main_loop (mem := PyHeap) accounts_assets accounts_intflows date_end).
Local Notation main_snap :=
  (main_loop (mem := Snapshots) accounts_assets accounts_intflows date_end).

Lemma inner_loop_heap iter_entries : ∀ entry (h : Heap) l,
  (l < length h)%nat →
  let x := inner_heap iter_entries entry l h in
  let y := inner_snap iter_entries entry (heap_read h l) tt in
  ie_period_end x = ie_period_end y ∧ ie_done x = ie_done y ∧
  ie_entry x = ie_entry y ∧ ie_iter x = ie_iter y ∧
  updates_only h l (ie_balance x, ie_mem x) (ie_balance y).
Proof.
  induction iter_entries as [|e it IH]; intros entry h l Hl; simpl.
  - destruct (is_external_flow_entry _ _ entry); simpl.
    { by repeat split. }
    destruct (at_or_after_end date_end _); simpl.
    { by repeat split. }
    pose proof (sum_balances_heap h l entry accounts_assets Hl) as Hs.
    destruct (sum_balances_for_accounts h l _ _) as [l' h'].
    destruct (sum_balances_for_accounts tt _ _ _) as [inv' []].
    by repeat split; apply Hs.
  - destruct (is_external_flow_entry _ _ entry); simpl.
    { by repeat split. }
    destruct (at_or_after_end date_end _); simpl.
    { by repeat split. }
    pose proof (sum_balances_heap h l entry accounts_assets Hl) as Hs.
    destruct (sum_balances_for_accounts h l _ _) as [l' h'].
    destruct (sum_balances_for_accounts tt _ _ _) as [inv' []].
    destruct Hs as (Hs1 & Hs2 & Hs3 & Hs4). simpl in *. subst l'.
    destruct (IH e h' l) as (H1 & H2 & H3 & H4 & H5 & H6 & H7 & H8); [lia|].
    rewrite Hs3 in *. simpl in *. unfold updates_only; simpl.
    split_and!; try done; try congruence.
    intros l' Hne. rewrite H8 by done. by apply Hs4.
Qed.

Lemma read_period_detached (h h' : Heap) l (p : Period nat) :
  detached h l p →
  (∀ l', (l' < length h)%nat → l' ≠ l → heap_read h' l' = heap_read h l') →
  read_period (mem := PyHeap) h' p = read_period (mem := PyHeap) h p.
Proof.
  intros (H1 & H2 & H3 & H4) Hh. unfold read_period; simpl.
  by rewrite !Hh.
Qed.

Lemma main_loop_heap fuel : ∀ iter_entries entry (h : Heap) l period_begin
    (periods : list (Period nat)),
  (l < length h)%nat →
  Forall (detached h l) periods →
  read_result (main_heap fuel iter_entries entry l h period_begin periods) =
  read_result (main_snap fuel iter_entries entry (heap_read h l) tt
                 period_begin (read_period h <$> periods)).
Proof.
  induction fuel as [|fuel IH]; intros it entry h l pb periods Hl Hd; [done|].
  simpl.
  set (h1 := h ++ [heap_read h l]).
  assert (Hl1 : (l < length h1)%nat) by (unfold h1; rewrite length_app; lia).
  pose proof (inner_loop_heap it entry h1 l Hl1) as Hx. simpl in Hx.
  assert (Hrl : heap_read h1 l = heap_read h l)
    by (by apply heap_read_alloc_old).
  rewrite Hrl in Hx.
  destruct (inner_heap it entry l h1) as [pe dn e1 it1 l1 h2].
  destruct (inner_snap it entry _ tt) as [pe' dn' e1' it1' inv1 []].
  simpl in Hx. destruct Hx as (<- & <- & <- & <- & Heq & Hlen2 & Hr2 & Hf2).
  simpl in *. subst l1.
  set (h3 := h2 ++ [heap_read h2 l]).
  set (p := mkPeriod pb pe (length h) (length h2)).
  assert (Hlen1 : length h1 = S (length h))
    by (unfold h1; rewrite length_app; simpl; lia).
  assert (Hlen3 : length h3 = S (length h2))
    by (unfold h3; rewrite length_app; simpl; lia).
  assert (Hold : ∀ l', (l' < length h)%nat → l' ≠ l →
                       heap_read h3 l' = heap_read h l').
  { intros l' Hl' Hne. unfold h3.
    rewrite heap_read_alloc_old by lia. rewrite Hf2 by done.
    by apply heap_read_alloc_old. }
  assert (Hd3 : Forall (detached h3 l) (periods ++ [p])).
  { apply Forall_app. split.
    - eapply Forall_impl; [exact Hd|]. intros q (?&?&?&?).
      unfold detached. split_and!; try done; lia.
    - apply Forall_singleton. unfold detached, p; simpl.
      split_and!; lia. }
  assert (Hview : read_period h3 <$> (periods ++ [p]) =
                  (read_period h <$> periods) ++
                  [mkPeriod pb pe (heap_read h l) inv1]).
  { rewrite fmap_app. f_equal.
    - apply Forall_fmap_ext_1. eapply Forall_impl; [exact Hd|].
      intros q Hq. by eapply read_period_detached.
    - simpl. unfold read_period, p; simpl. f_equal. f_equal.
      + unfold h3. rewrite heap_read_alloc_old by lia.
        rewrite Hf2 by lia. unfold h1. apply heap_read_alloc_new.
      + unfold h3. rewrite heap_read_alloc_new. done. }
  destruct dn; simpl.
  { by rewrite read_period_snapshot, Hview. }
  destruct (is_external_flow_entry _ _ e1); simpl; [|done].
  assert (Hl3 : (l < length h3)%nat) by lia.
  pose proof (sum_balances_heap h3 l e1 accounts_assets Hl3) as Hs.
  assert (Hr3 : heap_read h3 l = inv1).
  { unfold h3. rewrite heap_read_alloc_old by lia. done. }
  rewrite Hr3 in Hs.
  destruct (sum_balances_for_accounts h3 l _ _) as [l4 h4].
  destruct (sum_balances_for_accounts tt inv1 _ _) as [inv4 []].
  destruct Hs as (Hs1 & Hs2 & Hs3 & Hs4). simpl in *. subst l4.
  assert (Hview4 : read_period h4 <$> (periods ++ [p]) =
                   read_period h3 <$> (periods ++ [p])).
  { apply Forall_fmap_ext_1. eapply Forall_impl; [exact Hd3|].
    intros q Hq. eapply read_period_detached; [exact Hq|].
    intros l' _ Hne. by apply Hs4. }
  destruct it1 as [|e2 it2].
  - destruct date_end as [de|]; simpl; rewrite read_period_snapshot.
    + rewrite fmap_app, Hview4, Hview. simpl.
      do 3 f_equal. unfold read_period; simpl. by rewrite Hs3.
    + by rewrite Hview4, Hview.
  - rewrite IH.
    + by rewrite Hs3, Hview4, Hview.
    + lia.
    + eapply Forall_impl; [exact Hd3|]. intros q (?&?&?&?).
      unfold detached. rewrite Hs2. done.
Qed.

Lemma skip_entries_heap db iter_entries : ∀ entry (h : Heap) l,
  (l < length h)%nat →
  match skip_entries (mem := PyHeap) accounts_assets date_end db
          iter_entries entry l h,
        skip_entries (mem := Snapshots) accounts_assets date_end db
          iter_entries entry (heap_read h l) tt with
  | inl r, inl (inv, _) => updates_only h l r inv
  | inr (e, it, l', h'), inr (e', it', inv, _) =>
      e = e' ∧ it = it' ∧ updates_only h l (l', h') inv
  | _, _ => False
  end.
Proof.
  induction iter_entries as [|e it IH]; intros entry h l Hl; simpl.
  - case_bool_decide; simpl; [by repeat split|].
    destruct (at_or_after_end date_end _); simpl; [by repeat split|].
    pose proof (sum_balances_heap h l entry accounts_assets Hl) as Hs.
    destruct (sum_balances_for_accounts h l _ _) as [l' h'].
    by destruct (sum_balances_for_accounts tt _ _ _) as [inv' []].
  - case_bool_decide; simpl; [by repeat split|].
    destruct (at_or_after_end date_end _); simpl; [by repeat split|].
    pose proof (sum_balances_heap h l entry accounts_assets Hl) as Hs.
    destruct (sum_balances_for_accounts h l _ _) as [l' h'].
    destruct (sum_balances_for_accounts tt _ _ _) as [inv' []].
    destruct Hs as (Hs1 & Hs2 & Hs3 & Hs4). simpl in *. subst l'.
    assert (Hl' : (l < length h')%nat) by lia.
    specialize (IH e h' l Hl'). rewrite Hs3 in IH.
    destruct (skip_entries _ _ _ it e l h') as [r|[[[e1 it1] l1] h1]];
      destruct (skip_entries _ _ _ it e inv' tt)
        as [[inv2 []]|[[[e2 it2] inv2] []]]; try done.
    + destruct IH as (H1 & H2 & H3 & H4). split_and!; try done; [congruence|].
      intros l' Hne. rewrite H4 by done. by apply Hs4.
    + destruct IH as (-> & -> & H1 & H2 & H3 & H4). simpl in *.
      unfold updates_only; simpl. split_and!; try done; [congruence|].
      intros l' Hne. rewrite H4 by done. by apply Hs4.
Qed.

Local Arguments main_loop : simpl never.


End snapshots.

(** * The period return calculator: C2 *)

(** C2: [compute_period_returns] returns, for the market values of the two
    boundary balances, a mapping whose keys are exactly the currencies held
    without cost at either boundary; a currency whose plain amount at the
    begin boundary is zero or absent gets [1.0], every other one the float
    of the end amount (zero when absent) divided by the begin amount. *)
Theorem compute_period_returns_spec {F : Type} `{!FloatOps F}
    (PriceMap : Type)
    (get_inventory_market_value : gmap Lot Qc → date → PriceMap → gmap Lot Qc)
    (date_begin date_end : date) (balance_begin balance_end : gmap Lot Qc)
    (price_map : PriceMap) :
  let mktvalue_begin :=
    get_inventory_market_value balance_begin date_begin price_map in
  let mktvalue_end :=
    get_inventory_market_value balance_end date_end price_map in
  ∃ returns : gmap string F,
    compute_period_returns PriceMap get_inventory_market_value
      date_begin date_end balance_begin balance_end price_map =
    Returns (returns, (mktvalue_begin, mktvalue_end)) ∧
    ∀ currency,
      let begin := default ZERO (plain_amount mktvalue_begin currency) in
      let end_ := default ZERO (plain_amount mktvalue_end currency) in
      returns !! currency =
      if decide (is_Some (plain_amount mktvalue_begin currency) ∨
                 is_Some (plain_amount mktvalue_end currency))
      then Some (if decide (begin = ZERO) then f_one
                 else float_of_ratio end_ begin)
      else None.
Proof.
  intros mvb mve. unfold compute_period_returns. fold mvb mve.
  destruct (collect_positions_inventory ∅ mvb)
    as (cs1 & single_begin & -> & Hcs1 & Hsb).
  destruct (collect_positions_inventory cs1 mve)
    as (cs2 & single_end & Hrun & Hcs2 & Hse).
  simpl. rewrite Hrun. simpl. eexists. split; [done|].
  intros currency. cbv zeta.
  rewrite lookup_fold_insert, lookup_empty.
  assert (Hin : currency ∈ elements cs2 ↔
                is_Some (plain_amount mvb currency) ∨
                is_Some (plain_amount mve currency)).
  { rewrite elem_of_elements, Hcs2, Hcs1. set_solver. }
  destruct (decide (currency ∈ elements cs2)) as [H1|H1];
    destruct (decide (_ ∨ _)) as [H2|H2]; try tauto.
  unfold period_return. by rewrite Hsb, Hse.
Qed.

(** * The annualizer: C3, C10 *)

(** C3: [annualize_returns] raises [ValueError] exactly when the span is 0
    days and some return differs from [1.0]; whenever it returns, each
    currency has its return raised to the exponent, [1.0] for a span of 0
    days and [365.0 / days] otherwise; and over 365 days, where the exponent
    is [1.0] and [x ** 1.0] is [x], it returns the returns unchanged. *)
Theorem annualize_returns_spec {F : Type} `{!FloatOps F}
    (returns : gmap string F) (date_first date_last : date) :
  let num_days := date_last - date_first in
  (annualize_returns returns date_first date_last = Raises ValueError ↔
     num_days = 0 ∧ ∃ c r, returns !! c = Some r ∧ f_eqb r f_one = false) ∧
  (∀ res, annualize_returns returns date_first date_last = Returns res →
     ∀ c, res !! c =
          returns !! c ≫= λ r,
            f_pow r (if decide (num_days = 0) then f_one
                     else f_365_div num_days)) ∧
  (f_365_div 365 = f_one → (∀ r, f_pow r f_one = Some r) →
   num_days = 365 →
   annualize_returns returns date_first date_last = Returns returns).
Proof.
  intros num_days. split_and!.
  - split.
    + intros Hr. apply annualize_returns_raises in Hr as [(_ & ? & Hs)|[[=] _]].
      split; [done|]. by apply some_return_not_one_spec.
    + intros [Hz Hs]. apply some_return_not_one_spec in Hs.
      rewrite annualize_returns_exponent.
      rewrite decide_True by done. by rewrite Hs.
  - intros res Hr c. by apply annualize_returns_value.
  - intros H365 Hpow Hdays. rewrite annualize_returns_exponent.
    fold num_days. rewrite Hdays, H365. simpl.
    rewrite pow_items_id by done. simpl. by rewrite list_to_map_to_list.
Qed.

Lemma annualize_returns_spec_witness :
  annualize_returns (F := Qc) {["USD"%string := Q2Qc (3 # 2)]}
    737425 737790 =
  Returns {["USD"%string := Q2Qc (3 # 2)]}.
Proof.
  apply (annualize_returns_spec (F := Qc) {["USD"%string := Q2Qc (3 # 2)]}
           737425 737790).
  - compute_done.
  - exact exact_pow_one.
  - reflexivity.
Defined.

(** A return of zero cannot be raised to the negative exponent of a
    reversed range: the power raises (in Python, ZeroDivisionError). *)
Lemma reversed_range_raises : ¬ reversed_range_never_raises Qc.
Proof.
  intros Hn.
  destruct (Hn {["USD"%string := 0%Qc]} 737426 737425) as [res Hres];
    [lia|].
  vm_compute in Hres. discriminate Hres.
Qed.

(** C10, with the errors of the power as the code has them: on a reversed
    range (a negative span), [annualize_returns] never raises [ValueError],
    the zero-length check
    being made for a span of 0 days only; it returns exactly when every
    return can be raised to the negative exponent [365.0 / days], each
    currency then having its return raised to that exponent, and the only
    error it can raise is that of the power. *)
Theorem annualize_returns_reversed {F : Type} `{!FloatOps F}
    (returns : gmap string F) (date_first date_last : date) :
  date_last < date_first →
  let exponent := f_365_div (date_last - date_first) in
  annualize_returns returns date_first date_last ≠ Raises ValueError ∧
  (∀ res, annualize_returns returns date_first date_last = Returns res →
     ∀ c, res !! c = returns !! c ≫= λ r, f_pow r exponent) ∧
  ((∃ res, annualize_returns returns date_first date_last = Returns res) ↔
   ∀ c r, returns !! c = Some r → is_Some (f_pow r exponent)) ∧
  (∀ e, annualize_returns returns date_first date_last = Raises e →
     e = ArithmeticError).
Proof.
  intros Hrev exponent.
  assert (Hexp : annual_exponent date_first date_last = exponent).
  { unfold annual_exponent. rewrite decide_False; [done|lia]. }
  assert (Hraise : ∀ e,
    annualize_returns returns date_first date_last = Raises e →
    e = ArithmeticError ∧
    ∃ c r, returns !! c = Some r ∧ f_pow r exponent = None).
  { intros e He. apply annualize_returns_raises in He as [(_ & ? & _)|He];
      [lia|]. by rewrite Hexp in He. }
  assert (Hval : ∀ res,
    annualize_returns returns date_first date_last = Returns res →
    ∀ c, res !! c = returns !! c ≫= λ r, f_pow r exponent).
  { intros res Hres c. rewrite <- Hexp. by apply annualize_returns_value. }
  split_and!; [|done| |].
  - intros He. by apply Hraise in He as [[=] _].
  - split.
    + intros [res Hres] c r Hc.
      pose proof (Hval res Hres c) as Hv. rewrite Hc in Hv. simpl in Hv.
      rewrite <- Hv. apply (annualize_returns_keys _ _ _ _ _ Hres).
      by rewrite Hc.
    + intros Hall. destruct (annualize_returns _ _ _) as [res|e] eqn:Hr.
      * by exists res.
      * destruct (Hraise e eq_refl) as (_ & c & r & Hc & Hp).
        destruct (Hall c r Hc) as [v Hv]. congruence.
  - intros e He. by apply Hraise in He as [-> _].
Qed.

Lemma annualize_returns_reversed_witness :
  737425 < 737790 ∧
  annualize_returns (F := Qc) {["USD"%string := Q2Qc (3 # 2)]}
    737790 737425 ≠ Raises ValueError.
Proof.
  split; [lia|].
  apply (annualize_returns_reversed (F := Qc)
           {["USD"%string := Q2Qc (3 # 2)]} 737790 737425).
  lia.
Defined.

(** * The aggregator: C4 *)

(** C4: when [compute_returns] returns, its total returns are compounded
    from the returns [compute_period_returns] gives for the periods of
    [segment_periods], taken in order: for every currency that has a return
    in some period, the total is [1.0] multiplied in turn by the return of
    each period, a period without a return for the currency counting for
    [1.0]; no other currency has a total. *)
Theorem compute_returns_compounds {F : Type} `{!FloatOps F}
    (PriceMap : Type)
    (get_inventory_market_value : gmap Lot Qc → date → PriceMap → gmap Lot Qc)
    (build_price_map : list Directive → PriceMap)
    (entries : list Directive) (accounts_assets accounts_intflows : gset string)
    (price_map : option PriceMap) (date_begin date_end : option date)
    (total_returns : gmap string F) (span : date * date) :
  compute_returns (M := list (gmap Lot Qc)) PriceMap
    get_inventory_market_value build_price_map entries accounts_assets
    accounts_intflows price_map date_begin date_end =
    Some (Returns (total_returns, span)) →
  ∃ periods h (all_returns : list (gmap string F)),
    segment_periods (mem := PyHeap) accounts_assets accounts_intflows
      date_begin date_end entries = Some (Returns (periods, h)) ∧
    Forall2 (returns_of_period PriceMap get_inventory_market_value h
               (default (build_price_map entries) price_map))
            periods all_returns ∧
    ∀ currency,
      total_returns !! currency =
      if decide (Exists (λ returns, is_Some (returns !! currency))
                        all_returns)
      then Some (foldl (λ total returns,
                          f_mul total (default f_one (returns !! currency)))
                       f_one all_returns)
      else None.
Proof.
  unfold compute_returns. intros Hrun.
  destruct (segment_periods _ _ _ _ entries) as [[[periods h]|e]|] eqn:Hseg;
    simpl in Hrun; [|done|done].
  destruct (period_loop _ _ h periods _) as [all_returns|e] eqn:Hloop;
    simpl in Hrun; [|done].
  destruct (head periods), (last periods); simplify_eq/=.
  exists periods, h, all_returns. split_and!; [done|..].
  - by apply period_loop_returns.
  - intros currency. rewrite compound_returns_lookup.
    destruct (decide (currency ∈ _)) as [Hin|Hnin];
      rewrite elem_of_currencies, <- Exists_exists in *;
      [by rewrite decide_True|by rewrite decide_False].
Qed.

Lemma compute_returns_compounds_witness :
  ∃ periods h (all_returns : list (gmap string Qc)),
    segment_periods (mem := PyHeap) ledger_assets ledger_intflows
      None None year_ledger = Some (Returns (periods, h)) ∧
    Forall2 (returns_of_period (F := Qc) unit (λ inv _ _, inv) h tt)
            periods all_returns ∧
    ∀ currency,
      ({["USD"%string := Q2Qc (11 # 10)]} : gmap string Qc) !! currency =
      if decide (Exists (λ returns, is_Some (returns !! currency))
                        all_returns)
      then Some (foldl (λ total returns,
                          f_mul total (default f_one (returns !! currency)))
                       f_one all_returns)
      else None.
Proof.
  apply (compute_returns_compounds (F := Qc) unit (λ inv _ _, inv) (λ _, tt)
           year_ledger ledger_assets ledger_intflows None None None
           {["USD"%string := Q2Qc (11 # 10)]} (737425, 737790)).
  vm_compute. reflexivity.
Defined.


(** * More about [sum_balances_for_accounts] *)

Lemma add_postings_snapshot (accounts : gset string) postings :
  ∀ inv : gmap Lot Qc,
  foldl (λ '(balance, m) posting,
           if bool_decide (account posting ∈ accounts)
           then add_position (Memory := Snapshots) m balance (position posting)
           else (balance, m))
        (inv, tt) postings =
  (foldl inv_add_position inv
         (position <$> filter (λ posting, account posting ∈ accounts) postings),
   tt).
Proof.
  induction postings as [|p ps IH]; intros inv; simpl; [done|].
  rewrite filter_cons. case_bool_decide.
  - rewrite decide_True by done. simpl. apply IH.
  - rewrite decide_False by done. apply IH.
Qed.

Lemma sum_balances_snapshot (accounts : gset string) inv entry :
  sum_balances_for_accounts (mem := Snapshots) tt inv entry accounts =
  (add_entry accounts inv entry, tt).
Proof.
  destruct entry as [d postings|d accs]; [|done].
  apply add_postings_snapshot.
Qed.

(** X1: [sum_balances_for_accounts] "destructively modifies balance and returns
    it": on the heap it returns the address it was given and allocates
    nothing; the object at that address then holds its former content with
    the positions posted to [accounts] added in the order of the postings,
    and every other object is as it was. *)
Theorem sum_balances_for_accounts_in_place (h : Heap) (balance : nat)
    (entry : Directive) (accounts : gset string) :
  (balance < length h)%nat →
  let r := sum_balances_for_accounts (mem := PyHeap) h balance entry
             accounts in
  r.1 = balance ∧ length r.2 = length h ∧
  heap_read r.2 balance =
    foldl inv_add_position (heap_read h balance)
          (posted_positions accounts entry) ∧
  ∀ l, l ≠ balance → heap_read r.2 l = heap_read h l.
Proof.
  intros Hl r.
  pose proof (sum_balances_heap h balance entry accounts Hl) as Hs.
  rewrite sum_balances_snapshot in Hs. exact Hs.
Qed.

Lemma sum_balances_for_accounts_in_place_witness :
  let r := sum_balances_for_accounts (mem := PyHeap) [∅; ∅] 1%nat deposit1
             ledger_assets in
  r.1 = 1%nat ∧ length r.2 = 2%nat ∧
  heap_read r.2 1 =
    foldl inv_add_position (heap_read [∅; ∅] 1)
          (posted_positions ledger_assets deposit1) ∧
  ∀ l, l ≠ 1%nat → heap_read r.2 l = heap_read [∅; ∅] l.
Proof.
  apply (sum_balances_for_accounts_in_place [∅; ∅] 1%nat deposit1
           ledger_assets).
  simpl. lia.
Defined.

(** X2: An entry that is not a transaction, or that has no posting on
    [accounts], leaves the balance and the memory as they are, whatever the
    memory is: the entries [segment_periods] filters out could not have
    changed the running balance. *)
Theorem sum_balances_for_accounts_irrelevant {M B : Type} {mem : Memory M B}
    (m : M) (balance : B) (entry : Directive) (accounts : gset string) :
  is_asset_entry accounts entry = false ∨ postings_of entry = [] →
  sum_balances_for_accounts m balance entry accounts = (balance, m).
Proof.
  intros Hirr. destruct entry as [d postings|d accs]; [|done].
  simpl in *. destruct Hirr as [Hirr| ->]; [|done].
  apply bool_decide_eq_false in Hirr.
  assert (Hnone : ∀ p, p ∈ postings → account p ∉ accounts).
  { intros p Hp Hin. apply Hirr. intros Hem.
    assert (Hx : account p ∈ get_entry_accounts (Transaction d postings)
                              ∩ accounts).
    { apply elem_of_intersection. split; [|done]. simpl.
      apply elem_of_list_to_set, list_elem_of_fmap. by exists p. }
    rewrite Hem in Hx. by apply elem_of_empty in Hx. }
  clear Hirr. revert balance m.
  induction postings as [|p ps IH]; intros balance m; simpl; [done|].
  rewrite bool_decide_eq_false_2 by (apply Hnone; by left).
  apply IH. intros q Hq. apply Hnone. by right.
Qed.

Lemma sum_balances_for_accounts_irrelevant_witness :
  sum_balances_for_accounts (mem := PyHeap) [∅] 0%nat groceries
    ledger_assets = (0%nat, [∅]).
Proof.
  apply (sum_balances_for_accounts_irrelevant (mem := PyHeap) [∅] 0%nat
           groceries ledger_assets).
  left. vm_compute. reflexivity.
Defined.

(** * More about [segment_periods]: the balances of the periods *)

Lemma entries_before_app (b : date) skipped e rest :
  Forall (λ e, entry_date e < b) skipped → b ≤ entry_date e →
  entries_before b (skipped ++ e :: rest) = skipped.
Proof.
  induction skipped as [|e0 sk IH]; intros Hall He; simpl.
  - rewrite decide_False; [done|lia].
  - apply Forall_cons in Hall as [H0 Hall].
    rewrite decide_True by done. by rewrite IH.
Qed.

Lemma entries_before_all (b : date) stream :
  Forall (λ e, entry_date e < b) stream → entries_before b stream = stream.
Proof.
  induction stream as [|e0 sk IH]; intros Hall; simpl; [done|].
  apply Forall_cons in Hall as [H0 Hall].
  rewrite decide_True by done. by rewrite IH.
Qed.

Lemma n_external_app aa ai (l1 l2 : list Directive) :
  n_external aa ai (l1 ++ l2) = (n_external aa ai l1 + n_external aa ai l2)%nat.
Proof. unfold n_external. by rewrite filter_app, length_app. Qed.

Lemma n_external_none aa ai (l : list Directive) :
  Forall (λ e, is_external_flow_entry aa ai e = false) l →
  n_external aa ai l = 0%nat.
Proof.
  unfold n_external. induction 1 as [|e l He _ IH]; [done|].
  rewrite filter_cons, decide_False by congruence. done.
Qed.

Lemma n_external_cons_ext aa ai e (l : list Directive) :
  is_external_flow_entry aa ai e = true →
  n_external aa ai (e :: l) = S (n_external aa ai l).
Proof.
  intros He. unfold n_external. by rewrite filter_cons, decide_True.
Qed.

Lemma last_entry_app_cons entry it (l : list Directive) e rest :
  entry :: it = l ++ e :: rest → last_entry entry it = last_entry e rest.
Proof.
  revert entry it. induction l as [|e0 l IH]; intros entry it; simpl.
  - by intros [= -> ->].
  - intros [= -> ->]. destruct l as [|e1 l]; simpl in *; [done|].
    by apply (IH e1 (l ++ e :: rest)).
Qed.

Lemma last_entry_elem entry it (l : list Directive) :
  entry :: it = l → last l = Some (last_entry entry it).
Proof. intros <-. apply last_entry_last. Qed.

Section balances_facts.
Variables accounts_assets accounts_intflows : gset string.
Variables date_begin date_end : option date.

Local Notation inner_snap :=
  (inner_loop (mem := Snapshots) accounts_assets accounts_intflows date_end).
Local Notation main_snap :=
  (main_loop (mem := Snapshots) accounts_assets accounts_intflows date_end).
Local Notation skip_snap :=
  (skip_entries (mem := Snapshots) accounts_assets date_end).
Local Notation is_ext :=
  (is_external_flow_entry accounts_assets accounts_intflows).
Local Notation add_entries := (add_entries accounts_assets).
Local Notation add_entry := (add_entry accounts_assets).
Local Notation accumulates :=
  (accumulates accounts_assets accounts_intflows).
Local Notation seam := (seam accounts_assets accounts_intflows).
Local Notation n_external := (n_external accounts_assets accounts_intflows).

Lemma skip_entries_snapshot db iter_entries : ∀ entry (inv : gmap Lot Qc),
  match skip_snap db iter_entries entry inv tt with
  | inl (inv', _) =>
      inv' = add_entries inv (entry :: iter_entries) ∧
      Forall (λ e, entry_date e < db) (entry :: iter_entries)
  | inr (e1, it1, inv', _) =>
      ∃ skipped, entry :: iter_entries = skipped ++ e1 :: it1 ∧
        inv' = add_entries inv skipped ∧
        Forall (λ e, entry_date e < db) skipped ∧
        (db ≤ entry_date e1 ∨ at_or_after_end date_end (entry_date e1) = true)
  end.
Proof.
  induction iter_entries as [|e it IH]; intros entry inv; simpl.
  - case_bool_decide.
    { exists []. split_and!; [done|done|constructor|by left]. }
    destruct (at_or_after_end date_end _) eqn:Hend.
    { exists []. split_and!; [done|done|constructor|by right]. }
    rewrite sum_balances_snapshot. split; [done|].
    apply Forall_singleton. lia.
  - case_bool_decide.
    { exists []. split_and!; [done|done|constructor|by left]. }
    destruct (at_or_after_end date_end _) eqn:Hend.
    { exists []. split_and!; [done|done|constructor|by right]. }
    rewrite sum_balances_snapshot.
    specialize (IH e (add_entry inv entry)).
    destruct (skip_snap db it e _ tt) as [[inv' []]|[[[e1 it1] inv'] []]].
    + destruct IH as [-> Hall]. split; [done|].
      apply Forall_cons. split; [lia|done].
    + destruct IH as (skipped & Heq & -> & Hall & Hstop).
      exists (entry :: skipped). rewrite Heq.
      split_and!; [done|done| |done].
      apply Forall_cons. split; [lia|done].
Qed.

Lemma inner_loop_snapshot iter_entries : ∀ entry (inv : gmap Lot Qc),
  let x := inner_snap iter_entries entry inv tt in
  ∃ consumed rest,
    entry :: iter_entries = consumed ++ rest ∧
    Forall (λ e, is_ext e = false) consumed ∧
    ie_balance x = add_entries inv consumed ∧
    if ie_done x then date_end = None → rest = []
    else rest = ie_entry x :: ie_iter x ∧ is_ext (ie_entry x) = true ∧
         ie_period_end x = entry_date (ie_entry x).
Proof.
  induction iter_entries as [|e it IH]; intros entry inv; simpl.
  - destruct (is_ext entry) eqn:Hext; simpl.
    { exists [], [entry]. split_and!; try done. }
    destruct (at_or_after_end date_end _) eqn:Hend; simpl.
    { exists [], [entry]. split_and!; try done.
      intros Hn. unfold at_or_after_end in Hend. by rewrite Hn in Hend. }
    rewrite sum_balances_snapshot. simpl.
    exists [entry], []. split_and!; try done. by apply Forall_singleton.
  - destruct (is_ext entry) eqn:Hext; simpl.
    { exists [], (entry :: e :: it). split_and!; try done. }
    destruct (at_or_after_end date_end _) eqn:Hend; simpl.
    { exists [], (entry :: e :: it). split_and!; try done.
      intros Hn. unfold at_or_after_end in Hend. by rewrite Hn in Hend. }
    rewrite sum_balances_snapshot.
    destruct (IH e (add_entry inv entry))
      as (consumed & rest & Heq & Hall & Hbal & Hexit).
    exists (entry :: consumed), rest. rewrite Heq.
    split_and!; try done. by apply Forall_cons.
Qed.

Lemma accumulates_prefix (pre stream : list Directive) p :
  accumulates stream p → accumulates (pre ++ stream) p.
Proof.
  intros (l1 & consumed & l2 & -> & Hall & Hbal).
  exists (pre ++ l1), consumed, l2. by rewrite <- app_assoc.
Qed.

Lemma seam_prefix (pre stream : list Directive) p q :
  seam stream p q → seam (pre ++ stream) p q.
Proof.
  intros (e & Hin & Hext & Hd & Hbal). exists e.
  split_and!; try done. apply elem_of_app. by right.
Qed.

Lemma main_loop_snapshot fuel : ∀ iter_entries entry (inv : gmap Lot Qc)
    period_begin periods ps,
  main_snap fuel iter_entries entry inv tt period_begin periods =
    Some (Returns (ps, tt)) →
  ∃ new, ps = periods ++ new ∧
    balance_begin <$> head new = Some inv ∧
    Forall (accumulates (entry :: iter_entries)) new ∧
    (∀ i p q, new !! i = Some p → new !! S i = Some q →
              seam (entry :: iter_entries) p q) ∧
    (date_end = None →
     length new =
       (n_external (entry :: iter_entries) +
        if is_ext (last_entry entry iter_entries) then 0 else 1)%nat).
Proof.
  induction fuel as [|fuel IH]; intros it entry inv pb periods ps; [done|].
  simpl.
  pose proof (inner_loop_snapshot it entry inv) as Hx. simpl in Hx.
  destruct (inner_snap it entry inv tt) as [pe dn e1 it1 inv1 []].
  simpl in *.
  destruct Hx as (consumed & rest & Heq & Hall & -> & Hexit).
  set (p := mkPeriod pb pe inv (add_entries inv consumed)).
  assert (Hacc : accumulates (entry :: it) p).
  { exists [], consumed, rest. by rewrite Heq. }
  destruct dn; simpl.
  { intros [= <-]. exists [p]. split_and!; try done.
    - by apply Forall_singleton.
    - intros Hn. rewrite (Hexit Hn), app_nil_r in Heq.
      rewrite Heq, n_external_none by done. simpl.
      assert (Hlast : is_ext (last_entry entry it) = false).
      { pose proof (last_entry_last entry it) as Hl. rewrite Heq in Hl.
        apply last_Some_elem_of in Hl.
        rewrite Forall_forall in Hall. by apply Hall. }
      by rewrite Hlast. }
  destruct Hexit as (-> & Hext & Hpe). rewrite Hext. simpl.
  rewrite sum_balances_snapshot.
  assert (Hin1 : e1 ∈ entry :: it).
  { rewrite Heq. apply elem_of_app. right. by left. }
  destruct it1 as [|e2 it2].
  - destruct date_end as [de|] eqn:Hde; intros [= <-].
    + set (q := mkPeriod pe de (add_entry (add_entries inv consumed) e1)
                         (add_entry (add_entries inv consumed) e1)).
      exists [p; q]. rewrite <- app_assoc. split_and!; try done.
      * apply Forall_cons. split; [done|]. apply Forall_singleton.
        exists (entry :: it), [], []. by rewrite app_nil_r.
      * intros [|[|i]] p' q'; simpl; intros; simplify_eq.
        by exists e1.
    + exists [p]. split_and!; try done.
      * by apply Forall_singleton.
      * intros _. rewrite Heq, n_external_app, n_external_none by done.
        rewrite (last_entry_app_cons _ _ _ _ _ Heq). simpl.
        rewrite n_external_cons_ext, Hext by done. done.
  - intros Hrec. apply IH in Hrec as (new & -> & Hhd & Haccs & Hseams & Hlen).
    exists (p :: new). rewrite <- app_assoc. split_and!; try done.
    + apply Forall_cons. split; [done|].
      eapply Forall_impl; [exact Haccs|]. intros q Hq. rewrite Heq.
      replace (consumed ++ e1 :: e2 :: it2)
        with ((consumed ++ [e1]) ++ e2 :: it2) by by rewrite <- app_assoc.
      by apply accumulates_prefix.
    + intros [|i] p' q' Hp Hq; simpl in *.
      * simplify_eq. destruct new as [|q0 new]; simplify_eq/=.
        by exists e1.
      * rewrite Heq.
        replace (consumed ++ e1 :: e2 :: it2)
          with ((consumed ++ [e1]) ++ e2 :: it2) by by rewrite <- app_assoc.
        apply seam_prefix. by eapply Hseams.
    + intros Hn. simpl. rewrite (Hlen Hn).
      rewrite Heq, n_external_app.
      rewrite (n_external_none _ _ consumed) by done.
      rewrite (last_entry_app_cons _ _ _ _ _ Heq). simpl.
      rewrite (n_external_cons_ext _ _ e1) by done. done.
Qed.

End balances_facts.

(** What the heap run returns, read by its caller, is what the run under
    value semantics returns. *)
Lemma segment_periods_read (accounts_assets accounts_intflows : gset string)
    (date_begin date_end : option date) (entries : list Directive) :
  read_result (segment_periods (mem := PyHeap) accounts_assets
                 accounts_intflows date_begin date_end entries) =
  read_result (segment_periods (mem := Snapshots) accounts_assets
                 accounts_intflows date_begin date_end entries).
Proof.
  unfold segment_periods.
  destruct (dates_misordered _ _); [done|].
  destruct (filter _ entries) as [|entry it]; [done|].
  cbn [new_inventory mem_empty PyHeap Snapshots heap_alloc length app].
  assert (Hl : (0 < length [(∅ : gmap Lot Qc)])%nat) by (simpl; lia).
  destruct date_begin as [db|].
  - pose proof (skip_entries_heap accounts_assets date_end db it entry
                  [∅] 0%nat Hl) as Hs.
    change (heap_read [∅] 0) with (∅ : gmap Lot Qc) in Hs.
    destruct (skip_entries _ _ _ it entry 0%nat _)
      as [[l h]|[[[e1 it1] l1] h1]];
      destruct (skip_entries _ _ _ it entry ∅ tt)
        as [[inv2 []]|[[[e2 it2] inv2] []]]; try done.
    + destruct Hs as (H1 & H2 & H3 & H4). cbn [fst snd] in *. subst l.
      cbn [read_result fmap list_fmap]. unfold read_period; simpl.
      by rewrite H3.
    + destruct Hs as (-> & -> & H1 & H2 & H3 & H4). cbn [fst snd] in *.
      subst l1.
      rewrite main_loop_heap; [by rewrite H3| rewrite H2; simpl; lia | done].
  - by rewrite main_loop_heap.
Qed.

Lemma segment_periods_snapshot_balances
    (accounts_assets accounts_intflows : gset string)
    (date_begin date_end : option date) (entries : list Directive)
    (entry : Directive) (iter_entries : list Directive) :
  dates_misordered date_begin date_end = false →
  asset_entries accounts_assets entries = entry :: iter_entries →
  let stream := entry :: iter_entries in
  ∃ ps,
    segment_periods (mem := Snapshots) accounts_assets accounts_intflows
      date_begin date_end entries = Some (Returns (ps, tt)) ∧
    balance_begin <$> head ps =
      Some (add_entries accounts_assets ∅
              match date_begin with
              | Some db => entries_before db stream
              | None => []
              end) ∧
    Forall (accumulates accounts_assets accounts_intflows stream) ps ∧
    (∀ i p q, ps !! i = Some p → ps !! S i = Some q →
              seam accounts_assets accounts_intflows stream p q) ∧
    (date_begin = None → date_end = None →
     length ps =
       (n_external accounts_assets accounts_intflows stream +
        if is_external_flow_entry accounts_assets accounts_intflows
             (last_entry entry iter_entries) then 0 else 1)%nat) ∧
    (∀ db, date_begin = Some db → all_before db stream →
       ps = [mkPeriod db (default db date_end)
               (add_entries accounts_assets ∅ stream)
               (add_entries accounts_assets ∅ stream)]).
Proof.
  intros Hmis Hfilter stream. unfold segment_periods.
  unfold asset_entries in Hfilter. rewrite Hmis, Hfilter.
  cbn [new_inventory mem_empty Snapshots].
  destruct date_begin as [db|] eqn:Hdb.
  - pose proof (skip_entries_snapshot accounts_assets date_end db
                  iter_entries entry ∅) as Hs.
    destruct (skip_entries _ _ db iter_entries entry ∅ tt)
      as [[inv' []]|[[[e1 it1] inv'] []]] eqn:Hskip.
    + destruct Hs as [-> Hall]. eexists. split; [done|].
      rewrite entries_before_all by done.
      split_and!; try done.
      * apply Forall_singleton. exists stream, [], [].
        by rewrite app_nil_r.
      * intros db' [= <-] _. done.
    + destruct Hs as (skipped & Heq & -> & Hall & Hstop).
      assert (Hle : db ≤ entry_date e1).
      { destruct Hstop as [?|Hend]; [done|].
        unfold at_or_after_end in Hend.
        destruct date_end as [de|]; [|done].
        apply bool_decide_eq_true in Hend.
        unfold dates_misordered in Hmis.
        apply bool_decide_eq_false in Hmis. lia. }
      destruct (main_loop_fuel (mem := Snapshots) accounts_assets
                  accounts_intflows date_end (S (length it1)) it1 e1
                  (add_entries accounts_assets ∅ skipped) tt db [])
        as [r Hr]; [lia|].
      rewrite Hr.
      pose proof Hr as Hr'.
      apply main_loop_periods in Hr' as (new0 & [] & -> & _).
      apply main_loop_snapshot in Hr as (new & Hnew & Hhd & Hacc & Hsm & _).
      simpl in Hnew. subst new0. exists new. split; [done|].
      fold stream in Heq. rewrite Heq.
      rewrite entries_before_app by done.
      split_and!; try done.
      * eapply Forall_impl; [exact Hacc|]. intros q.
        apply accumulates_prefix.
      * intros i p q Hp Hq. apply seam_prefix. by eapply Hsm.
      * intros db' [= <-] Hbefore. exfalso.
        unfold all_before in Hbefore.
        apply Forall_app in Hbefore as [_ Hb].
        apply Forall_cons in Hb as [Hb _]. lia.
  - destruct (main_loop_fuel (mem := Snapshots) accounts_assets
                accounts_intflows date_end (S (length iter_entries))
                iter_entries entry ∅ tt (entry_date entry) [])
      as [r Hr]; [lia|].
    rewrite Hr.
    pose proof Hr as Hr'.
    apply main_loop_periods in Hr' as (new0 & [] & -> & _).
    apply main_loop_snapshot in Hr as (new & Hnew & Hhd & Hacc & Hsm & Hlen).
    simpl in Hnew. subst new0. exists new. split; [done|].
    split_and!; try done.
Qed.

(** The balances of the periods [segment_periods] returns, as read from the
    heap. *)
Lemma segment_periods_read_balances
    (accounts_assets accounts_intflows : gset string)
    (date_begin date_end : option date) (entries : list Directive) ps :
  read_result (segment_periods (mem := PyHeap) accounts_assets
                 accounts_intflows date_begin date_end entries) =
    Some (Returns ps) →
  let stream := asset_entries accounts_assets entries in
  balance_begin <$> head ps =
    Some (add_entries accounts_assets ∅
            match date_begin with
            | Some db => entries_before db stream
            | None => []
            end) ∧
  Forall (accumulates accounts_assets accounts_intflows stream) ps ∧
  (∀ i p q, ps !! i = Some p → ps !! S i = Some q →
            seam accounts_assets accounts_intflows stream p q) ∧
  (date_begin = None → date_end = None →
   ∃ e, last stream = Some e ∧
     length ps =
       (n_external accounts_assets accounts_intflows stream +
        if is_external_flow_entry accounts_assets accounts_intflows e
        then 0 else 1)%nat).
Proof.
  rewrite segment_periods_read. intros Hrun stream.
  destruct (dates_misordered date_begin date_end) eqn:Hmis.
  { unfold segment_periods in Hrun. by rewrite Hmis in Hrun. }
  destruct (asset_entries accounts_assets entries) as [|entry it] eqn:Hf.
  { rewrite (segment_periods_no_asset_entry (mem := Snapshots) _ _ _ _ _
               Hmis Hf) in Hrun. done. }
  destruct (segment_periods_snapshot_balances accounts_assets
              accounts_intflows date_begin date_end entries entry it
              Hmis Hf) as (ps' & Hrun' & Hhd & Hacc & Hsm & Hlen & _).
  rewrite Hrun' in Hrun. simpl in Hrun.
  rewrite read_period_snapshot in Hrun. injection Hrun as <-.
  subst stream. split_and!; try done.
  intros Hb He. exists (last_entry entry it).
  split; [apply last_entry_last|by apply Hlen].
Qed.

(** X3: [segment_periods] either raises [ValueError], or raises [StopIteration],
    which it does exactly when the dates are ordered and no entry is
    asset-relevant, or returns at least one period; the assertion of line
    223 never fails. *)
Theorem segment_periods_outcome (accounts_assets accounts_intflows : gset string)
    (date_begin date_end : option date) (entries : list Directive) :
  let run := segment_periods (mem := PyHeap) accounts_assets
               accounts_intflows date_begin date_end entries in
  (run = Some (Raises StopIteration) ↔
     dates_misordered date_begin date_end = false ∧
     asset_entries accounts_assets entries = []) ∧
  (∀ e, run = Some (Raises e) → e = ValueError ∨ e = StopIteration) ∧
  (∀ periods h, run = Some (Returns (periods, h)) →
     periods ≠ [] ∧ asset_entries accounts_assets entries ≠ []).
Proof.
  intros run. subst run.
  destruct (dates_misordered date_begin date_end) eqn:Hmis.
  { unfold segment_periods. rewrite Hmis.
    split_and!; [split; [done|by intros [[=] _]]|..].
    - intros e [= <-]. by left.
    - done. }
  destruct (asset_entries accounts_assets entries) as [|entry it] eqn:Hf.
  { rewrite (segment_periods_no_asset_entry _ _ _ _ _ Hmis Hf).
    split_and!; [done|..].
    - intros e [= <-]. by right.
    - done. }
  destruct (segment_periods_dates (mem := PyHeap) accounts_assets
              accounts_intflows date_begin date_end entries entry it
              Hmis Hf) as (periods & h & -> & Hne & _).
  split_and!.
  - split; [done|by intros [_ [=]]].
  - done.
  - intros ps h' [= <- <-]. done.
Qed.

(** X4: The first period begins with the asset postings of the entries dated
    before [date_begin] that head the stream of asset-relevant entries, and
    with an empty balance when no [date_begin] is given. *)
Theorem segment_periods_opening_balance
    (accounts_assets accounts_intflows : gset string)
    (date_begin date_end : option date) (entries : list Directive)
    (ps : list (Period (gmap Lot Qc))) :
  read_result (segment_periods (mem := PyHeap) accounts_assets
                 accounts_intflows date_begin date_end entries) =
    Some (Returns ps) →
  balance_begin <$> head ps =
    Some (add_entries accounts_assets ∅
            match date_begin with
            | Some db =>
                entries_before db (asset_entries accounts_assets entries)
            | None => []
            end).
Proof.
  intros Hrun.
  by destruct (segment_periods_read_balances _ _ _ _ _ _ Hrun) as (H & _).
Qed.

Lemma segment_periods_opening_balance_witness :
  balance_begin <$> head
    [mkPeriod 737425 737425 (∅ : gmap Lot Qc) ∅;
     mkPeriod 737425 737577
       {[mkLot "USD" None := Q2Qc (inject_Z 1000)]}
       {[mkLot "USD" None := Q2Qc (inject_Z 1000)]};
     mkPeriod 737577 737791
       {[mkLot "USD" None := Q2Qc (inject_Z 2000)]}
       {[mkLot "USD" None := Q2Qc (inject_Z 2100)]}] =
  Some (add_entries ledger_assets ∅ []).
Proof.
  apply (segment_periods_opening_balance ledger_assets ledger_intflows
           None None ledger).
  exact ledger_periods.
Defined.

(** X5: Between its begin and its end balance every period accumulates a run of
    consecutive asset-relevant entries none of which is an external flow
    entry: no external flow lies inside a period. *)
Theorem segment_periods_no_external_inside
    (accounts_assets accounts_intflows : gset string)
    (date_begin date_end : option date) (entries : list Directive)
    (ps : list (Period (gmap Lot Qc))) :
  read_result (segment_periods (mem := PyHeap) accounts_assets
                 accounts_intflows date_begin date_end entries) =
    Some (Returns ps) →
  Forall (accumulates accounts_assets accounts_intflows
            (asset_entries accounts_assets entries)) ps.
Proof.
  intros Hrun.
  by destruct (segment_periods_read_balances _ _ _ _ _ _ Hrun)
    as (_ & H & _).
Qed.

Lemma segment_periods_no_external_inside_witness :
  Forall (accumulates ledger_assets ledger_intflows
            (asset_entries ledger_assets ledger))
    [mkPeriod 737425 737425 (∅ : gmap Lot Qc) ∅;
     mkPeriod 737425 737577
       {[mkLot "USD" None := Q2Qc (inject_Z 1000)]}
       {[mkLot "USD" None := Q2Qc (inject_Z 1000)]};
     mkPeriod 737577 737791
       {[mkLot "USD" None := Q2Qc (inject_Z 2000)]}
       {[mkLot "USD" None := Q2Qc (inject_Z 2100)]}].
Proof.
  apply (segment_periods_no_external_inside ledger_assets ledger_intflows
           None None ledger).
  exact ledger_periods.
Defined.

(** X6: Two consecutive periods meet at an external flow entry: it is dated at
    the end of the first period, and its asset postings take the end balance
    of the first period to the begin balance of the second. *)
Theorem segment_periods_seams
    (accounts_assets accounts_intflows : gset string)
    (date_begin date_end : option date) (entries : list Directive)
    (ps : list (Period (gmap Lot Qc))) :
  read_result (segment_periods (mem := PyHeap) accounts_assets
                 accounts_intflows date_begin date_end entries) =
    Some (Returns ps) →
  ∀ i p q, ps !! i = Some p → ps !! S i = Some q →
    seam accounts_assets accounts_intflows
         (asset_entries accounts_assets entries) p q.
Proof.
  intros Hrun.
  by destruct (segment_periods_read_balances _ _ _ _ _ _ Hrun)
    as (_ & _ & H & _).
Qed.

Lemma segment_periods_seams_witness :
  seam ledger_assets ledger_intflows (asset_entries ledger_assets ledger)
    (mkPeriod 737425 737577
       {[mkLot "USD" None := Q2Qc (inject_Z 1000)]}
       {[mkLot "USD" None := Q2Qc (inject_Z 1000)]})
    (mkPeriod 737577 737791
       {[mkLot "USD" None := Q2Qc (inject_Z 2000)]}
       {[mkLot "USD" None := Q2Qc (inject_Z 2100)]}).
Proof.
  apply (segment_periods_seams ledger_assets ledger_intflows None None
           ledger _ ledger_periods 1%nat); reflexivity.
Defined.

(** X7: Without dates, the periods are as many as the external flow entries of
    the stream, and one more when the last asset-relevant entry is not an
    external flow entry. *)
Theorem segment_periods_count
    (accounts_assets accounts_intflows : gset string)
    (entries : list Directive) (ps : list (Period (gmap Lot Qc))) :
  read_result (segment_periods (mem := PyHeap) accounts_assets
                 accounts_intflows None None entries) = Some (Returns ps) →
  ∃ e, last (asset_entries accounts_assets entries) = Some e ∧
    length ps =
      (n_external accounts_assets accounts_intflows
         (asset_entries accounts_assets entries) +
       if is_external_flow_entry accounts_assets accounts_intflows e
       then 0 else 1)%nat.
Proof.
  intros Hrun.
  destruct (segment_periods_read_balances _ _ _ _ _ _ Hrun)
    as (_ & _ & _ & Hlen).
  by apply Hlen.
Qed.

Lemma segment_periods_count_witness :
  ∃ e, last (asset_entries ledger_assets ledger) = Some e ∧
    length
      [mkPeriod 737425 737425 (∅ : gmap Lot Qc) ∅;
       mkPeriod 737425 737577
         {[mkLot "USD" None := Q2Qc (inject_Z 1000)]}
         {[mkLot "USD" None := Q2Qc (inject_Z 1000)]};
       mkPeriod 737577 737791
         {[mkLot "USD" None := Q2Qc (inject_Z 2000)]}
         {[mkLot "USD" None := Q2Qc (inject_Z 2100)]}] =
      (n_external ledger_assets ledger_intflows
         (asset_entries ledger_assets ledger) +
       if is_external_flow_entry ledger_assets ledger_intflows e
       then 0 else 1)%nat.
Proof.
  apply (segment_periods_count ledger_assets ledger_intflows ledger).
  exact ledger_periods.
Defined.

Lemma segment_periods_all_before_content
    (accounts_assets accounts_intflows : gset string)
    (db : date) (date_end : option date) (entries : list Directive) :
  dates_misordered (Some db) date_end = false →
  asset_entries accounts_assets entries ≠ [] →
  all_before db (asset_entries accounts_assets entries) →
  ∃ balance h,
    segment_periods (mem := PyHeap) accounts_assets accounts_intflows
      (Some db) date_end entries =
    Some (Returns ([mkPeriod db (default db date_end) balance balance], h)) ∧
    heap_read h balance =
      add_entries accounts_assets ∅ (asset_entries accounts_assets entries).
Proof.
  intros Hmis Hne Hall.
  destruct (asset_entries accounts_assets entries) as [|entry it] eqn:Hf;
    [done|].
  destruct (segment_periods_all_before (mem := PyHeap) accounts_assets
              accounts_intflows (Some db) date_end entries entry it db
              Hmis eq_refl Hf Hall) as (balance & h & Hrun).
  exists balance, h. split; [done|].
  pose proof (segment_periods_read accounts_assets accounts_intflows
                (Some db) date_end entries) as Hread.
  rewrite Hrun in Hread.
  destruct (segment_periods_snapshot_balances accounts_assets
              accounts_intflows (Some db) date_end entries entry it
              Hmis Hf) as (ps & Hrun' & _ & _ & _ & _ & Hdeg).
  rewrite Hrun', (Hdeg db eq_refl Hall) in Hread.
  simpl in Hread. by injection Hread as ->.
Qed.

(** X8: When [date_begin] is given, the dates are ordered and every
    asset-relevant entry (there is one) is dated before [date_begin],
    [segment_periods] returns the single period
    [(date_begin, date_end or date_begin, balance, balance)]: its two
    balances are one object, which holds the asset postings of all the
    asset-relevant entries. *)
Theorem segment_periods_degenerate
    (accounts_assets accounts_intflows : gset string)
    (db : date) (date_end : option date) (entries : list Directive) :
  dates_misordered (Some db) date_end = false →
  asset_entries accounts_assets entries ≠ [] →
  all_before db (asset_entries accounts_assets entries) →
  ∃ balance h,
    segment_periods (mem := PyHeap) accounts_assets accounts_intflows
      (Some db) date_end entries =
    Some (Returns ([mkPeriod db (default db date_end) balance balance], h)) ∧
    heap_read h balance =
      add_entries accounts_assets ∅ (asset_entries accounts_assets entries).
Proof.
  intros Hmis Hne Hall.
  destruct (segment_periods_all_before_content accounts_assets
              accounts_intflows db date_end entries Hmis Hne Hall)
    as (balance & h & Hrun & Hread).
  by exists balance, h.
Qed.

Lemma segment_periods_degenerate_witness :
  ∃ balance h,
    segment_periods (mem := PyHeap) ledger_assets ledger_intflows
      (Some 737800) None ledger =
    Some (Returns ([mkPeriod 737800 (default 737800 None) balance balance],
                   h)) ∧
    heap_read h balance =
      add_entries ledger_assets ∅ (asset_entries ledger_assets ledger).
Proof.
  apply (segment_periods_degenerate ledger_assets ledger_intflows 737800
           None ledger).
  - reflexivity.
  - vm_compute. discriminate.
  - replace (asset_entries ledger_assets ledger) with ledger
      by (vm_compute; reflexivity).
    unfold all_before, ledger. repeat constructor.
Defined.

(** ** Periods of a chronological ledger *)

Lemma inner_loop_chronological (accounts_assets accounts_intflows : gset string)
    iter_entries : ∀ entry (inv : gmap Lot Qc) d,
  chronological d (entry :: iter_entries) →
  let x := inner_loop (mem := Snapshots) accounts_assets accounts_intflows
             None iter_entries entry inv tt in
  d ≤ ie_period_end x ∧
  (ie_done x = false →
   chronological (ie_period_end x) (ie_entry x :: ie_iter x)).
Proof.
  induction iter_entries as [|e it IH]; intros entry inv d [Hd Hc]; simpl.
  - destruct (is_external_flow_entry _ _ entry); simpl.
    { split; [done|]. intros _. split; [lia|done]. }
    by destruct (sum_balances_for_accounts _ _ _ _).
  - destruct (is_external_flow_entry _ _ entry); simpl.
    { split; [done|]. intros _. split; [lia|done]. }
    destruct (sum_balances_for_accounts _ _ _ _) as [inv' []].
    destruct (IH e inv' (entry_date entry) Hc) as [Hle Hrest].
    split; [lia|done].
Qed.

Lemma main_loop_chronological (accounts_assets accounts_intflows : gset string)
    fuel : ∀ iter_entries entry (inv : gmap Lot Qc) pb periods ps,
  chronological pb (entry :: iter_entries) →
  Forall (λ p, period_begin p ≤ period_end p) periods →
  main_loop (mem := Snapshots) accounts_assets accounts_intflows None fuel
    iter_entries entry inv tt pb periods = Some (Returns (ps, tt)) →
  Forall (λ p, period_begin p ≤ period_end p) ps.
Proof.
  induction fuel as [|fuel IH]; intros it entry inv pb periods ps Hc Hps;
    [done|].
  simpl.
  pose proof (inner_loop_chronological accounts_assets accounts_intflows
                it entry inv pb Hc) as Hx. simpl in Hx.
  destruct (inner_loop _ _ _ it entry inv tt) as [pe dn e1 it1 inv1 []].
  simpl in *. destruct Hx as [Hle Hrest].
  assert (Hps' : Forall (λ p, period_begin p ≤ period_end p)
                   (periods ++ [mkPeriod pb pe inv inv1])).
  { apply Forall_app. split; [done|]. by apply Forall_singleton. }
  destruct dn; simpl.
  { by intros [= <-]. }
  destruct (is_external_flow_entry _ _ e1); simpl; [|done].
  destruct (sum_balances_for_accounts _ _ _ _) as [inv2 []].
  destruct it1 as [|e2 it2].
  - by intros [= <-].
  - apply IH; [|done]. destruct (Hrest eq_refl) as [Hle' Hc'].
    exact (chronological_weaken pe (entry_date e1) (e2 :: it2) Hle' Hc').
Qed.

(** X9: Without [date_end], on a stream of asset-relevant entries that come in
    the order of their dates, no period ends before it begins. *)
Theorem segment_periods_chronological
    (accounts_assets accounts_intflows : gset string)
    (date_begin : option date) (entries : list Directive)
    (entry : Directive) (iter_entries : list Directive)
    (ps : list (Period (gmap Lot Qc))) :
  asset_entries accounts_assets entries = entry :: iter_entries →
  chronological (entry_date entry) iter_entries →
  read_result (segment_periods (mem := PyHeap) accounts_assets
                 accounts_intflows date_begin None entries) =
    Some (Returns ps) →
  Forall (λ p, period_begin p ≤ period_end p) ps.
Proof.
  intros Hf Hc. rewrite segment_periods_read. unfold segment_periods.
  unfold asset_entries in Hf.
  replace (dates_misordered date_begin None) with false
    by by destruct date_begin.
  rewrite Hf. cbn [new_inventory mem_empty Snapshots].
  destruct date_begin as [db|].
  - pose proof (skip_entries_snapshot accounts_assets None db
                  iter_entries entry ∅) as Hs.
    destruct (skip_entries _ _ db iter_entries entry ∅ tt)
      as [[inv' []]|[[[e1 it1] inv'] []]].
    + simpl. intros [= <-]. apply Forall_singleton. simpl. lia.
    + destruct Hs as (skipped & Heq & -> & Hall & [Hle|[=]]).
      destruct (main_loop _ _ _ _ it1 e1 _ tt db [])
        as [[[ps' []]|e]|] eqn:Hrun; simpl; [|done|done].
      rewrite read_period_snapshot. intros [= <-].
      eapply main_loop_chronological; [|constructor|exact Hrun].
      assert (Hc' : chronological (entry_date entry) (entry :: iter_entries))
        by (split; [lia|done]).
      rewrite Heq in Hc'. apply chronological_suffix in Hc' as [_ [_ Hc']].
      split; [done|exact Hc'].
  - destruct (main_loop _ _ _ _ iter_entries entry _ tt _ [])
      as [[[ps' []]|e]|] eqn:Hrun; simpl; [|done|done].
    rewrite read_period_snapshot. intros [= <-].
    eapply main_loop_chronological; [|constructor|exact Hrun].
    split; [lia|done].
Qed.

Lemma segment_periods_chronological_witness :
  Forall (λ p : Period (gmap Lot Qc), period_begin p ≤ period_end p)
    [mkPeriod 737425 737425 (∅ : gmap Lot Qc) ∅;
     mkPeriod 737425 737577
       {[mkLot "USD" None := Q2Qc (inject_Z 1000)]}
       {[mkLot "USD" None := Q2Qc (inject_Z 1000)]};
     mkPeriod 737577 737791
       {[mkLot "USD" None := Q2Qc (inject_Z 2000)]}
       {[mkLot "USD" None := Q2Qc (inject_Z 2100)]}].
Proof.
  apply (segment_periods_chronological ledger_assets ledger_intflows None
           ledger deposit1 [deposit2; dividend; withdrawal]).
  - vm_compute. reflexivity.
  - vm_compute. repeat split; discriminate.
  - exact ledger_periods.
Defined.

(** * More about the classifier *)

Lemma posted_in_matching_filter re_match entries a :
  posted_in_matching re_match
    (filter (λ e, is_matching re_match e = true) entries) a ↔
  posted_in_matching re_match entries a.
Proof.
  unfold posted_in_matching. split.
  - intros (e & p & Hin & Hm & Hp & Ha).
    apply list_elem_of_filter in Hin as [_ Hin]. eauto 10.
  - intros (e & p & Hin & Hm & Hp & Ha). exists e, p.
    split_and!; try done. by apply list_elem_of_filter.
Qed.

Lemma posted_in_matching_app re_match l1 l2 a :
  posted_in_matching re_match (l1 ++ l2) a ↔
  posted_in_matching re_match l1 a ∨ posted_in_matching re_match l2 a.
Proof.
  unfold posted_in_matching. setoid_rewrite elem_of_app. naive_solver.
Qed.

Lemma account_sets_eq (s1 s2 : AccountSets) :
  (∀ a, a ∈ assets s1 ↔ a ∈ assets s2) →
  (∀ a, a ∈ internal_flows s1 ↔ a ∈ internal_flows s2) →
  (∀ a, a ∈ external_flows s1 ↔ a ∈ external_flows s2) →
  s1 = s2.
Proof.
  destruct s1, s2; simpl. intros H1 H2 H3.
  f_equal; by apply set_eq.
Qed.

(** X10: The accounts of the three sets together are exactly the accounts posted
    to in the matching transactions: every account of a recorded transaction
    is classified, and nothing else is. *)
Theorem find_matching_covers (re_match is_income : string → bool)
    (entries : list Directive) (a : string) :
  let sets := (find_matching re_match is_income entries).2 in
  a ∈ assets sets ∪ internal_flows sets ∪ external_flows sets ↔
  posted_in_matching re_match entries a.
Proof.
  intros sets.
  pose proof (find_matching_spec re_match is_income entries a) as Hs.
  subst sets. destruct (find_matching _ _ entries) as [m sets].
  simpl. destruct Hs as (_ & Ha & Hi & He).
  rewrite !elem_of_union, Ha, Hi, He.
  destruct (re_match a), (is_income a); naive_solver.
Qed.

(** X11: Classifying the matching entries again changes nothing: they all match,
    in the same order, and give the same three sets. *)
Theorem find_matching_again (re_match is_income : string → bool)
    (entries : list Directive) :
  find_matching re_match is_income
    (find_matching re_match is_income entries).1 =
  find_matching re_match is_income entries.
Proof.
  pose proof (λ a, find_matching_spec re_match is_income entries a) as Hs.
  destruct (find_matching _ _ entries) as [m sets] eqn:Hfm. simpl.
  pose proof (λ a, find_matching_spec re_match is_income m a) as Hs'.
  destruct (find_matching _ _ m) as [m' sets'].
  destruct (Hs "") as (Hm & _). destruct (Hs' "") as (Hm' & _).
  assert (Hmm : m' = m).
  { rewrite Hm', Hm. rewrite list_filter_filter.
    apply list_filter_iff. tauto. }
  f_equal; [done|].
  apply account_sets_eq; intros a;
    destruct (Hs a) as (_ & Ha & Hi & He);
    destruct (Hs' a) as (_ & Ha' & Hi' & He');
    rewrite ?Ha, ?Hi, ?He, ?Ha', ?Hi', ?He', Hm;
    by rewrite posted_in_matching_filter.
Qed.

(** X12: Classifying two lists of entries one after the other gives the matching
    entries of the first followed by those of the second, and the unions of
    the account sets. *)
Theorem find_matching_app (re_match is_income : string → bool)
    (entries1 entries2 : list Directive) :
  let r := find_matching re_match is_income (entries1 ++ entries2) in
  let r1 := find_matching re_match is_income entries1 in
  let r2 := find_matching re_match is_income entries2 in
  r.1 = r1.1 ++ r2.1 ∧
  assets r.2 = assets r1.2 ∪ assets r2.2 ∧
  internal_flows r.2 = internal_flows r1.2 ∪ internal_flows r2.2 ∧
  external_flows r.2 = external_flows r1.2 ∪ external_flows r2.2.
Proof.
  intros r r1 r2.
  pose proof (λ a, find_matching_spec re_match is_income
                     (entries1 ++ entries2) a) as Hs.
  pose proof (λ a, find_matching_spec re_match is_income entries1 a) as Hs1.
  pose proof (λ a, find_matching_spec re_match is_income entries2 a) as Hs2.
  subst r r1 r2.
  destruct (find_matching _ _ (entries1 ++ entries2)) as [m s].
  destruct (find_matching _ _ entries1) as [m1 s1].
  destruct (find_matching _ _ entries2) as [m2 s2]. simpl.
  split.
  { destruct (Hs "") as (-> & _), (Hs1 "") as (-> & _), (Hs2 "") as (-> & _).
    apply filter_app. }
  split_and!; apply set_eq; intros a; rewrite elem_of_union;
    destruct (Hs a) as (_ & Ha & Hi & He);
    destruct (Hs1 a) as (_ & Ha1 & Hi1 & He1);
    destruct (Hs2 a) as (_ & Ha2 & Hi2 & He2);
    rewrite ?Ha, ?Hi, ?He, ?Ha1, ?Hi1, ?He1, ?Ha2, ?Hi2, ?He2,
      posted_in_matching_app; tauto.
Qed.

(** * More about the returns *)

Section returns_facts.
Context {F : Type} `{!FloatOps F}.

Lemma pow_items_fails items exponent c (r : F) :
  (c, r) ∈ items → f_pow r exponent = None →
  pow_items items exponent = Raises ArithmeticError.
Proof.
  induction items as [|[c0 r0] items IH]; intros Hin Hp; simpl.
  { by apply elem_of_nil in Hin. }
  destruct (f_pow r0 exponent) as [v0|] eqn:Hp0; [|done].
  apply elem_of_cons in Hin as [[= <- <-]|Hin]; [congruence|].
  by rewrite IH.
Qed.

Lemma annualize_returns_returns (returns : gmap string F) d1 d2 :
  (∃ res, annualize_returns returns d1 d2 = Returns res) ↔
  (d2 - d1 = 0 → ∀ c r, returns !! c = Some r → f_eqb r f_one = true) ∧
  (∀ c r, returns !! c = Some r → is_Some (f_pow r (annual_exponent d1 d2))).
Proof.
  split.
  - intros [res Hres]. split.
    + intros Hz c r Hc. destruct (f_eqb r f_one) eqn:Heq; [done|].
      assert (Hs : some_return_not_one returns = true).
      { apply some_return_not_one_spec. eauto. }
      rewrite annualize_returns_exponent, decide_True, Hs in Hres by done.
      done.
    + intros c r Hc.
      pose proof (annualize_returns_value _ _ _ _ c Hres) as Hv.
      rewrite Hc in Hv. simpl in Hv. rewrite <- Hv.
      apply (annualize_returns_keys _ _ _ _ _ Hres). by rewrite Hc.
  - intros [Hone Hpow].
    destruct (annualize_returns returns d1 d2) as [res|e] eqn:Hr; [eauto|].
    apply annualize_returns_raises in Hr
      as [(_ & Hz & Hs)|(_ & c & r & Hc & Hp)].
    + apply some_return_not_one_spec in Hs as (c & r & Hc & Hne).
      rewrite (Hone Hz c r Hc) in Hne. done.
    + destruct (Hpow c r Hc) as [v Hv]. congruence.
Qed.

Variable PriceMap : Type.
Variable get_inventory_market_value :
  gmap Lot Qc → date → PriceMap → gmap Lot Qc.

Lemma compute_period_returns_lookup (date_begin date_end : date)
    (balance_begin balance_end : gmap Lot Qc) (price_map : PriceMap) :
  let mktvalue_begin :=
    get_inventory_market_value balance_begin date_begin price_map in
  let mktvalue_end :=
    get_inventory_market_value balance_end date_end price_map in
  ∃ returns : gmap string F,
    compute_period_returns PriceMap get_inventory_market_value
      date_begin date_end balance_begin balance_end price_map =
    Returns (returns, (mktvalue_begin, mktvalue_end)) ∧
    ∀ currency,
      returns !! currency =
      if decide (is_Some (plain_amount mktvalue_begin currency) ∨
                 is_Some (plain_amount mktvalue_end currency))
      then Some (let begin :=
                   default ZERO (plain_amount mktvalue_begin currency) in
                 if decide (begin = ZERO) then f_one
                 else float_of_ratio
                        (default ZERO (plain_amount mktvalue_end currency))
                        begin)
      else None.
Proof.
  intros mvb mve. unfold compute_period_returns. fold mvb mve.
  destruct (collect_positions_inventory ∅ mvb)
    as (cs1 & single_begin & -> & Hcs1 & Hsb).
  destruct (collect_positions_inventory cs1 mve)
    as (cs2 & single_end & Hrun & Hcs2 & Hse).
  simpl. rewrite Hrun. simpl. eexists. split; [done|].
  intros currency. cbv zeta.
  rewrite lookup_fold_insert, lookup_empty.
  assert (Hin : currency ∈ elements cs2 ↔
                is_Some (plain_amount mvb currency) ∨
                is_Some (plain_amount mve currency)).
  { rewrite elem_of_elements, Hcs2, Hcs1. set_solver. }
  destruct (decide (currency ∈ elements cs2)) as [H1|H1];
    destruct (decide (_ ∨ _)) as [H2|H2]; try tauto.
  unfold period_return. by rewrite Hsb, Hse.
Qed.

Context {M B : Type} {mem : Memory M B}.

Local Abbreviation period_loop :=
  (period_loop PriceMap get_inventory_market_value).
Local Abbreviation fails :=
  (annualization_fails PriceMap get_inventory_market_value).

(** The loop over the periods stops on the first period whose annualization
    fails, and on nothing else. *)
Lemma period_loop_raises (m : M) price_map periods e :
  period_loop m periods price_map = Raises e ↔
  e = ArithmeticError ∧ Exists (fails m price_map) periods.
Proof.
  induction periods as [|p periods IH]; simpl.
  { split; [done|]. intros [_ Hex]. by apply Exists_nil in Hex. }
  destruct (compute_period_returns_lookup (period_begin p) (period_end p)
              (read_inventory m (balance_begin p))
              (read_inventory m (balance_end p)) price_map)
    as (returns & Hc & _).
  rewrite Hc. simpl.
  assert (Hhead : fails m price_map p ↔
                  period_end p ≠ period_begin p ∧
                  ∃ c r, returns !! c = Some r ∧
                    f_pow r (f_365_div (period_end p - period_begin p))
                      = None).
  { unfold annualization_fails, returns_of_period. split.
    - intros (Hne & returns' & c & r & [mv Hr] & Hl & Hp).
      rewrite Hc in Hr. injection Hr as <- _. eauto.
    - intros (Hne & c & r & Hl & Hp). split; [done|].
      exists returns, c, r. split_and!; [eauto|done..]. }
  rewrite Exists_cons, Hhead.
  destruct (decide (period_end p ≠ period_begin p)) as [Hne|Heq].
  - assert (Hexp : annual_exponent (F := F) (period_begin p) (period_end p)
                   = f_365_div (period_end p - period_begin p)).
    { unfold annual_exponent. rewrite decide_False; [done|lia]. }
    destruct (annualize_returns returns (period_begin p) (period_end p))
      as [annual|e1] eqn:Ha; simpl.
    + assert (Hok : ∀ c r, returns !! c = Some r →
                is_Some (f_pow r (f_365_div (period_end p - period_begin p)))).
      { rewrite <- Hexp. apply annualize_returns_returns. eauto. }
      destruct (period_loop m periods price_map) as [rest|e2]; simpl.
      * split; [done|]. intros [-> [(_ & c & r & Hl & Hp)|Hex]].
        -- destruct (Hok c r Hl) as [v Hv]. congruence.
        -- discriminate (proj2 IH (conj eq_refl Hex)).
      * split.
        -- intros [= <-]. destruct (proj1 IH eq_refl) as [-> Hex]. eauto.
        -- intros [-> [(_ & c & r & Hl & Hp)|Hex]].
           ++ destruct (Hok c r Hl) as [v Hv]. congruence.
           ++ exact (proj2 IH (conj eq_refl Hex)).
    + apply annualize_returns_raises in Ha
        as [(_ & Hz & _)|(-> & c & r & Hl & Hp)]; [lia|].
      rewrite Hexp in Hp. split; [|by intros [-> _]].
      intros [= <-]. split; [done|]. left. eauto.
  - simpl. destruct (period_loop m periods price_map) as [rest|e2]; simpl.
    + split; [done|]. intros [-> [[? _]|Hex]]; [done|].
      discriminate (proj2 IH (conj eq_refl Hex)).
    + split.
      * intros [= <-]. destruct (proj1 IH eq_refl) as [-> Hex]. eauto.
      * intros [-> [[? _]|Hex]]; [done|].
        exact (proj2 IH (conj eq_refl Hex)).
Qed.

Variable build_price_map : list Directive → PriceMap.

(** The three ways [compute_returns] goes. *)
Lemma compute_returns_cases (entries : list Directive)
    (accounts_assets accounts_intflows : gset string)
    (price_map : option PriceMap) (date_begin date_end : option date) :
  let run :=
    compute_returns (M := M) PriceMap get_inventory_market_value
      build_price_map entries accounts_assets accounts_intflows price_map
      date_begin date_end in
  (dates_misordered date_begin date_end = true ∧
   run = Some (Raises ValueError)) ∨
  (dates_misordered date_begin date_end = false ∧
   asset_entries accounts_assets entries = [] ∧
   run = Some (Raises StopIteration)) ∨
  (dates_misordered date_begin date_end = false ∧
   ∃ entry iter_entries periods m p0 pn,
     asset_entries accounts_assets entries = entry :: iter_entries ∧
     segment_periods (M := M) accounts_assets accounts_intflows date_begin
       date_end entries = Some (Returns (periods, m)) ∧
     head periods = Some p0 ∧ last periods = Some pn ∧
     period_begin p0 = default (entry_date entry) date_begin ∧
     period_end pn = final_date date_begin date_end entry iter_entries ∧
     run = Some (all_returns ←
                   period_loop m periods
                     (default (build_price_map entries) price_map);
                 Returns (compound_returns all_returns,
                          (period_begin p0, period_end pn)))).
Proof.
  intros run. subst run. unfold compute_returns.
  destruct (dates_misordered date_begin date_end) eqn:Hmis.
  { left. unfold segment_periods. by rewrite Hmis. }
  right.
  destruct (asset_entries accounts_assets entries) as [|entry it] eqn:Hf.
  { left. by rewrite (segment_periods_no_asset_entry _ _ _ _ _ Hmis Hf). }
  right. split; [done|].
  destruct (segment_periods_dates accounts_assets accounts_intflows
              date_begin date_end entries entry it Hmis Hf)
    as (periods & m & Hseg & Hne & Hcont & Hlast).
  rewrite Hseg. simpl.
  destruct periods as [|p0 periods]; [done|].
  rewrite last_end_last in Hlast.
  destruct (last (p0 :: periods)) as [pn|] eqn:Hpn.
  2: { by apply last_None in Hpn. }
  exists entry, it, (p0 :: periods), m, p0, pn.
  destruct Hcont as [Hb _]. simpl in Hlast.
  split_and!; try done.
Qed.

End returns_facts.

(** ** The annualizer *)

(** X13: [annualize_returns] returns exactly when no return differs from [1.0]
    on a span of 0 days and every return can be raised to the exponent; the
    result then has the currencies of the returns, no more and no fewer. *)
Theorem annualize_returns_succeeds {F : Type} `{!FloatOps F}
    (returns : gmap string F) (date_first date_last : date) :
  ((∃ res, annualize_returns returns date_first date_last = Returns res) ↔
   (date_last - date_first = 0 →
    ∀ c r, returns !! c = Some r → f_eqb r f_one = true) ∧
   (∀ c r, returns !! c = Some r →
      is_Some (f_pow r (annual_exponent date_first date_last)))) ∧
  (∀ res, annualize_returns returns date_first date_last = Returns res →
     dom res = dom returns).
Proof.
  split; [apply annualize_returns_returns|].
  intros res Hres. apply set_eq. intros c. rewrite !elem_of_dom.
  by apply (annualize_returns_keys _ _ _ _ _ Hres).
Qed.

(** ** The aggregator *)

(** X14: [compute_returns] always ends.  It raises [ValueError] exactly when
    both dates are given and [date_begin] is not before [date_end], and
    [StopIteration] exactly when the dates are ordered and no entry is
    asset-relevant; the only other error comes from a float power.  The
    assertions of [compute_period_returns] and [segment_periods] never fail
    and the first and last periods always exist. *)
Theorem compute_returns_errors {F : Type} `{!FloatOps F}
    (PriceMap : Type)
    (get_inventory_market_value : gmap Lot Qc → date → PriceMap → gmap Lot Qc)
    (build_price_map : list Directive → PriceMap)
    (entries : list Directive) (accounts_assets accounts_intflows : gset string)
    (price_map : option PriceMap) (date_begin date_end : option date) :
  let run :=
    compute_returns (F := F) (M := list (gmap Lot Qc)) PriceMap
      get_inventory_market_value build_price_map entries accounts_assets
      accounts_intflows price_map date_begin date_end in
  is_Some run ∧
  (run = Some (Raises ValueError) ↔
     dates_misordered date_begin date_end = true) ∧
  (run = Some (Raises StopIteration) ↔
     dates_misordered date_begin date_end = false ∧
     asset_entries accounts_assets entries = []) ∧
  (∀ e, run = Some (Raises e) →
     e = ValueError ∨ e = StopIteration ∨ e = ArithmeticError).
Proof.
  intros run.
  destruct (compute_returns_cases (F := F) (mem := PyHeap) PriceMap
              get_inventory_market_value build_price_map entries
              accounts_assets accounts_intflows price_map date_begin date_end)
    as [[Hmis Hrun]|[(Hmis & Hf & Hrun)|(Hmis & entry & it & periods & h & p0
                                          & pn & Hf & _ & _ & _ & _ & _
                                          & Hrun)]];
    fold run in Hrun; rewrite Hrun, Hmis.
  - split_and!; [done|done|split; [done|by intros [[=] _]]|].
    intros e [= <-]. by left.
  - split_and!; [done|done|done|]. intros e [= <-]. right. by left.
  - destruct (period_loop _ _ h periods _) as [all_returns|e0] eqn:Hloop;
      simpl.
    + split_and!; [done|done|..].
      * rewrite Hf. split; [done|by intros [_ [=]]].
      * done.
    + apply period_loop_raises in Hloop as [-> _].
      split_and!; [done|done|..].
      * rewrite Hf. split; [done|by intros [_ [=]]].
      * intros e [= <-]. by right; right.
Qed.

(** X15: The annualized returns of a period are computed for the log only, but
    their errors are not caught: [compute_returns] raises the error of the
    float power exactly when [segment_periods] returns periods one of which
    has days and a return that cannot be raised to [365.0 / days]. *)
Theorem compute_returns_log_error {F : Type} `{!FloatOps F}
    (PriceMap : Type)
    (get_inventory_market_value : gmap Lot Qc → date → PriceMap → gmap Lot Qc)
    (build_price_map : list Directive → PriceMap)
    (entries : list Directive) (accounts_assets accounts_intflows : gset string)
    (price_map : option PriceMap) (date_begin date_end : option date) :
  compute_returns (F := F) (M := list (gmap Lot Qc)) PriceMap
    get_inventory_market_value build_price_map entries accounts_assets
    accounts_intflows price_map date_begin date_end =
    Some (Raises ArithmeticError) ↔
  ∃ periods h,
    segment_periods (mem := PyHeap) accounts_assets accounts_intflows
      date_begin date_end entries = Some (Returns (periods, h)) ∧
    Exists (annualization_fails (F := F) PriceMap get_inventory_market_value
              h (default (build_price_map entries) price_map)) periods.
Proof.
  destruct (compute_returns_cases (F := F) (mem := PyHeap) PriceMap
              get_inventory_market_value build_price_map entries
              accounts_assets accounts_intflows price_map date_begin date_end)
    as [[Hmis Hrun]|[(Hmis & Hf & Hrun)|(Hmis & entry & it & periods & h & p0
                                          & pn & Hf & Hseg & _ & _ & _ & _
                                          & Hrun)]];
    cbv zeta in Hrun; rewrite Hrun.
  - split; [done|]. intros (periods & h & Hseg & _).
    unfold segment_periods in Hseg. by rewrite Hmis in Hseg.
  - split; [done|]. intros (periods & h & Hseg & _).
    by rewrite (segment_periods_no_asset_entry _ _ _ _ _ Hmis Hf) in Hseg.
  - rewrite Hseg. split.
    + intros Hr. exists periods, h. split; [done|].
      destruct (period_loop _ _ h periods _) as [all_returns|e0] eqn:Hloop;
        simpl in Hr; [done|].
      by apply period_loop_raises in Hloop as [_ Hex].
    + intros (periods' & h' & [= <- <-] & Hex).
      assert (Hloop : period_loop PriceMap get_inventory_market_value h
                        periods (default (build_price_map entries) price_map)
                      = Raises ArithmeticError)
        by (by apply period_loop_raises).
      by rewrite Hloop.
Qed.

(** X16: The span [compute_returns] reports with the total returns runs from
    [date_begin], or from the date of the first asset-relevant entry when it
    is not given, to [date_end]; without [date_end], to the date of the last
    asset-relevant entry, or to [date_begin] when all of them come before
    it. *)
Theorem compute_returns_span {F : Type} `{!FloatOps F}
    (PriceMap : Type)
    (get_inventory_market_value : gmap Lot Qc → date → PriceMap → gmap Lot Qc)
    (build_price_map : list Directive → PriceMap)
    (entries : list Directive) (accounts_assets accounts_intflows : gset string)
    (price_map : option PriceMap) (date_begin date_end : option date)
    (total_returns : gmap string F) (date_first date_last : date) :
  compute_returns (M := list (gmap Lot Qc)) PriceMap
    get_inventory_market_value build_price_map entries accounts_assets
    accounts_intflows price_map date_begin date_end =
    Some (Returns (total_returns, (date_first, date_last))) →
  ∃ entry iter_entries,
    asset_entries accounts_assets entries = entry :: iter_entries ∧
    date_first = default (entry_date entry) date_begin ∧
    date_last = final_date date_begin date_end entry iter_entries.
Proof.
  destruct (compute_returns_cases (F := F) (mem := PyHeap) PriceMap
              get_inventory_market_value build_price_map entries
              accounts_assets accounts_intflows price_map date_begin date_end)
    as [[Hmis Hrun]|[(Hmis & Hf & Hrun)|(Hmis & entry & it & periods & h & p0
                                          & pn & Hf & Hseg & _ & _ & Hb & He
                                          & Hrun)]];
    cbv zeta in Hrun; rewrite Hrun; [done|done|].
  destruct (period_loop _ _ h periods _) as [all_returns|e0]; simpl; [|done].
  intros [= _ <- <-]. by exists entry, it.
Qed.

Lemma compute_returns_span_witness :
  ∃ entry iter_entries,
    asset_entries ledger_assets year_ledger = entry :: iter_entries ∧
    737425 = default (entry_date entry) None ∧
    737790 = final_date None None entry iter_entries.
Proof.
  apply (compute_returns_span (F := Qc) unit (λ inv _ _, inv) (λ _, tt)
           year_ledger ledger_assets ledger_intflows None None None
           {["USD"%string := Q2Qc (11 # 10)]} 737425 737790).
  vm_compute. reflexivity.
Defined.

(** X17: With a [date_begin] that comes after every asset-relevant entry and no
    [date_end], [compute_returns] reports a return of [1.0] for every
    currency held without cost in the market value of the accumulated
    balance at [date_begin], and the span [(date_begin, date_begin)];
    nothing is annualized.  The floats are taken to give [1.0] for a
    number divided by itself and for [1.0 * 1.0]. *)
Theorem compute_returns_after_last_entry {F : Type} `{!FloatOps F}
    (PriceMap : Type)
    (get_inventory_market_value : gmap Lot Qc → date → PriceMap → gmap Lot Qc)
    (build_price_map : list Directive → PriceMap)
    (entries : list Directive) (accounts_assets accounts_intflows : gset string)
    (price_map : option PriceMap) (db : date) :
  (∀ x : Qc, x ≠ ZERO → float_of_ratio (F := F) x x = f_one) →
  f_mul (F := F) f_one f_one = f_one →
  asset_entries accounts_assets entries ≠ [] →
  all_before db (asset_entries accounts_assets entries) →
  let mktvalue :=
    get_inventory_market_value
      (add_entries accounts_assets ∅ (asset_entries accounts_assets entries))
      db (default (build_price_map entries) price_map) in
  ∃ total_returns : gmap string F,
    compute_returns (M := list (gmap Lot Qc)) PriceMap
      get_inventory_market_value build_price_map entries accounts_assets
      accounts_intflows price_map (Some db) None =
    Some (Returns (total_returns, (db, db))) ∧
    ∀ currency,
      total_returns !! currency =
      if decide (is_Some (plain_amount mktvalue currency)) then Some f_one
      else None.
Proof.
  intros Hratio Hmul Hne Hall mktvalue.
  destruct (segment_periods_all_before_content accounts_assets
              accounts_intflows db None entries eq_refl Hne Hall)
    as (balance & h & Hseg & Hread).
  unfold compute_returns. rewrite Hseg. simpl.
  destruct (compute_period_returns_lookup (F := F) PriceMap
              get_inventory_market_value db db (heap_read h balance)
              (heap_read h balance)
              (default (build_price_map entries) price_map))
    as (returns & Hc & Hl).
  rewrite Hc. simpl. rewrite decide_False by (by intros []). simpl.
  eexists. split; [done|].
  intros currency. rewrite compound_returns_lookup.
  cbv zeta in Hl. rewrite Hread in Hl. fold mktvalue in Hl.
  assert (Hdom : currency ∈ (⋃ (dom <$> [returns]) : gset string) ↔
                 is_Some (plain_amount mktvalue currency)).
  { simpl. rewrite elem_of_union, elem_of_dom, Hl.
    destruct (decide (_ ∨ _)) as [Hh|Hh].
    - split; [tauto|]. intros _. left. eauto.
    - split; [|tauto]. intros [[? [=]]|Hin]. set_solver. }
  destruct (decide (currency ∈ _)) as [Hin|Hnin].
  - rewrite decide_True by (by apply Hdom). f_equal.
    unfold total_return. simpl. rewrite Hl.
    rewrite decide_True by (left; by apply Hdom). simpl.
    destruct (decide (default ZERO (plain_amount mktvalue currency) = ZERO));
      [done|].
    by rewrite Hratio.
  - by rewrite decide_False by (by rewrite <- Hdom).
Qed.

Lemma compute_returns_after_last_entry_witness :
  ∃ total_returns : gmap string Qc,
    compute_returns (M := list (gmap Lot Qc)) unit (λ inv _ _, inv)
      (λ _, tt) ledger ledger_assets ledger_intflows None (Some 737800) None =
    Some (Returns (total_returns, (737800, 737800))) ∧
    ∀ currency,
      total_returns !! currency =
      if decide (is_Some (plain_amount
                            (add_entries ledger_assets ∅
                               (asset_entries ledger_assets ledger))
                            currency))
      then Some (f_one (F := Qc)) else None.
Proof.
  apply (compute_returns_after_last_entry (F := Qc) unit (λ inv _ _, inv)
           (λ _, tt) ledger ledger_assets ledger_intflows None 737800).
  - intros x Hx. simpl. by apply Qcmult_inv_r.
  - compute_done.
  - vm_compute. discriminate.
  - replace (asset_entries ledger_assets ledger) with ledger
      by (vm_compute; reflexivity).
    unfold all_before, ledger. repeat constructor.
Defined.

(** * More about [compute_returns_with_regexp] *)

Section regexp_facts.
Variable re_match : string → bool.
Variable is_income_statement_account : string → bool.

Lemma any_match_posting postings posting :
  posting ∈ postings → re_match (account posting) = true →
  any_match re_match postings = true.
Proof.
  intros Hin Hm. apply existsb_exists. exists posting.
  split; [by apply list_elem_of_In|done].
Qed.

Lemma posted_in_matching_posting entries d postings posting posting' :
  Transaction d postings ∈ entries →
  posting ∈ postings → re_match (account posting) = true →
  posting' ∈ postings →
  posted_in_matching re_match entries (account posting').
Proof.
  intros Hin Hp Hm Hp'. exists (Transaction d postings), posting'.
  split_and!; try done. simpl. exact (any_match_posting _ _ Hp Hm).
Qed.

(** The entries the segmenter keeps, for the asset accounts of the
    classifier: there are none exactly when no posting of the entries goes
    to a matching account other than an income statement account. *)
Lemma regexp_asset_entries_nil entries :
  asset_entries
    (assets (find_matching re_match is_income_statement_account entries).2)
    entries = [] ↔
  ∀ entry posting, entry ∈ entries → posting ∈ postings_of entry →
    re_match (account posting) = true →
    is_income_statement_account (account posting) = true.
Proof.
  pose proof (λ a, find_matching_spec re_match is_income_statement_account
                     entries a) as Hs.
  destruct (find_matching _ _ entries) as [m sets]. simpl.
  assert (Ha : ∀ a, a ∈ assets sets ↔
                    posted_in_matching re_match entries a ∧
                    re_match a = true ∧
                    is_income_statement_account a = false)
    by (intros a; apply (Hs a)).
  clear Hs. unfold asset_entries. split.
  - intros Hnil entry posting Hin Hp Hm.
    destruct (is_income_statement_account (account posting)) eqn:Hi; [done|].
    exfalso. destruct entry as [d postings|d accounts]; simpl in Hp.
    2: { by apply elem_of_nil in Hp. }
    apply (filter_nil_not_elem_of _ _ (Transaction d postings) Hnil);
      [|done].
    unfold is_asset_entry. apply bool_decide_eq_true. simpl.
    apply (non_empty_inhabited_L (account posting)).
    apply elem_of_intersection. split.
    + apply elem_of_list_to_set, list_elem_of_fmap. eauto.
    + apply Ha. split_and!; [|done..].
      exact (posted_in_matching_posting _ _ _ _ _ Hin Hp Hm Hp).
  - intros Hall.
    destruct (filter _ entries) as [|entry it] eqn:Hf; [done|]. exfalso.
    assert (Hin : entry ∈ filter
                    (λ e, is_asset_entry (assets sets) e = true) entries)
      by (rewrite Hf; left).
    apply list_elem_of_filter in Hin as [Hasset Hin].
    unfold is_asset_entry in Hasset. apply bool_decide_eq_true in Hasset.
    apply set_choose_L in Hasset as [a Hx].
    apply elem_of_intersection in Hx as [_ Hx].
    apply Ha in Hx as ((e & p & He & _ & Hp & <-) & Hm & Hi).
    rewrite (Hall e p He Hp Hm) in Hi. done.
Qed.

End regexp_facts.

(** X18: With the account sets [find_matching] gives for the entries, as
    [compute_returns_with_regexp] passes them on, the segmenter keeps a
    transaction of the entries exactly when one of its postings goes to a
    matching account that is not an income statement account, and cuts a
    period at it exactly when one of its postings goes to an account that
    does not match. *)
Theorem regexp_sets_select_transactions
    (re_match is_income_statement_account : string → bool)
    (entries : list Directive) (d : date) (postings : list Posting) :
  Transaction d postings ∈ entries →
  let sets :=
    (find_matching re_match is_income_statement_account entries).2 in
  (is_asset_entry (assets sets) (Transaction d postings) = true ↔
     Exists (λ posting, re_match (account posting) = true ∧
                        is_income_statement_account (account posting) = false)
            postings) ∧
  (is_external_flow_entry (assets sets) (internal_flows sets)
     (Transaction d postings) = true ↔
     Exists (λ posting, re_match (account posting) = false) postings).
Proof.
  intros Hin sets.
  pose proof (λ a, find_matching_spec re_match is_income_statement_account
                     entries a) as Hs.
  subst sets. destruct (find_matching _ _ entries) as [m sets]. simpl.
  assert (Ha : ∀ a, a ∈ assets sets ↔
                    posted_in_matching re_match entries a ∧
                    re_match a = true ∧
                    is_income_statement_account a = false)
    by (intros a; apply (Hs a)).
  assert (Hi : ∀ a, a ∈ internal_flows sets ↔
                    posted_in_matching re_match entries a ∧
                    re_match a = true ∧
                    is_income_statement_account a = true)
    by (intros a; apply (Hs a)).
  clear Hs. rewrite !Exists_exists. split.
  - unfold is_asset_entry. rewrite bool_decide_eq_true. simpl. split.
    + intros Hne. apply set_choose_L in Hne as [a Hx].
      apply elem_of_intersection in Hx as [Hacc Hx].
      apply elem_of_list_to_set, list_elem_of_fmap in Hacc
        as (p & -> & Hp).
      apply Ha in Hx as (_ & ? & ?). eauto.
    + intros (p & Hp & Hm & Hinc).
      apply (non_empty_inhabited_L (account p)).
      apply elem_of_intersection. split.
      * apply elem_of_list_to_set, list_elem_of_fmap. eauto.
      * apply Ha. split_and!; [|done..].
        by eapply posted_in_matching_posting.
  - rewrite existsb_exists. unfold accounts_related. split.
    + intros (p & Hp%list_elem_of_In & Hnr%bool_decide_eq_true).
      exists p. split; [done|].
      destruct (re_match (account p)) eqn:Hm; [|done].
      exfalso. apply Hnr. apply elem_of_union.
      assert (posted_in_matching re_match entries (account p))
        by (by eapply posted_in_matching_posting).
      destruct (is_income_statement_account (account p)) eqn:Hinc;
        [right; by apply Hi|left; by apply Ha].
    + intros (p & Hp & Hm). exists p. split; [by apply list_elem_of_In|].
      apply bool_decide_eq_true. rewrite elem_of_union, Ha, Hi.
      intros [(_ & ? & _)|(_ & ? & _)]; congruence.
Qed.

Lemma regexp_sets_select_transactions_witness :
  let sets :=
    (find_matching (String.eqb brokerage) (String.eqb dividends) ledger).2 in
  (is_asset_entry (assets sets)
     (Transaction 737425 [mkPosting brokerage (usd 1000);
                          mkPosting checking (usd (-1000))]) = true ↔
     Exists (λ posting, String.eqb brokerage (account posting) = true ∧
                        String.eqb dividends (account posting) = false)
            [mkPosting brokerage (usd 1000);
             mkPosting checking (usd (-1000))]) ∧
  (is_external_flow_entry (assets sets) (internal_flows sets)
     (Transaction 737425 [mkPosting brokerage (usd 1000);
                          mkPosting checking (usd (-1000))]) = true ↔
     Exists (λ posting, String.eqb brokerage (account posting) = false)
            [mkPosting brokerage (usd 1000);
             mkPosting checking (usd (-1000))]).
Proof.
  apply (regexp_sets_select_transactions (String.eqb brokerage)
           (String.eqb dividends) ledger 737425
           [mkPosting brokerage (usd 1000);
            mkPosting checking (usd (-1000))]).
  unfold ledger, deposit1. left.
Defined.

(** X19: [compute_returns_with_regexp] raises [ValueError] exactly when both
    dates are given and [date_begin] is not before [date_end], and
    [StopIteration] exactly when the dates are ordered and no posting of the
    entries goes to a matching account other than an income statement
    account; directives that are not transactions never make it run. *)
Theorem compute_returns_with_regexp_errors {F : Type} `{!FloatOps F}
    (PriceMap : Type)
    (get_inventory_market_value : gmap Lot Qc → date → PriceMap → gmap Lot Qc)
    (build_price_map : list Directive → PriceMap)
    (entries : list Directive)
    (is_income_statement_account re_match : string → bool)
    (date_begin date_end : option date) :
  let run :=
    compute_returns_with_regexp (F := F) (M := list (gmap Lot Qc)) PriceMap
      get_inventory_market_value build_price_map entries
      is_income_statement_account re_match date_begin date_end in
  (run = Some (Raises ValueError) ↔
     dates_misordered date_begin date_end = true) ∧
  (run = Some (Raises StopIteration) ↔
     dates_misordered date_begin date_end = false ∧
     ∀ entry posting, entry ∈ entries → posting ∈ postings_of entry →
       re_match (account posting) = true →
       is_income_statement_account (account posting) = true).
Proof.
  intros run. subst run. unfold compute_returns_with_regexp.
  rewrite <- (regexp_asset_entries_nil re_match is_income_statement_account
                entries).
  destruct (find_matching _ _ entries) as [m sets]. simpl.
  destruct (compute_returns_cases (F := F) (mem := PyHeap) PriceMap
              get_inventory_market_value build_price_map entries
              (assets sets) (internal_flows sets)
              (Some (build_price_map entries)) date_begin date_end)
    as [[Hmis Hrun]|[(Hmis & Hf & Hrun)|(Hmis & entry & it & periods & h & p0
                                          & pn & Hf & _ & _ & _ & _ & _
                                          & Hrun)]];
    cbv zeta in Hrun; rewrite Hrun, Hmis.
  - split; [done|]. split; [done|by intros [[=] _]].
  - split; [done|]. by rewrite Hf.
  - rewrite Hf.
    destruct (period_loop _ _ h periods _) as [all_returns|e0] eqn:Hloop;
      simpl.
    + split; [done|]. split; [done|by intros [_ [=]]].
    + apply period_loop_raises in Hloop as [-> _].
      split; [done|]. split; [done|by intros [_ [=]]].
Qed.

(** * The display context *)

(** A dict filled by [for k, v in items: d[k] = g(v)]. *)
Lemma fold_insert_lookup {A B} (g : A → B) (items : list (option string * A)) :
  ∀ (acc : gmap (option string) B) c,
  NoDup items.*1 →
  foldl (λ d '(k, v), <[k := g v]> d) acc items !! c =
  match (list_to_map items : gmap (option string) A) !! c with
  | Some v => Some (g v)
  | None => acc !! c
  end.
Proof.
  induction items as [|[k p] items IH]; intros acc c Hnd; simpl; [done|].
  apply NoDup_cons in Hnd as [Hk Hnd]. rewrite IH by done.
  destruct (decide (c = k)) as [->|Hne].
  - rewrite lookup_insert_eq.
    rewrite (not_elem_of_list_to_map_1 _ k) by done.
    by rewrite lookup_insert_eq.
  - rewrite !lookup_insert_ne by done. done.
Qed.

Lemma formats_dict_spec (precision_dict : gmap (option string) Precision)
    (commas signs : bool) :
  _formats_dict precision_dict commas signs =
  p ← precision_dict !! None;
  Some (format_string commas signs <$> precision_dict,
        format_string commas signs p).
Proof.
  unfold _formats_dict.
  assert (Heq : foldl (λ formats '(currency, precision),
                         <[currency := format_string commas signs precision]>
                           formats)
                      ∅ (map_to_list precision_dict) =
                format_string commas signs <$> precision_dict).
  { apply map_eq. intros c.
    rewrite (fold_insert_lookup (format_string commas signs))
      by apply NoDup_fst_map_to_list.
    rewrite list_to_map_to_list, lookup_fmap, lookup_empty.
    by destruct (precision_dict !! c). }
  rewrite Heq, lookup_fmap. by destruct (precision_dict !! None).
Qed.

Lemma update_spec (dc : DisplayContext) :
  DisplayContext.update dc =
  p ← precision dc !! None;
  pm ← precision_max dc !! None;
  Some (mkDisplayContext (commas dc) (signs dc) (precision dc)
          (precision_max dc)
          (format_string (commas dc) (signs dc) <$> precision dc)
          (format_string (commas dc) (signs dc) <$> precision_max dc)
          (format_string (commas dc) (signs dc) p)
          (format_string (commas dc) (signs dc) pm)).
Proof.
  unfold DisplayContext.update. rewrite !formats_dict_spec.
  destruct (precision dc !! None); simpl; [|done].
  by destruct (precision_max dc !! None).
Qed.

Lemma update_has_defaults (dc : DisplayContext) :
  is_Some (precision dc !! None) → is_Some (precision_max dc !! None) →
  ∃ dc', DisplayContext.update dc = Some dc' ∧ has_defaults dc'.
Proof.
  intros [p Hp] [pm Hpm]. rewrite update_spec, Hp, Hpm. simpl.
  eexists. split; [done|]. unfold has_defaults. simpl.
  rewrite !lookup_fmap, Hp, Hpm. eauto.
Qed.

Lemma update_preserves_defaults (dc dc' : DisplayContext) :
  DisplayContext.update dc = Some dc' → has_defaults dc'.
Proof.
  rewrite update_spec.
  destruct (precision dc !! None) as [p|] eqn:Hp; simpl; [|done].
  destruct (precision_max dc !! None) as [pm|] eqn:Hpm; simpl; [|done].
  intros [= <-]. unfold has_defaults. simpl.
  rewrite !lookup_fmap, Hp, Hpm. eauto.
Qed.

Lemma constructed_has_defaults (dc : DisplayContext) :
  constructed dc → has_defaults dc.
Proof.
  induction 1 as [dc Hinit|dc dc' _ _ Hup|dc dc' c u _ IH Hset
                  |dc dc' n c u _ IH Hset|dc dc' n c u _ IH Hset].
  - by apply update_preserves_defaults in Hinit.
  - by apply update_preserves_defaults in Hup.
  - unfold DisplayContext.set_commas in Hset. destruct u.
    + by apply update_preserves_defaults in Hset.
    + injection Hset as <-. exact IH.
  - unfold DisplayContext.set_precision in Hset. destruct u.
    + by apply update_preserves_defaults in Hset.
    + injection Hset as <-. destruct IH as (Hp & Hpm & Hf & Hfm).
      split_and!; try done. simpl.
      destruct (decide (c = None)) as [->|Hne].
      * rewrite lookup_insert_eq. eauto.
      * by rewrite lookup_insert_ne.
  - unfold DisplayContext.set_precision_max in Hset. destruct u.
    + by apply update_preserves_defaults in Hset.
    + injection Hset as <-. destruct IH as (Hp & Hpm & Hf & Hfm).
      split_and!; try done. simpl.
      destruct (decide (c = None)) as [->|Hne].
      * rewrite lookup_insert_eq. eauto.
      * by rewrite lookup_insert_ne.
Qed.

Lemma is_Some_insert_default {A} (m : gmap (option string) A) c v :
  is_Some (m !! None) → is_Some (<[c := v]> m !! None).
Proof.
  intros Hm. destruct (decide (c = None)) as [->|Hne].
  - rewrite lookup_insert_eq. eauto.
  - by rewrite lookup_insert_ne.
Qed.

(** X20: The [KeyError] of line 107 is never raised: on a context made by the
    constructor and changed by the methods, [update] and the three setters
    return, with any arguments; and its default formats are the formats of
    the key [None], so that a currency without a format is formatted as the
    default currency is. *)
Theorem display_context_no_key_error (dc : DisplayContext) :
  constructed dc →
  is_Some (DisplayContext.update dc) ∧
  (∀ commas update_,
     is_Some (DisplayContext.set_commas dc commas update_)) ∧
  (∀ precision currency update_,
     is_Some (DisplayContext.set_precision dc precision currency update_)) ∧
  (∀ precision currency update_,
     is_Some (DisplayContext.set_precision_max dc precision currency
                update_)) ∧
  (∀ (Number : Type) (str_format : string → Number → outcome string)
     number currency,
     (formats dc !! currency = None →
      DisplayContext.format str_format dc number currency =
      DisplayContext.format str_format dc number None) ∧
     (formats_max dc !! currency = None →
      DisplayContext.format_max str_format dc number currency =
      DisplayContext.format_max str_format dc number None)).
Proof.
  intros Hc. destruct (constructed_has_defaults dc Hc) as (Hp & Hpm & Hf & Hfm).
  split_and!.
  - destruct (update_has_defaults dc Hp Hpm) as (dc' & -> & _). done.
  - intros c [|]; unfold DisplayContext.set_commas; [|done].
    destruct (update_has_defaults
                (mkDisplayContext c (signs dc) (precision dc)
                   (precision_max dc) (formats dc) (formats_max dc)
                   (formats_default dc) (formats_max_default dc)) Hp Hpm)
      as (dc' & -> & _). done.
  - intros n c [|]; unfold DisplayContext.set_precision; [|done].
    destruct (update_has_defaults
                (mkDisplayContext (commas dc) (signs dc)
                   (<[c := Digits n]> (precision dc))
                   (precision_max dc) (formats dc) (formats_max dc)
                   (formats_default dc) (formats_max_default dc)))
      as (dc' & -> & _); [by apply is_Some_insert_default|done|done].
  - intros n c [|]; unfold DisplayContext.set_precision_max; [|done].
    destruct (update_has_defaults
                (mkDisplayContext (commas dc) (signs dc) (precision dc)
                   (<[c := Digits n]> (precision_max dc))
                   (formats dc) (formats_max dc)
                   (formats_default dc) (formats_max_default dc)))
      as (dc' & -> & _); [done|by apply is_Some_insert_default|done].
  - intros Number str_format number currency.
    unfold DisplayContext.format, DisplayContext.format_max.
    split; intros ->; [by rewrite Hf|by rewrite Hfm].
Qed.

Lemma display_context_no_key_error_witness :
  is_Some (DisplayContext.update
             (mkDisplayContext false true {[None := FULL_PRECISION]}
                {[None := FULL_PRECISION]}
                {[None := "{: }"%string]} {[None := "{: }"%string]}
                "{: }" "{: }")).
Proof.
  apply (display_context_no_key_error
           (mkDisplayContext false true {[None := FULL_PRECISION]}
              {[None := FULL_PRECISION]}
              {[None := "{: }"%string]} {[None := "{: }"%string]}
              "{: }" "{: }")).
  apply constructed_init. vm_compute. reflexivity.
Defined.

(** X21: Once [update] has run, a number is formatted with the precision of its
    currency when the currency has one and with the default precision
    otherwise, with the commas and the signs of the context; likewise for
    [format_max] and the maximum precisions. *)
Theorem update_formats (dc dc' : DisplayContext) :
  DisplayContext.update dc = Some dc' →
  ∀ (Number : Type) (str_format : string → Number → outcome string)
    number currency,
    DisplayContext.format str_format dc' number currency =
      str_format (format_string (commas dc) (signs dc)
                    (precision_for (precision dc) currency)) number ∧
    DisplayContext.format_max str_format dc' number currency =
      str_format (format_string (commas dc) (signs dc)
                    (precision_for (precision_max dc) currency)) number.
Proof.
  rewrite update_spec.
  destruct (precision dc !! None) as [p|] eqn:Hp; simpl; [|done].
  destruct (precision_max dc !! None) as [pm|] eqn:Hpm; simpl; [|done].
  intros [= <-] Number str_format number currency.
  unfold DisplayContext.format, DisplayContext.format_max, precision_for.
  simpl. rewrite !lookup_fmap, Hp, Hpm. simpl.
  by destruct (precision dc !! currency), (precision_max dc !! currency).
Qed.

Lemma update_formats_witness :
  DisplayContext.format (λ fmt (_ : Z), Returns fmt)
    (mkDisplayContext false true {[None := FULL_PRECISION]}
       {[None := FULL_PRECISION]}
       {[None := "{: }"%string]} {[None := "{: }"%string]}
       "{: }" "{: }") 0 (Some "USD"%string) =
    Returns (format_string false true
               (precision_for {[None := FULL_PRECISION]}
                  (Some "USD"%string))) ∧
  DisplayContext.format_max (λ fmt (_ : Z), Returns fmt)
    (mkDisplayContext false true {[None := FULL_PRECISION]}
       {[None := FULL_PRECISION]}
       {[None := "{: }"%string]} {[None := "{: }"%string]}
       "{: }" "{: }") 0 (Some "USD"%string) =
    Returns (format_string false true
               (precision_for {[None := FULL_PRECISION]}
                  (Some "USD"%string))).
Proof.
  assert (Hup : DisplayContext.update
                  (mkDisplayContext false true {[None := FULL_PRECISION]}
                     {[None := FULL_PRECISION]} ∅ ∅ EmptyString EmptyString) =
                Some (mkDisplayContext false true {[None := FULL_PRECISION]}
                        {[None := FULL_PRECISION]}
                        {[None := "{: }"%string]} {[None := "{: }"%string]}
                        "{: }" "{: }")) by (vm_compute; reflexivity).
  exact (update_formats _ _ Hup Z (λ fmt (_ : Z), Returns fmt) 0
           (Some "USD"%string)).
Defined.

(** X22: On a context made by the constructor and the methods,
    [set_precision(precision, currency)] returns, and numbers of that
    currency are then formatted with that many digits, whatever was set
    before; the commas and the signs are kept. *)
Theorem set_precision_formats (dc : DisplayContext) (n : Z)
    (currency : option string) :
  constructed dc →
  ∃ dc', DisplayContext.set_precision dc n currency true = Some dc' ∧
    commas dc' = commas dc ∧ signs dc' = signs dc ∧
    ∀ (Number : Type) (str_format : string → Number → outcome string) number,
      DisplayContext.format str_format dc' number currency =
      str_format (format_string (commas dc) (signs dc) (Digits n)) number.
Proof.
  intros Hc. destruct (constructed_has_defaults dc Hc) as (Hp & Hpm & _).
  unfold DisplayContext.set_precision. rewrite update_spec. simpl.
  destruct (is_Some_insert_default (precision dc) currency (Digits n) Hp)
    as [p ->].
  destruct Hpm as [pm ->]. simpl. eexists. split; [done|]. simpl.
  split_and!; [done|done|].
  intros Number str_format number. unfold DisplayContext.format. simpl.
  by rewrite lookup_fmap, lookup_insert_eq.
Qed.

Lemma set_precision_formats_witness :
  ∃ dc',
    DisplayContext.set_precision
      (mkDisplayContext false true {[None := FULL_PRECISION]}
         {[None := FULL_PRECISION]}
         {[None := "{: }"%string]} {[None := "{: }"%string]}
         "{: }" "{: }") 2 (Some "USD"%string) true = Some dc' ∧
    commas dc' = false ∧ signs dc' = true ∧
    ∀ (Number : Type) (str_format : string → Number → outcome string) number,
      DisplayContext.format str_format dc' number (Some "USD"%string) =
      str_format (format_string false true (Digits 2)) number.
Proof.
  apply (set_precision_formats
           (mkDisplayContext false true {[None := FULL_PRECISION]}
              {[None := FULL_PRECISION]}
              {[None := "{: }"%string]} {[None := "{: }"%string]}
              "{: }" "{: }") 2 (Some "USD"%string)).
  apply constructed_init. vm_compute. reflexivity.
Defined.

Section builder_update_facts.
Context {Distribution : Type}.
Variable Distribution_new : Distribution.
Variable Distribution_update : Distribution → Z → Distribution.

Local Abbreviation Info :=
  (DisplayContextBuilder.BuilderCurrencyInfo (Distribution := Distribution)).
Local Abbreviation get :=
  (DisplayContextBuilder.builder_infos_get Distribution_new).
Local Abbreviation updates :=
  (builder_updates Distribution_new Distribution_update).

Lemma builder_updates_get (numbers : list (DecimalTuple * option string)) :
  ∀ (infos : gmap (option string) Info) c,
  (is_Some (updates infos numbers !! c) ↔
   is_Some (infos !! c) ∨ numbers_of c numbers ≠ []) ∧
  get (updates infos numbers) c =
  DisplayContextBuilder.mkBuilderCurrencyInfo
    (foldl Distribution_update (DisplayContextBuilder.precision_dist (get infos c))
           (exponent <$> numbers_of c numbers))
    (foldl Z.max (DisplayContextBuilder.max_int_digits (get infos c))
           (num_int_digits <$> numbers_of c numbers)).
Proof.
  induction numbers as [|[n c0] numbers IH]; intros infos c.
  { unfold numbers_of. simpl. split; [naive_solver|].
    by destruct (get infos c). }
  unfold builder_updates. simpl (foldl _ _ (_ :: _)).
  fold (updates (DisplayContextBuilder.update Distribution_new Distribution_update infos
                   n c0) numbers).
  destruct (IH (DisplayContextBuilder.update Distribution_new Distribution_update infos
                  n c0) c) as [IH1 IH2].
  rewrite IH1, IH2. clear IH IH1 IH2.
  unfold numbers_of. rewrite filter_cons. simpl.
  unfold DisplayContextBuilder.update,
    DisplayContextBuilder.builder_infos_get.
  destruct (decide (c0 = c)) as [->|Hne].
  - rewrite lookup_insert_eq. simpl. split; [|done].
    split; [intros _; by right|eauto].
  - rewrite lookup_insert_ne by done. done.
Qed.

End builder_update_facts.

Section build_facts.
Context {Distribution : Type}.
Variable Distribution_mode : Distribution → Z.
Variable Distribution_min : Distribution → Z.

Local Abbreviation step :=
  (DisplayContextBuilder.build_step Distribution_mode Distribution_min).

Lemma build_fold
    (items : list (option string *
                   DisplayContextBuilder.BuilderCurrencyInfo
                     (Distribution := Distribution))) :
  ∀ dc : DisplayContext,
  foldl step (Some dc) items =
  Some (mkDisplayContext (commas dc) (signs dc)
          (foldl (λ d '(k, v),
                    <[k := Digits (- Distribution_mode
                                       (DisplayContextBuilder.precision_dist
                                          v))]> d)
                 (precision dc) items)
          (foldl (λ d '(k, v),
                    <[k := Digits (- Distribution_min
                                       (DisplayContextBuilder.precision_dist
                                          v))]> d)
                 (precision_max dc) items)
          (formats dc) (formats_max dc) (formats_default dc)
          (formats_max_default dc)).
Proof.
  induction items as [|[k v] items IH]; intros dc; simpl.
  { by destruct dc. }
  unfold DisplayContext.set_precision, DisplayContext.set_precision_max.
  simpl. by rewrite IH.
Qed.

End build_facts.

(** X23: [build] always returns a context (no [KeyError]), without commas and
    with signs: every currency the builder has seen gets the negated mode
    of its exponents as precision and their negated minimum as maximum
    precision, the default stays at full precision unless numbers without
    currency were seen, and the formats are those of these precisions.  The
    numbers of integer digits the builder records are not used. *)
Theorem build_precisions {Distribution : Type}
    (Distribution_mode Distribution_min : Distribution → Z)
    (builder_infos :
       gmap (option string) DisplayContextBuilder.BuilderCurrencyInfo) :
  let of_info (measure : Distribution → Z) currency :=
    match builder_infos !! currency with
    | Some cinfo =>
        Some (Digits (- measure (DisplayContextBuilder.precision_dist cinfo)))
    | None => if decide (currency = None) then Some FULL_PRECISION else None
    end in
  ∃ dc,
    DisplayContextBuilder.build Distribution_mode Distribution_min
      builder_infos = Some dc ∧
    commas dc = false ∧ signs dc = true ∧
    (∀ currency,
       precision dc !! currency = of_info Distribution_mode currency) ∧
    (∀ currency,
       precision_max dc !! currency = of_info Distribution_min currency) ∧
    ∀ (Number : Type) (str_format : string → Number → outcome string)
      number currency,
      DisplayContext.format str_format dc number currency =
        str_format (format_string false true
                      (precision_for (precision dc) currency)) number ∧
      DisplayContext.format_max str_format dc number currency =
        str_format (format_string false true
                      (precision_for (precision_max dc) currency)) number.
Proof.
  intros of_info. unfold DisplayContextBuilder.build.
  assert (Hinit : DisplayContext.__init__ =
                  Some (mkDisplayContext false true {[None := FULL_PRECISION]}
                          {[None := FULL_PRECISION]}
                          {[None := "{: }"%string]} {[None := "{: }"%string]}
                          "{: }" "{: }")) by (vm_compute; reflexivity).
  rewrite Hinit, build_fold. simpl.
  set (pr := foldl _ _ _). set (pm := foldl _ _ _).
  assert (Hpr : ∀ c, pr !! c = of_info Distribution_mode c).
  { intros c. subst pr of_info.
    rewrite (fold_insert_lookup
               (λ v, Digits (- Distribution_mode
                                 (DisplayContextBuilder.precision_dist v))))
      by apply NoDup_fst_map_to_list.
    rewrite list_to_map_to_list.
    destruct (builder_infos !! c); [done|].
    destruct (decide (c = None)) as [->|Hne]; [done|].
    by rewrite lookup_singleton_ne. }
  assert (Hpm : ∀ c, pm !! c = of_info Distribution_min c).
  { intros c. subst pm of_info.
    rewrite (fold_insert_lookup
               (λ v, Digits (- Distribution_min
                                 (DisplayContextBuilder.precision_dist v))))
      by apply NoDup_fst_map_to_list.
    rewrite list_to_map_to_list.
    destruct (builder_infos !! c); [done|].
    destruct (decide (c = None)) as [->|Hne]; [done|].
    by rewrite lookup_singleton_ne. }
  assert (H1 : is_Some (pr !! None)).
  { rewrite Hpr. subst of_info. simpl.
    destruct (builder_infos !! None); eauto. }
  assert (H2 : is_Some (pm !! None)).
  { rewrite Hpm. subst of_info. simpl.
    destruct (builder_infos !! None); eauto. }
  rewrite update_spec. simpl.
  destruct H1 as [p1 Hp1], H2 as [p2 Hp2]. rewrite Hp1, Hp2. simpl.
  eexists. split; [done|]. simpl. split_and!; try done.
  intros Number str_format number currency.
  unfold DisplayContext.format, DisplayContext.format_max, precision_for.
  simpl. rewrite !lookup_fmap, Hp1, Hp2. simpl.
  by destruct (pr !! currency), (pm !! currency).
Qed.

(** X24: A builder keeps one record per currency, and the numbers of one
    currency do not touch the record of another: after the numbers of a
    list, a currency has a record exactly when the list has a number of that
    currency; the record then holds the distribution of the exponents of
    these numbers, in order, and as number of integer digits the largest of
    1 and their [len(digits) + exponent]. *)
Theorem builder_update_per_currency {Distribution : Type}
    (Distribution_new : Distribution)
    (Distribution_update : Distribution → Z → Distribution)
    (numbers : list (DecimalTuple * option string))
    (currency : option string) :
  builder_updates Distribution_new Distribution_update ∅ numbers !! currency =
  if decide (numbers_of currency numbers = []) then None
  else Some (DisplayContextBuilder.mkBuilderCurrencyInfo
               (foldl Distribution_update Distribution_new
                      (exponent <$> numbers_of currency numbers))
               (foldl Z.max 1
                      (num_int_digits <$> numbers_of currency numbers))).
Proof.
  destruct (builder_updates_get Distribution_new Distribution_update numbers
              ∅ currency) as [Hsome Hget].
  rewrite lookup_empty in Hsome.
  destruct (decide (numbers_of currency numbers = [])) as [Hnil|Hne].
  - apply eq_None_not_Some. rewrite Hsome. intros [[? [=]]|?]; done.
  - destruct (proj2 Hsome (or_intror Hne)) as [info Hinfo].
    rewrite Hinfo. f_equal. unfold DisplayContextBuilder.builder_infos_get in Hget.
    rewrite Hinfo, lookup_empty in Hget. exact Hget.
Qed.

(** * The returns of the periods, put together *)

Section period_returns_facts.
Context {F : Type} `{!FloatOps F} {M B : Type} {mem : Memory M B}.
Variable PriceMap : Type.
Variable get_inventory_market_value :
  gmap Lot Qc → date → PriceMap → gmap Lot Qc.

Lemma returns_of_period_keys (m : M) price_map (p : Period B)
    (returns : gmap string F) c :
  returns_of_period PriceMap get_inventory_market_value m price_map p
    returns →
  is_Some (returns !! c) ↔
  held_in_period PriceMap get_inventory_market_value m price_map c p.
Proof.
  intros [mv Hr].
  destruct (compute_period_returns_lookup (F := F) PriceMap
              get_inventory_market_value (period_begin p) (period_end p)
              (read_inventory m (balance_begin p))
              (read_inventory m (balance_end p)) price_map)
    as (returns' & Hc & Hl).
  rewrite Hc in Hr. injection Hr as <- _. cbv zeta in Hl. rewrite Hl.
  unfold held_in_period. destruct (decide (_ ∨ _)) as [Hh|Hh].
  - split; [done|eauto].
  - split; [by intros [? [=]]|done].
Qed.

Lemma returns_of_periods_keys (m : M) price_map periods
    (all_returns : list (gmap string F)) c :
  Forall2 (returns_of_period PriceMap get_inventory_market_value m price_map)
          periods all_returns →
  Exists (λ returns, is_Some (returns !! c)) all_returns ↔
  Exists (held_in_period PriceMap get_inventory_market_value m price_map c)
         periods.
Proof.
  induction 1 as [|p r periods rs Hr _ IH].
  - by rewrite !Exists_nil.
  - by rewrite !Exists_cons, IH, (returns_of_period_keys _ _ _ _ _ Hr).
Qed.

(** A period that begins with an empty market value returns [1.0] for every
    currency. *)
Lemma returns_of_period_from_nothing (m : M) price_map (p : Period B)
    (returns : gmap string F) c r :
  get_inventory_market_value (read_inventory m (balance_begin p))
    (period_begin p) price_map = ∅ →
  returns_of_period PriceMap get_inventory_market_value m price_map p
    returns →
  returns !! c = Some r → r = f_one.
Proof.
  intros Hempty [mv Hr].
  destruct (compute_period_returns_lookup (F := F) PriceMap
              get_inventory_market_value (period_begin p) (period_end p)
              (read_inventory m (balance_begin p))
              (read_inventory m (balance_end p)) price_map)
    as (returns' & Hc & Hl).
  rewrite Hc in Hr. injection Hr as <- _. cbv zeta in Hl.
  rewrite Hl, Hempty.
  assert (Hnone : plain_amount ∅ c = None) by apply lookup_empty.
  rewrite Hnone. cbn [default]. destruct (decide (_ ∨ _)); [|done].
  rewrite decide_True by done. by intros [= <-].
Qed.

End period_returns_facts.

Lemma first_period_from_nothing
    (accounts_assets accounts_intflows : gset string)
    (date_end : option date) (entries : list Directive) p0 periods h :
  segment_periods (mem := PyHeap) accounts_assets accounts_intflows None
    date_end entries = Some (Returns (p0 :: periods, h)) →
  heap_read h (balance_begin p0) = ∅.
Proof.
  intros Hseg.
  assert (Hrun : read_result
            (segment_periods (mem := PyHeap) accounts_assets
               accounts_intflows None date_end entries) =
            Some (Returns (read_period h <$> p0 :: periods)))
    by (by rewrite Hseg).
  destruct (segment_periods_read_balances _ _ _ _ _ _ Hrun) as (Hb & _).
  simpl in Hb. by injection Hb.
Qed.

(** X25: When [compute_returns] returns, the currencies that have a total return
    are exactly those held without cost in the market value of the begin
    balance or of the end balance of some period. *)
Theorem compute_returns_currencies {F : Type} `{!FloatOps F}
    (PriceMap : Type)
    (get_inventory_market_value : gmap Lot Qc → date → PriceMap → gmap Lot Qc)
    (build_price_map : list Directive → PriceMap)
    (entries : list Directive) (accounts_assets accounts_intflows : gset string)
    (price_map : option PriceMap) (date_begin date_end : option date)
    (total_returns : gmap string F) (span : date * date) :
  compute_returns (M := list (gmap Lot Qc)) PriceMap
    get_inventory_market_value build_price_map entries accounts_assets
    accounts_intflows price_map date_begin date_end =
    Some (Returns (total_returns, span)) →
  ∃ periods h,
    segment_periods (mem := PyHeap) accounts_assets accounts_intflows
      date_begin date_end entries = Some (Returns (periods, h)) ∧
    ∀ c, is_Some (total_returns !! c) ↔
         Exists (held_in_period PriceMap get_inventory_market_value h
                   (default (build_price_map entries) price_map) c)
                periods.
Proof.
  destruct (compute_returns_cases (F := F) (mem := PyHeap) PriceMap
              get_inventory_market_value build_price_map entries
              accounts_assets accounts_intflows price_map date_begin date_end)
    as [[Hmis Hrun]|[(Hmis & Hf & Hrun)|(Hmis & entry & it & periods & h & p0
                                          & pn & Hf & Hseg & _ & _ & _ & _
                                          & Hrun)]];
    cbv zeta in Hrun; rewrite Hrun; [done|done|].
  destruct (period_loop _ _ h periods _) as [all_returns|e0] eqn:Hloop;
    simpl; [|done].
  intros [= <- _]. exists periods, h. split; [done|]. intros c.
  apply period_loop_returns in Hloop.
  rewrite <- (returns_of_periods_keys _ _ _ _ _ _ c Hloop).
  rewrite compound_returns_lookup, Exists_exists, <- elem_of_currencies.
  destruct (decide (c ∈ _)) as [Hin|Hnin]; [by split; eauto|].
  split; [by intros [? [=]]|done].
Qed.

Lemma compute_returns_currencies_witness :
  ∃ periods h,
    segment_periods (mem := PyHeap) ledger_assets ledger_intflows
      None None year_ledger = Some (Returns (periods, h)) ∧
    ∀ c, is_Some (({["USD"%string := Q2Qc (11 # 10)]} : gmap string Qc) !! c)
         ↔ Exists (held_in_period unit (λ inv _ _, inv) h tt c) periods.
Proof.
  apply (compute_returns_currencies (F := Qc) unit (λ inv _ _, inv)
           (λ _, tt) year_ledger ledger_assets ledger_intflows None None
           None {["USD"%string := Q2Qc (11 # 10)]} (737425, 737790)).
  vm_compute. reflexivity.
Defined.

(** X26: Without [date_begin] the first period starts from an empty balance, so
    that, the market value of an empty inventory being empty, every return
    of the first period is [1.0]: what the assets gain before the first
    external flow is not counted. *)
Theorem first_period_returns_one {F : Type} `{!FloatOps F}
    (PriceMap : Type)
    (get_inventory_market_value : gmap Lot Qc → date → PriceMap → gmap Lot Qc)
    (price_map : PriceMap)
    (accounts_assets accounts_intflows : gset string)
    (date_end : option date) (entries : list Directive)
    (p0 : Period nat) (periods : list (Period nat)) (h : Heap)
    (returns : gmap string F) :
  (∀ d, get_inventory_market_value ∅ d price_map = ∅) →
  segment_periods (mem := PyHeap) accounts_assets accounts_intflows None
    date_end entries = Some (Returns (p0 :: periods, h)) →
  returns_of_period PriceMap get_inventory_market_value h price_map p0
    returns →
  ∀ c r, returns !! c = Some r → r = f_one.
Proof.
  intros Hempty Hseg Hr c r.
  apply (returns_of_period_from_nothing PriceMap get_inventory_market_value
           h price_map p0 returns c r); [|done].
  simpl. by rewrite (first_period_from_nothing _ _ _ _ _ _ _ Hseg).
Qed.

Lemma first_period_returns_one_witness : 1%Qc = f_one (F := Qc).
Proof.
  apply (first_period_returns_one (F := Qc) unit (λ inv _ _, inv) tt
           ledger_assets ledger_intflows None [dividend]
           (mkPeriod 737760 737760 1%nat 2%nat) []
           [{[mkLot "USD" None := Q2Qc (inject_Z 100)]}; ∅;
            {[mkLot "USD" None := Q2Qc (inject_Z 100)]}]
           {["USD"%string := 1%Qc]}) with (c := "USD"%string);
    [| | |reflexivity].
  - done.
  - lazymatch goal with |- _ = ?r => vm_cast_no_check (eq_refl r) end.
  - exists (∅, {[mkLot "USD" None := Q2Qc (inject_Z 100)]}).
    lazymatch goal with |- _ = ?r => vm_cast_no_check (eq_refl r) end.
Defined.

(** X27: Without dates, when no asset-relevant entry is an external flow entry,
    [compute_returns] reports [1.0] for every currency, whatever the assets
    gained; the market value of an empty inventory is taken to be empty and
    [1.0 * 1.0] to be [1.0]. *)
Theorem compute_returns_without_external_flow {F : Type} `{!FloatOps F}
    (PriceMap : Type)
    (get_inventory_market_value : gmap Lot Qc → date → PriceMap → gmap Lot Qc)
    (build_price_map : list Directive → PriceMap)
    (entries : list Directive) (accounts_assets accounts_intflows : gset string)
    (price_map : option PriceMap)
    (total_returns : gmap string F) (span : date * date) :
  (∀ d, get_inventory_market_value ∅ d
          (default (build_price_map entries) price_map) = ∅) →
  f_mul (F := F) f_one f_one = f_one →
  n_external accounts_assets accounts_intflows
    (asset_entries accounts_assets entries) = 0%nat →
  compute_returns (M := list (gmap Lot Qc)) PriceMap
    get_inventory_market_value build_price_map entries accounts_assets
    accounts_intflows price_map None None =
    Some (Returns (total_returns, span)) →
  ∀ c r, total_returns !! c = Some r → r = f_one.
Proof.
  intros Hempty Hmul Hext.
  destruct (compute_returns_cases (F := F) (mem := PyHeap) PriceMap
              get_inventory_market_value build_price_map entries
              accounts_assets accounts_intflows price_map None None)
    as [[Hmis Hrun]|[(Hmis & Hf & Hrun)|(Hmis & entry & it & periods & h & p0
                                          & pn & Hf & Hseg & _ & _ & _ & _
                                          & Hrun)]];
    cbv zeta in Hrun; rewrite Hrun; [done|done|].
  destruct (period_loop _ _ h periods _) as [all_returns|e0] eqn:Hloop;
    simpl; [|done].
  intros [= <- _] c r. apply period_loop_returns in Hloop.
  assert (Hrun' : read_result
            (segment_periods (mem := PyHeap) accounts_assets
               accounts_intflows None None entries) =
            Some (Returns (read_period h <$> periods)))
    by (by rewrite Hseg).
  destruct (segment_periods_read_balances _ _ _ _ _ _ Hrun')
    as (_ & _ & _ & Hlen).
  destruct (Hlen eq_refl eq_refl) as (e & Hlast & Hn).
  assert (He : is_external_flow_entry accounts_assets accounts_intflows e
               = false).
  { destruct (is_external_flow_entry _ _ e) eqn:Hx; [|done]. exfalso.
    apply last_Some_elem_of in Hlast.
    unfold n_external in Hext. apply length_zero_iff_nil in Hext.
    by apply (filter_nil_not_elem_of _ _ e Hext). }
  rewrite Hext, He, length_fmap in Hn.
  destruct periods as [|q0 [|q1 periods]]; simplify_eq/=.
  apply Forall2_cons_inv_l in Hloop as (r0 & rs & Hr0 & Hrs & ->).
  apply Forall2_nil_inv_l in Hrs as ->.
  rewrite compound_returns_lookup.
  destruct (decide (c ∈ _)) as [Hin|Hnin]; [|done].
  intros [= <-]. unfold total_return. simpl.
  apply elem_of_currencies in Hin as (r1 & Hr1 & [v Hv]).
  apply list_elem_of_singleton in Hr1 as ->. rewrite Hv. simpl.
  rewrite (returns_of_period_from_nothing PriceMap
             get_inventory_market_value h
             (default (build_price_map entries) price_map) q0 r0 c v);
    [done| |done|done].
  simpl. by rewrite (first_period_from_nothing _ _ _ _ _ _ _ Hseg).
Qed.

Lemma compute_returns_without_external_flow_witness :
  1%Qc = f_one (F := Qc).
Proof.
  apply (compute_returns_without_external_flow (F := Qc) unit
           (λ inv _ _, inv) (λ _, tt) [dividend] ledger_assets
           ledger_intflows None {["USD"%string := 1%Qc]} (737760, 737760))
    with (c := "USD"%string); [| | | |reflexivity].
  - done.
  - compute_done.
  - vm_compute. reflexivity.
  - vm_compute. reflexivity.
Defined.
